(** * Paragraph_Correction_Using_NLP: the proper-noun guardrail pipeline

    A shallow embedding of [models/spell_checker.py],
    [models/grammar_corrector.py] and [utils/academic_rules.py], and the
    properties of the token-level lock-and-align algorithm.

    Python [str] values are lists of characters.  A character is a code
    point in U+0000..U+00FF (type [ascii] read as Latin-1); the character
    classes below are the Unicode classes of CPython restricted to that
    range.  Python [float] cutoffs and similarity ratios are rationals:
    every ratio is a quotient [2*M/T] of small integers and every cutoff a
    short decimal, on which the comparisons of the floats and of the
    rationals agree. *)

From Stdlib Require Import Ascii String List ZArith QArith Bool Lia.
From stdpp Require Import gmap strings.
Import ListNotations.

Local Open Scope string_scope.
Local Open Scope nat_scope.
Local Open Scope list_scope.

(** ** Python strings *)

Abbreviation str := (list ascii).

Definition str_of_string (s : string) : list ascii := list_ascii_of_string s.
Coercion str_of_string : string >-> list.

Module Py.

Definition code (c : ascii) : N := N_of_ascii c.

Definition between (lo hi : N) (c : ascii) : bool :=
  (lo <=? code c)%N && (code c <=? hi)%N.

(** [A-Z], [a-z], [0-9] *)
Definition is_AZ : ascii -> bool := between 65 90.
Definition is_az : ascii -> bool := between 97 122.
Definition is_09 : ascii -> bool := between 48 57.

(** [str.isalpha] on one character: categories L*. *)
Definition isalpha_char (c : ascii) : bool :=
  is_AZ c || is_az c
  || (code c =? 170)%N || (code c =? 181)%N || (code c =? 186)%N
  || between 192 214 c || between 216 246 c || between 248 255 c.

(** Decimal, digit or numeric characters: [0-9], superscripts one to
    three and the three vulgar fractions. *)
Definition isnumeric_char (c : ascii) : bool :=
  is_09 c
  || (code c =? 178)%N || (code c =? 179)%N || (code c =? 185)%N
  || between 188 190 c.

Definition isalnum_char (c : ascii) : bool :=
  isalpha_char c || isnumeric_char c.

(** [str.isspace] on one character. *)
Definition isspace_char (c : ascii) : bool :=
  between 9 13 c || between 28 32 c
  || (code c =? 133)%N || (code c =? 160)%N.

Definition isupper_char (c : ascii) : bool :=
  is_AZ c || between 192 214 c || between 216 222 c.

Definition lower_char (c : ascii) : ascii :=
  if isupper_char c then ascii_of_N (code c + 32) else c.

(** The upper-case form of a character, where it lies in the range. *)
Definition upper_char (c : ascii) : ascii :=
  if is_az c || between 224 246 c || between 248 254 c
  then ascii_of_N (code c - 32) else c.

Definition lower (s : str) : str := map lower_char s.

Definition isalpha (s : str) : bool :=
  match s with [] => false | _ => forallb isalpha_char s end.

(** [s.isupper()] for a string of at most one character, the only use
    in the program ([t[:1].isupper()]). *)
Definition isupper (s : str) : bool :=
  match s with [c] => isupper_char c | _ => false end.

(** [s.capitalize()]: first character in title case, the rest in lower
    case.  The sharp s becomes [Ss]; the title-case forms of the micro
    sign and of y with diaeresis lie outside the range and the two are
    left as they are. *)
Definition capitalize (s : str) : str :=
  match s with
  | [] => []
  | c :: r =>
      (if (code c =? 223)%N then ["S"; "s"]%char else [upper_char c])
      ++ lower r
  end.

Fixpoint lstrip (s : str) : str :=
  match s with
  | c :: r => if isspace_char c then lstrip r else s
  | [] => []
  end.

Definition rstrip (s : str) : str := rev (lstrip (rev s)).

Definition strip (s : str) : str := rstrip (lstrip s).

Definition eqb_char (a b : ascii) : bool := Ascii.eqb a b.

(** The double quote character. *)
Definition dquote : ascii := ascii_of_N 34.

Fixpoint eqb (a b : str) : bool :=
  match a, b with
  | [], [] => true
  | x :: a', y :: b' => eqb_char x y && eqb a' b'
  | _, _ => false
  end.

Fixpoint startswith (s p : str) : bool :=
  match p, s with
  | [], _ => true
  | x :: p', y :: s' => eqb_char x y && startswith s' p'
  | _ :: _, [] => false
  end.


(** [a < b] on strings: lexicographic on code points. *)
Fixpoint ltb (a b : str) : bool :=
  match a, b with
  | _, [] => false
  | [], _ :: _ => true
  | x :: a', y :: b' =>
      (code x <? code y)%N || ((code x =? code y)%N && ltb a' b')
  end.

(** [s[:1]] and [s[-1]] *)
Definition first1 (s : str) : str := firstn 1 s.

Definition last_char (s : str) : option ascii := last s.

(** Truth value of a string: non-empty. *)
Definition truthy (s : str) : bool :=
  match s with [] => false | _ => true end.

End Py.

(** ** The [re] module: a backtracking matcher

    [matches r st] lists the states in which [r] can stop when started in
    [st], in the order in which the backtracking matcher of CPython tries
    them; the head of the list is the match [re] reports. *)

Module Re.

Inductive flag : Set := IGNORECASE | UNICODE | ASCII.

Definition flags := list flag.

Definition has_ascii (fl : flags) : bool :=
  existsb (fun f => match f with ASCII => true | _ => false end) fl.

Definition has_ignorecase (fl : flags) : bool :=
  existsb (fun f => match f with IGNORECASE => true | _ => false end) fl.

(** [\d], [\w] and [\s].  On a [str] pattern the classes are the Unicode
    ones unless the ASCII flag is given: the UNICODE flag changes
    nothing. *)
Definition cls_d (fl : flags) (c : ascii) : bool := Py.is_09 c.

Definition cls_w (fl : flags) (c : ascii) : bool :=
  if has_ascii fl
  then Py.is_AZ c || Py.is_az c || Py.is_09 c || (Py.code c =? 95)%N
  else Py.isalnum_char c || (Py.code c =? 95)%N.

Definition cls_s (fl : flags) (c : ascii) : bool :=
  if has_ascii fl
  then Py.between 9 13 c || (Py.code c =? 32)%N
  else Py.isspace_char c.

(** A literal character of the pattern. *)
Definition cls_lit (fl : flags) (x c : ascii) : bool :=
  if has_ignorecase fl
  then Py.eqb_char (Py.lower_char x) (Py.lower_char c)
  else Py.eqb_char x c.

Definition one_of (s : str) (c : ascii) : bool :=
  existsb (Py.eqb_char c) s.

Inductive regex : Type :=
| Eps
| Chr (p : ascii -> bool)
| Seq (r1 r2 : regex)
| Alt (r1 r2 : regex)
| Star (r : regex)
| WordB (fl : flags)
| Grp (n : nat) (r : regex).

Definition Plus (r : regex) : regex := Seq r (Star r).

Fixpoint Lit (fl : flags) (s : str) : regex :=
  match s with
  | [] => Eps
  | [c] => Chr (cls_lit fl c)
  | c :: s' => Seq (Chr (cls_lit fl c)) (Lit fl s')
  end.

Record mstate : Type := MState {
  seen : list ascii;            (* the text before the position, reversed *)
  rest : list ascii;            (* the text from the position on *)
  caps : list (nat * str)       (* the groups captured so far *)
}.

Definition is_word_opt (fl : flags) (o : option ascii) : bool :=
  match o with Some c => cls_w fl c | None => false end.

Definition at_boundary (fl : flags) (st : mstate) : bool :=
  xorb (is_word_opt fl (hd_error (seen st))) (is_word_opt fl (hd_error (rest st))).

Definition set_cap (n : nat) (st0 st : mstate) : mstate :=
  MState (seen st) (rest st)
    ((n, rev (firstn (length (seen st) - length (seen st0)) (seen st))) :: caps st).

(** Greedy repetition: the longest chain of iterations first.  An
    iteration has to consume a character (no pattern of the program
    repeats a body that matches the empty string). *)
Fixpoint star (step : mstate -> list mstate) (fuel : nat) (st : mstate)
  : list mstate :=
  match fuel with
  | 0 => [st]
  | S f =>
      flat_map
        (fun st' =>
           if length (rest st') <? length (rest st) then star step f st' else [])
        (step st)
      ++ [st]
  end.

Fixpoint matches (r : regex) (st : mstate) : list mstate :=
  match r with
  | Eps => [st]
  | Chr p =>
      match rest st with
      | c :: s' => if p c then [MState (c :: seen st) s' (caps st)] else []
      | [] => []
      end
  | Seq r1 r2 => flat_map (matches r2) (matches r1 st)
  | Alt r1 r2 => matches r1 st ++ matches r2 st
  | Star r1 => star (matches r1) (length (rest st)) st
  | WordB fl => if at_boundary fl st then [st] else []
  | Grp n r1 => map (set_cap n st) (matches r1 st)
  end.

Definition match_at (r : regex) (before s : list ascii) : option mstate :=
  hd_error (matches r (MState before s [])).

(** [re.match(r, s)] as a truth value. *)
Definition is_match (r : regex) (s : str) : bool :=
  match match_at r [] s with Some _ => true | None => false end.

(** The scan shared by [findall] and [sub]: the text cut into the
    characters outside every match and the successive non-overlapping
    matches, leftmost first.  [skip] counts the characters of the current
    match still to pass.  No pattern of the program matches the empty
    string; after such a match the scan moves on by one character. *)
Inductive piece : Type :=
| Plain (c : ascii)
| Found (whole : str) (groups : list (nat * str)).

Fixpoint scan (r : regex) (before s : list ascii) (skip : nat) {struct s}
  : list piece :=
  match skip with
  | S k =>
      match s with
      | [] => []
      | c :: s' => scan r (c :: before) s' k
      end
  | 0 =>
      match match_at r before s with
      | None =>
          match s with
          | [] => []
          | c :: s' => Plain c :: scan r (c :: before) s' 0
          end
      | Some st =>
          let n := length s - length (rest st) in
          Found (firstn n s) (caps st) ::
          match s with
          | [] => []
          | c :: s' =>
              match n with
              | 0 => Plain c :: scan r (c :: before) s' 0
              | S k => scan r (c :: before) s' k
              end
          end
      end
  end.

(** [re.findall(r, s)] for a pattern without capturing groups. *)
Definition findall (r : regex) (s : str) : list str :=
  flat_map (fun p => match p with Plain _ => [] | Found w _ => [w] end)
           (scan r [] s 0).

(** A replacement template: text and group references. *)
Inductive repl_item : Type :=
| Text (s : str)
| Ref (n : nat).

Definition group (gs : list (nat * str)) (n : nat) : str :=
  match find (fun p => Nat.eqb (fst p) n) gs with
  | Some p => snd p
  | None => []
  end.

Definition expand (tpl : list repl_item) (gs : list (nat * str)) : str :=
  flat_map (fun it => match it with Text s => s | Ref n => group gs n end) tpl.

(** [re.sub(r, tpl, s)] *)
Definition sub (r : regex) (tpl : list repl_item) (s : str) : str :=
  flat_map (fun p => match p with Plain c => [c] | Found _ gs => expand tpl gs end)
           (scan r [] s 0).

End Re.

(** ** Exceptions *)

Inductive exn : Set := ValueError | KeyError.

Inductive result (A : Type) : Type :=
| Ok (a : A)
| Raise (e : exn).

Arguments Ok {A} a.
Arguments Raise {A} e.

#[global] Instance result_ret : MRet result := fun A a => Ok a.

#[global] Instance result_bind : MBind result := fun A B f x =>
  match x with
  | Ok a => f a
  | Raise e => Raise e
  end.

(** ** Python dictionaries with their insertion order

    The module-level tables are dictionaries whose keys are iterated
    ([list(ALL_LEX.keys())]): a list of bindings with distinct keys, in
    the order of first insertion. *)

Module Dict.

Section Ops.

Context {V : Type}.

Fixpoint get (d : list (str * V)) (k : str) : option V :=
  match d with
  | [] => None
  | (k', v) :: d' => if Py.eqb k' k then Some v else get d' k
  end.

Definition mem (d : list (str * V)) (k : str) : bool :=
  match get d k with Some _ => true | None => false end.

(** [d[k] = v]: an existing key keeps its place. *)
Fixpoint set (d : list (str * V)) (k : str) (v : V) : list (str * V) :=
  match d with
  | [] => [(k, v)]
  | (k', v') :: d' =>
      if Py.eqb k' k then (k', v) :: d' else (k', v') :: set d' k v
  end.

Definition keys (d : list (str * V)) : list str := map fst d.

(** [{**d, **e}] *)
Definition update (d e : list (str * V)) : list (str * V) :=
  fold_left (fun acc kv => set acc (fst kv) (snd kv)) e d.

(** A dictionary display or comprehension over the given bindings. *)
Definition of_items (items : list (str * V)) : list (str * V) :=
  update [] items.

End Ops.

End Dict.

(** ** difflib *)

Module Difflib.

Fixpoint common_prefix (a b : str) : nat :=
  match a, b with
  | x :: a', y :: b' => if Py.eqb_char x y then S (common_prefix a' b') else 0
  | _, _ => 0
  end.

(** The longest block of [b] that is a prefix of [a], as
    (start in [b], size); the earliest start among the longest. *)
Fixpoint best_in_b (a b : str) (j : nat) : nat * nat :=
  match b with
  | [] => (j, 0)
  | _ :: b' =>
      let k := common_prefix a b in
      let '(j', k') := best_in_b a b' (S j) in
      if k' <=? k then (j, k) else (j', k')
  end.

(** [SequenceMatcher.find_longest_match] without junk: (i, j, k) with
    [a[i:i+k] == b[j:j+k]], [k] maximal, then [i] minimal, then [j]
    minimal. *)
Fixpoint find_longest_match (a b : str) (i : nat) : nat * nat * nat :=
  match a with
  | [] => (i, 0, 0)
  | _ :: a' =>
      let '(j, k) := best_in_b a b 0 in
      let '(i', j', k') := find_longest_match a' b (S i) in
      if k' <=? k then (i, j, k) else (i', j', k')
  end.

(** The total size of the matching blocks: the longest block, then the
    blocks to its left and to its right. *)
Fixpoint matching (fuel : nat) (a b : str) : nat :=
  match fuel with
  | 0 => 0
  | S f =>
      let '(i, j, k) := find_longest_match a b 0 in
      if k =? 0 then 0
      else k + matching f (firstn i a) (firstn j b)
             + matching f (skipn (i + k) a) (skipn (j + k) b)
  end.

(** [SequenceMatcher(None, a, b).ratio()], for sequences too short for
    the automatic junk heuristic (fewer than 200 elements). *)
Definition ratio (a b : str) : Q :=
  let total := length a + length b in
  if total =? 0 then 1%Q
  else (Z.of_nat (2 * matching (S (length a)) a b) # Pos.of_nat total)%Q.

Definition score_gtb (p q : Q * str) : bool :=
  negb (Qle_bool (fst p) (fst q))
  || (Qeq_bool (fst p) (fst q) && Py.ltb (snd q) (snd p)).

(** Insertion into a list sorted from the largest down; equal elements
    keep their order of arrival. *)
Fixpoint insert_desc (p : Q * str) (l : list (Q * str)) : list (Q * str) :=
  match l with
  | [] => [p]
  | q :: l' => if score_gtb p q then p :: l else q :: insert_desc p l'
  end.

(** [heapq.nlargest(n, result)] *)
Definition nlargest (n : nat) (l : list (Q * str)) : list (Q * str) :=
  firstn n (fold_left (fun acc p => insert_desc p acc) l []).

(** [get_close_matches(word, possibilities, n, cutoff)] over a similarity
    [ratio x word].  The two cheaper ratios that difflib tests first are
    upper bounds of [ratio] and never reject what [ratio] accepts. *)
Definition get_close_matches (ratio : str -> str -> Q)
    (word : str) (possibilities : list str) (n : nat) (cutoff : Q)
  : result (list str) :=
  if negb (0 <? n) then Raise ValueError
  else if negb (Qle_bool 0 cutoff && Qle_bool cutoff 1) then Raise ValueError
  else
    let result :=
      flat_map (fun x => if Qle_bool cutoff (ratio x word)
                         then [(ratio x word, x)] else [])
               possibilities in
    Ok (map snd (nlargest n result)).

End Difflib.

(** ** models/spell_checker.py *)

Module SpellChecker.

Import Re.

Definition ABBREV : list (str * str) :=
  Dict.of_items (map (fun p : string * string => (str_of_string (fst p), str_of_string (snd p))) [
    ("im", "i am"); ("i'm", "i am"); ("m", "am"); ("u", "you"); ("ur", "your");
    ("urs", "yours"); ("r", "are"); ("y", "why"); ("yup", "yes"); ("n", "and");
    ("nd", "and"); ("d", "the"); ("bt", "but"); ("bcoz", "because");
    ("cuz", "because"); ("coz", "because"); ("cz", "because"); ("frm", "from");
    ("alot", "a lot"); ("hii", "hi"); ("hiii", "hi"); ("hlw", "hello");
    ("helo", "hello"); ("heyya", "hey"); ("heyy", "hey"); ("gm", "good morning");
    ("gn", "good night"); ("gudnyt", "good night"); ("gudmrng", "good morning");
    ("pls", "please"); ("plz", "please"); ("plzz", "please"); ("plsss", "please");
    ("sry", "sorry"); ("srz", "sorry"); ("thx", "thanks"); ("tnx", "thanks");
    ("tq", "thank you"); ("ty", "thank you"); ("tysm", "thank you so much");
    ("thnx", "thanks"); ("thnks", "thanks"); ("thanq", "thank you");
    ("nyc", "nice"); ("nycly", "nicely"); ("gud", "good"); ("gr8", "great");
    ("grt", "great"); ("asap", "as soon as possible"); ("bday", "birthday");
    ("hbd", "happy birthday"); ("gn8", "good night"); ("gmorning", "good morning");
    ("gdaftrn", "good afternoon"); ("tc", "take care"); ("gnite", "good night");
    ("nite", "night"); ("lol", "laughing out loud");
    ("rofl", "rolling on the floor laughing"); ("lmao", "laughing my ass off");
    ("omg", "oh my god"); ("wtf", "what the fuck"); ("wth", "what the hell");
    ("idk", "i do not know"); ("idc", "i do not care"); ("imo", "in my opinion");
    ("imho", "in my humble opinion"); ("brb", "be right back");
    ("bbl", "be back later"); ("ttyl", "talk to you later");
    ("tbh", "to be honest"); ("ikr", "i know right"); ("ofc", "of course");
    ("smh", "shaking my head"); ("np", "no problem"); ("nvm", "never mind");
    ("btw", "by the way"); ("bc", "because"); ("afaik", "as far as i know");
    ("omw", "on my way"); ("gg", "good game"); ("dw", "do not worry");
    ("hmu", "hit me up"); ("wyd", "what are you doing"); ("wru", "where are you");
    ("sup", "what is up"); ("wbu", "what about you"); ("hbu", "how about you");
    ("lmk", "let me know"); ("idts", "i do not think so"); ("ily", "i love you");
    ("ilu", "i love you"); ("ilysm", "i love you so much"); ("b4", "before");
    ("l8r", "later"); ("2day", "today"); ("2mrw", "tomorrow");
    ("2moro", "tomorrow"); ("4u", "for you"); ("4me", "for me");
    ("bff", "best friends forever"); ("bf", "boyfriend"); ("gf", "girlfriend");
    ("bffs", "best friends forever"); ("xoxo", "hugs and kisses"); ("ya", "yeah");
    ("yaar", "friend"); ("dude", "friend"); ("bro", "brother"); ("sis", "sister");
    ("bruh", "brother"); ("jk", "just kidding"); ("k", "okay"); ("kk", "okay");
    ("okie", "okay"); ("okies", "okay"); ("okk", "okay");
    ("yolo", "you only live once"); ("fyi", "for your information");
    ("faq", "frequently asked questions"); ("atm", "at the moment");
    ("cya", "see you"); ("g2g", "got to go"); ("gtg", "got to go");
    ("msg", "message"); ("txt", "text"); ("vid", "video"); ("pic", "picture");
    ("dp", "display picture"); ("bio", "biography"); ("status", "status message");
    ("prolly", "probably"); ("smth", "something"); ("tho", "though");
    ("thru", "through"); ("ppl", "people"); ("tmrw", "tomorrow");
    ("tmr", "tomorrow"); ("becoz", "because"); ("luv", "love"); ("muah", "kiss");
    ("xmas", "christmas"); ("ny", "new year"); ("acha", "okay"); ("accha", "okay");
    ("haan", "yes"); ("h", "yes"); ("nope", "no"); ("pakka", "sure");
    ("mast", "great"); ("faltu", "useless"); ("thik", "fine"); ("thik h", "fine");
    ("sahi", "right"); ("chill", "relax"); ("chod", "leave"); ("clg", "college");
    ("collg", "college"); ("colly", "college"); ("uni", "university");
    ("dept", "department"); ("addr", "address"); ("batt", "battery");
    ("jodhpurr", "jodhpur"); ("jodpur", "jodhpur"); ("mysru", "mysore");
    ("myrs", "mysore"); ("mysuru", "mysuru"); ("kranataka", "karnataka");
    ("kranatka", "karnataka"); ("krnatka", "karnataka"); ("krnataka", "karnataka");
    ("karnatka", "karnataka"); ("karanataka", "karnataka");
    ("karnatak", "karnataka"); ("rajsthan", "rajasthan");
    ("rajashtan", "rajasthan"); ("talkathon", "hackathon")
  ]).

Definition INDIAN_STATES : list str :=
  map str_of_string [
    "Andhra Pradesh"; "Arunachal Pradesh"; "Assam"; "Bihar"; "Chhattisgarh"; "Goa";
    "Gujarat"; "Haryana"; "Himachal Pradesh"; "Jharkhand"; "Karnataka"; "Kerala";
    "Madhya Pradesh"; "Maharashtra"; "Manipur"; "Meghalaya"; "Mizoram"; "Nagaland";
    "Odisha"; "Punjab"; "Rajasthan"; "Sikkim"; "Tamil Nadu"; "Telangana"; "Tripura";
    "Uttar Pradesh"; "Uttarakhand"; "West Bengal"; "Delhi"; "Jammu and Kashmir";
    "Ladakh"; "Puducherry"; "Chandigarh"; "Andaman and Nicobar Islands";
    "Lakshadweep"
  ].

Definition POPULAR_CITIES : list str :=
  map str_of_string [
    "Mumbai"; "Delhi"; "Bengaluru"; "Bangalore"; "Kolkata"; "Chennai"; "Hyderabad";
    "Pune"; "Ahmedabad"; "Jaipur"; "Kochi"; "Indore"; "Bhopal"; "Lucknow"; "Kanpur";
    "Nagpur"; "Surat"; "Vadodara"; "Visakhapatnam"; "Patna"; "Varanasi"; "Udaipur";
    "Jodhpur"; "Kota"; "Mysuru"; "Mysore"; "Mangalore"; "Noida"; "Gurugram";
    "Gurgaon"; "Thane"; "Nashik"
  ].

Definition COMMON_FIRST_NAMES : list str :=
  map str_of_string [
    "Rahul"; "Rohit"; "Amit"; "Aman"; "Ankit"; "Mahipal"; "Ayesha"; "Priya"; "Neha";
    "Vikas"; "Vikram"; "Karan"; "Arjun"; "Raj"; "Riya"; "Rakesh"; "Aditi"; "Mohit";
    "Sanjay"; "Suresh"; "Anurag"; "Deepak"; "Pooja"; "Manish"; "Shreya"; "Siddharth"
  ].

Definition lexicon_of (names : list str) : list (str * str) :=
  Dict.of_items (map (fun s => (Py.lower s, s)) names).

Definition LEX_STATE : list (str * str) := Eval vm_compute in lexicon_of INDIAN_STATES.
Definition LEX_CITY : list (str * str) := Eval vm_compute in lexicon_of POPULAR_CITIES.
Definition LEX_NAME : list (str * str) := Eval vm_compute in lexicon_of COMMON_FIRST_NAMES.
Definition ALL_LEX : list (str * str) :=
  Eval vm_compute in Dict.update (Dict.update (Dict.update [] LEX_STATE) LEX_CITY) LEX_NAME.

Inductive tag : Set := state | city | person.

Definition tag_of (key : str) : tag :=
  if Dict.mem LEX_STATE key then state
  else if Dict.mem LEX_CITY key then city
  else person.

Definition is_person (t : tag) : bool :=
  match t with person => true | _ => false end.

(** [max(0.96, cutoff)] *)
Definition person_cutoff (cutoff : Q) : Q :=
  if negb (Qle_bool cutoff (96 # 100)) then cutoff else 96 # 100.

(** [[A-Za-z]], [[A-Za-z0-9]] and [[A-Za-z\-']] *)
Definition letter (c : ascii) : bool := Py.is_AZ c || Py.is_az c.
Definition letter_digit (c : ascii) : bool := letter c || Py.is_09 c.
Definition letter_hyphen_quote (c : ascii) : bool := letter c || one_of "-'" c.

(** [[A-Za-z][A-Za-z\-']*|\d+|[^\w\s]] *)
Definition token_re (fl : flags) : regex :=
  Alt (Seq (Chr letter) (Star (Chr letter_hyphen_quote)))
      (Alt (Plus (Chr (cls_d fl)))
           (Chr (fun c => negb (cls_w fl c || cls_s fl c)))).

Definition _retok (text : str) : list str :=
  findall (token_re [UNICODE]) text.

(** [\s+([,.;:!?])] *)
Definition space_punct_re (fl : flags) : regex :=
  Seq (Plus (Chr (cls_s fl))) (Grp 1 (Chr (one_of ",.;:!?"))).

Definition last_binds_word (out : str) : bool :=
  match Py.last_char out with
  | Some c => Py.isalnum_char c || one_of (")]'" ++ [Py.dquote]) c
  | None => false
  end.

Definition join_step (out t : str) : str :=
  if is_match (Chr letter_digit) t then
    if Py.truthy out && last_binds_word out then out ++ " " ++ t
    else if negb (Py.truthy out) then out ++ t else out ++ " " ++ t
  else out ++ t.

Definition _smart_join (tokens : list str) : str :=
  let out := fold_left join_step tokens [] in
  Py.strip (sub (space_punct_re []) [Ref 1] out).

Definition is_word (t : str) : bool := is_match (Chr letter) t.

(** The pattern of the first post-edit: a word boundary, group 1
    [(I|i)], [\s+am\s+], group 2 made of a capitalized word [[A-Z][a-z]+]
    and any number of further ones, each after one [\s], and a word
    boundary. *)
Definition capitalized_re : regex := Seq (Chr Py.is_AZ) (Plus (Chr Py.is_az)).

Definition i_am_place_re (fl : flags) : regex :=
  Seq (WordB fl)
 (Seq (Grp 1 (Alt (Lit fl "I") (Lit fl "i")))
 (Seq (Plus (Chr (cls_s fl)))
 (Seq (Lit fl "am")
 (Seq (Plus (Chr (cls_s fl)))
 (Seq (Grp 2 (Seq capitalized_re
                  (Star (Seq (Chr (cls_s fl)) capitalized_re))))
      (WordB fl)))))).

(** [\s+,] and [,([A-Za-z])] *)
Definition space_comma_re (fl : flags) : regex :=
  Seq (Plus (Chr (cls_s fl))) (Lit fl ",").

Definition comma_letter_re (fl : flags) : regex :=
  Seq (Lit fl ",") (Grp 1 (Chr letter)).

(** [\bhome lot\b] *)
Definition home_lot_re (fl : flags) : regex :=
  Seq (WordB fl) (Seq (Lit fl "home lot") (WordB fl)).

Definition _light_post_edits (text : str) : str :=
  let text := sub (i_am_place_re []) [Ref 1; Text " am from "; Ref 2] text in
  let text := sub (space_comma_re []) [Text ","] text in
  let text := sub (comma_letter_re []) [Text ", "; Ref 1] text in
  let text := sub (home_lot_re [IGNORECASE]) [Text "home a lot"] text in
  text.

Record stats : Type := Stats {
  lexicon_hits : nat;
  alpha_tokens : nat;
  locked_positions : gmap Z str
}.

(** The variables of the loop of [correct_spelling_with_stats]. *)
Record loop_state : Type := Loop {
  fixed : list str;
  locked_map : gmap Z str;
  hits : nat;
  seen_alpha : nat
}.

Fixpoint for_each {S A : Type} (body : S -> A -> result S) (l : list A) (st : S)
  : result S :=
  match l with
  | [] => Ok st
  | x :: l' => st' ← body st x; for_each body l' st'
  end.

(** [enumerate(toks)] *)
Definition enumerate {A : Type} (l : list A) : list (nat * A) :=
  combine (seq 0 (length l)) l.

Section Collaborators.

(** The similarity of difflib; the dictionary of [SpellChecker()]:
    [word in self.spell] and [self.spell.correction(word)]. *)
Variable ratio : str -> str -> Q.
Variable known : str -> bool.
Variable correction : str -> option str.

Definition _closest_proper (token : str) (cutoff : Q)
  : result (option (str * tag)) :=
  let low := Py.lower token in
  match Dict.get ALL_LEX low with
  | Some canon => Ok (Some (canon, tag_of low))
  | None =>
      found ← Difflib.get_close_matches ratio low (Dict.keys ALL_LEX) 1 cutoff;
      match found with
      | m :: _ =>
          let tg := tag_of m in
          strict ← (if is_person tg
                    then Difflib.get_close_matches ratio low [m] 1 (person_cutoff cutoff)
                    else Ok [m]);
          match strict with
          | [] => Ok None
          | _ :: _ =>
              match Dict.get ALL_LEX m with
              | Some canon => Ok (Some (canon, tg))
              | None => Raise KeyError
              end
          end
      | [] => Ok None
      end
  end.

Definition normalize_tokens (text : str) : str :=
  let toks := _retok (Py.lower text) in
  let out :=
    map (fun t => if is_word t
                  then match Dict.get ABBREV t with Some e => e | None => t end
                  else t) toks in
  _smart_join out.

(** The fallback to the dictionary for one word token. *)
Definition dictionary_fallback (t : str) : str :=
  let low := Py.lower t in
  if negb (known low) && Py.isalpha t then
    match correction low with
    | Some cand =>
        if Py.truthy cand && Py.isupper (Py.first1 t) then Py.capitalize cand
        else if Py.truthy cand then cand else t
    | None => t
    end
  else t.

Definition loop_body (use_lexicon : bool) (lexicon_cutoff : Q)
    (st : loop_state) (it : nat * str) : result loop_state :=
  let '(idx, t) := it in
  if negb (is_word t) then
    Ok (Loop (fixed st ++ [t]) (locked_map st) (hits st) (seen_alpha st))
  else
    let alpha := seen_alpha st + 1 in
    m ← (if use_lexicon then _closest_proper t lexicon_cutoff else Ok None);
    match m with
    | Some (canon, _) =>
        Ok (Loop (fixed st ++ [canon])
                 (<[Z.of_nat idx := canon]> (locked_map st))
                 (hits st + 1) alpha)
    | None =>
        Ok (Loop (fixed st ++ [dictionary_fallback t])
                 (locked_map st) (hits st) alpha)
    end.

Definition correct_spelling_with_stats
    (text : str) (use_lexicon : bool) (lexicon_cutoff : Q)
  : result (str * stats) :=
  let norm := normalize_tokens text in
  let toks := _retok norm in
  st ← for_each (loop_body use_lexicon lexicon_cutoff) (enumerate toks)
                (Loop [] ∅ 0 0);
  let out := _smart_join (fixed st) in
  let out := _light_post_edits out in
  Ok (out, Stats (hits st) (seen_alpha st) (locked_map st)).

Definition correct_spelling
    (text : str) (use_lexicon : bool) (lexicon_cutoff : Q) : result str :=
  r ← correct_spelling_with_stats text use_lexicon lexicon_cutoff;
  Ok (fst r).

End Collaborators.

End SpellChecker.

(** ** models/grammar_corrector.py *)

Module GrammarCorrector.

Import Re.

(** [[A-Za-z]], [[A-Za-z0-9]] and [[A-Za-z\-']] *)
Definition letter (c : ascii) : bool := Py.is_AZ c || Py.is_az c.
Definition letter_digit (c : ascii) : bool := letter c || Py.is_09 c.
Definition letter_hyphen_quote (c : ascii) : bool := letter c || one_of "-'" c.

(** [[A-Za-z][A-Za-z\-']*|\d+|[^\w\s]] *)
Definition token_re (fl : flags) : regex :=
  Alt (Seq (Chr letter) (Star (Chr letter_hyphen_quote)))
      (Alt (Plus (Chr (cls_d fl)))
           (Chr (fun c => negb (cls_w fl c || cls_s fl c)))).

(** [\s+([,.;:!?])] *)
Definition space_punct_re (fl : flags) : regex :=
  Seq (Plus (Chr (cls_s fl))) (Grp 1 (Chr (one_of ",.;:!?"))).

Definition _simple_tokens (t : str) : list str :=
  findall (token_re []) t.

Definition last_isalnum (out : str) : bool :=
  match Py.last_char out with
  | Some c => Py.isalnum_char c
  | None => false
  end.

Definition join_step (out tok : str) : str :=
  if is_match (Chr letter_digit) tok then
    if Py.truthy out && last_isalnum out then out ++ " " ++ tok
    else if negb (Py.truthy out) then out ++ tok else out ++ " " ++ tok
  else out ++ tok.

Definition _smart_join (tokens : list str) : str :=
  let out := fold_left join_step tokens [] in
  Py.strip (sub (space_punct_re []) [Ref 1] out).

Definition is_word (tok : str) : bool := is_match (Chr letter) tok.

(** The state of the two-pointer loop of [enforce_locked_proper_nouns]. *)
Record walk_state : Type := Walk {
  wi : nat;
  wj : nat;
  wout : list str
}.

Definition walk_step (src_tok tgt_tok : list str) (locked_positions : gmap Z str)
    (st : walk_state) : walk_state :=
  let i := wi st in
  let j := wj st in
  let s_is_word := is_word (nth i src_tok []) in
  let t_is_word := is_word (nth j tgt_tok []) in
  if s_is_word && bool_decide (is_Some (locked_positions !! Z.of_nat i)) && t_is_word
  then
    let canon := default [] (locked_positions !! Z.of_nat i) in
    Walk (S i) (S j) (wout st ++ [canon])
  else Walk (S i) (S j) (wout st ++ [nth j tgt_tok []]).

(** [while i < len(src_tok) and j < len(tgt_tok)] *)
Fixpoint walk (fuel : nat) (src_tok tgt_tok : list str)
    (locked_positions : gmap Z str) (st : walk_state) : walk_state :=
  match fuel with
  | 0 => st
  | S f =>
      if (wi st <? length src_tok) && (wj st <? length tgt_tok)
      then walk f src_tok tgt_tok locked_positions
             (walk_step src_tok tgt_tok locked_positions st)
      else st
  end.

Definition dedup_step (dedup : list str) (tok : str) : list str :=
  match last dedup with
  | Some prev =>
      if is_word tok && is_word prev && Py.eqb (Py.lower tok) (Py.lower prev)
      then dedup
      else dedup ++ [tok]
  | None => dedup ++ [tok]
  end.

Definition dedup_adjacent (tokens : list str) : list str :=
  fold_left dedup_step tokens [].

Definition enforce_locked_proper_nouns
    (original_after_spell corrected : str) (locked_positions : gmap Z str) : str :=
  if Nat.eqb (size locked_positions) 0 then corrected
  else
    let src_tok := _simple_tokens original_after_spell in
    let tgt_tok := _simple_tokens corrected in
    let st := walk (length tgt_tok) src_tok tgt_tok locked_positions (Walk 0 0 []) in
    let out := wout st ++ skipn (wj st) tgt_tok in
    let text := _smart_join out in
    let tokens := _simple_tokens text in
    _smart_join (dedup_adjacent tokens).

End GrammarCorrector.

(** ** utils/academic_rules.py *)

Module AcademicRules.

Import Re.






End AcademicRules.

(** ** The guardrail: specification-level definitions *)

Module GuardSpec.

Import GrammarCorrector.

(** The synchronized walk as the specification words it: at source index
    [i], a locked source word facing a target word is overwritten by the
    canonical string, any other target token is kept, and once either
    sequence is exhausted the rest of the target follows verbatim. *)
Fixpoint lockstep (i : nat) (src tgt : list str) (lock_map : gmap Z str)
  : list str :=
  match src, tgt with
  | s :: src', t :: tgt' =>
      (match lock_map !! Z.of_nat i with
       | Some canon => if is_word s && is_word t then canon else t
       | None => t
       end) :: lockstep (S i) src' tgt' lock_map
  | _, _ => tgt
  end.

(** Two word tokens that are equal up to case. *)
Definition same_word (a b : str) : bool :=
  is_word a && is_word b && Py.eqb (Py.lower a) (Py.lower b).

(** Some token is a word equal up to case to the word just before it. *)
Fixpoint adjacent_dup (tokens : list str) : bool :=
  match tokens with
  | a :: (b :: _) as tl => same_word b a || adjacent_dup tl
  | _ => false
  end.

End GuardSpec.

(** ** The academic-context rule: specification-level definitions *)

Module StudySpec.

Import Re AcademicRules.


End StudySpec.

(** ** The tokenizer and the joiner: specification-level definitions *)

Module TokenSpec.

Import Re SpellChecker.

(** The longest prefix of characters of a class, and what follows it. *)
Fixpoint take_run (p : ascii -> bool) (s : str) : str :=
  match s with
  | c :: r => if p c then c :: take_run p r else []
  | [] => []
  end.

Fixpoint drop_run (p : ascii -> bool) (s : str) : str :=
  match s with
  | c :: r => if p c then drop_run p r else s
  | [] => []
  end.

(** What the tokenizer does with a character at which it looks for a
    token: a letter opens a word, a digit a number, any other character
    that is neither a word character nor white space is a token of its
    own, and the rest (white space, underscore, letters and numerals
    beyond ASCII) is passed over. *)
Inductive kind : Set := KWord | KNumber | KPunct | KSkip.

Definition punct (c : ascii) : bool := negb (cls_w [] c || cls_s [] c).

Definition kind_of (c : ascii) : kind :=
  if letter c then KWord
  else if Py.is_09 c then KNumber
  else if punct c then KPunct
  else KSkip.

(** The token at the head of a text and the text after it. *)
Definition first_token (s : str) : option (str * str) :=
  match s with
  | [] => None
  | c :: r =>
      match kind_of c with
      | KWord => Some (c :: take_run letter_hyphen_quote r, drop_run letter_hyphen_quote r)
      | KNumber => Some (c :: take_run Py.is_09 r, drop_run Py.is_09 r)
      | KPunct => Some ([c], r)
      | KSkip => None
      end
  end.

Definition starts_alnum (t : str) : bool :=
  match t with c :: _ => letter_digit c | [] => false end.

(** The text the joiner builds after an output that is non-empty or not
    ([b]): a token that starts with a letter or a digit is set off by one
    space unless it opens the output. *)
Fixpoint glue (b : bool) (tokens : list str) : str :=
  match tokens with
  | [] => []
  | t :: ts =>
      (if starts_alnum t && b then [" "%char] else [])
      ++ t ++ glue (b || Py.truthy t) ts
  end.

(** The joined form of a text: its tokens, glued. *)
Definition joined (b : bool) (s : str) : str := glue b (_retok s).

(** Every white-space character is directly followed by a letter or a
    digit. *)
Fixpoint tidy (s : str) : bool :=
  match s with
  | [] => true
  | c :: r => (negb (cls_s [] c) || starts_alnum r) && tidy r
  end.

(** The matches among the pieces of a scan. *)
Definition found (ps : list piece) : list str :=
  flat_map (fun p => match p with Plain _ => [] | Found w _ => [w] end) ps.

Definition nonspace (c : ascii) : bool := negb (cls_s [] c).

End TokenSpec.

(** ** A small dictionary for the worked inputs *)

Module Examples.

(** A dictionary that knows three words and corrects one misspelling. *)
Definition small_known (w : str) : bool :=
  existsb (Py.eqb w) (map str_of_string ["i"; "am"; "receive"]).

Definition small_correction (w : str) : option str :=
  if Py.eqb w "recieve" then Some (str_of_string "receive") else None.

(** A dictionary that knows nothing and always suggests "well-known". *)
Definition no_known (w : str) : bool := false.

Definition fixed_correction (w : str) : option str :=
  Some (str_of_string "well-known").

End Examples.

(** ** More of Python's [str] *)

Module PyStr.

(** [s.lstrip(chars)], [s.rstrip(chars)] and [s.strip(chars)] *)
Fixpoint lstrip_chars (chars s : str) : str :=
  match s with
  | c :: r => if Re.one_of chars c then lstrip_chars chars r else s
  | [] => []
  end.

Definition rstrip_chars (chars s : str) : str :=
  rev (lstrip_chars chars (rev s)).

Definition strip_chars (chars s : str) : str :=
  rstrip_chars chars (lstrip_chars chars s).

(** [s.split()]: the maximal runs of characters that are not white space.
    [cur] is the run being read, reversed. *)
Fixpoint split_from (cur : str) (s : str) : list str :=
  match s with
  | [] => match cur with [] => [] | _ => [rev cur] end
  | c :: r =>
      if Py.isspace_char c
      then match cur with
           | [] => split_from [] r
           | _ => rev cur :: split_from [] r
           end
      else split_from (c :: cur) r
  end.

Definition split (s : str) : list str := split_from [] s.

(** [sep.join(parts)] *)
Fixpoint join (sep : str) (parts : list str) : str :=
  match parts with
  | [] => []
  | [p] => p
  | p :: rest => p ++ sep ++ join sep rest
  end.

End PyStr.

(** ** models/grammar_corrector.py: loading and generation *)

Module GrammarGeneration.

Definition PUBLIC_MODELS : list str :=
  map str_of_string [
    "vennify/t5-base-grammar-correction";
    "prithivida/grammar_error_correcter_v1";
    "oliverguhr/grammar-correction"
  ].

(** The [RuntimeError] of the loader; its message lists the candidates
    that were tried. *)
Inductive load_error : Type := RuntimeError (tried : list str).

(** [IndexError]: no generated sequence to take. *)
Inductive index_error : Set := IndexError.

(** The keyword arguments of [_generate]. *)
Record gen_args : Type := GenArgs {
  num_beams : Z;
  max_new_tokens : Z;
  topk : Z;
  do_sample : bool;
  temperature : Q;
  top_p : Q
}.

Section Transformers.

(** The tokenizers and models of the transformers library:
    [AutoTokenizer.from_pretrained] and
    [AutoModelForSeq2SeqLM.from_pretrained] return an object or raise
    ([None]); [_generate] runs the loaded model on a prompt and decodes
    the sequences it returns. *)
Variable Tok Mod : Type.
Variable load_tokenizer : str -> option Tok.
Variable load_model : str -> option Mod.
Variable _generate : str -> gen_args -> list str.

(** The attributes of a [GrammarCorrector]. *)
Record corrector : Type := Corrector {
  model_name : option str;
  tokenizer : option Tok;
  model : option Mod
}.

(** The loop of [_load_first_available]: the object as the loop leaves
    it, and whether the loop returned. *)
Fixpoint try_candidates (candidates : list str) (self : corrector)
  : corrector * bool :=
  match candidates with
  | [] => (self, false)
  | name :: rest =>
      if negb (Py.truthy name) then try_candidates rest self
      else
        match load_tokenizer name with
        | None => try_candidates rest self
        | Some tk =>
            let self := Corrector (model_name self) (Some tk) (model self) in
            match load_model name with
            | None => try_candidates rest self
            | Some m => (Corrector (Some name) (Some tk) (Some m), true)
            end
        end
  end.

Definition candidates_of (self : corrector) : list str :=
  match model_name self with
  | Some name => if Py.truthy name then [name] else PUBLIC_MODELS
  | None => PUBLIC_MODELS
  end.

Definition _load_first_available (self : corrector) : corrector + load_error :=
  let candidates := candidates_of self in
  match try_candidates candidates self with
  | (self', true) => inl self'
  | (_, false) => inr (RuntimeError (filter Py.truthy candidates))
  end.

(** [GrammarCorrector(model_name)] *)
Definition init (name : option str) : corrector + load_error :=
  _load_first_available (Corrector name None None).

Definition _build_prompt (text : str) : str :=
  "grammar: correct grammar and spelling, keep names and places unchanged: "
  ++ text.

(** [xs[0]] *)
Definition first_of (xs : list str) : str + index_error :=
  match xs with
  | x :: _ => inl x
  | [] => inr IndexError
  end.

Definition correct (text : str) : str + index_error :=
  let prompt := _build_prompt text in
  first_of (_generate prompt (GenArgs 6 128 1 false (9 # 10) (92 # 100))).

Definition correct_with_params (text : str) (num_beams max_new_tokens : Z)
  : str + index_error :=
  let prompt := _build_prompt text in
  first_of (_generate prompt
              (GenArgs num_beams max_new_tokens 1 false (9 # 10) (92 # 100))).

(** [xs[:k]] for an integer [k] of either sign. *)
Definition slice_to {A : Type} (k : Z) (xs : list A) : list A :=
  if (0 <=? k)%Z then firstn (Z.to_nat k) xs
  else firstn (length xs - Z.to_nat (- k)) xs.

(** The loop of [correct_topk]: the set [seen] and the list [outs]. *)
Definition topk_step (st : gset str * list str) (cand : str)
  : gset str * list str :=
  if bool_decide (cand ∈ fst st) then st
  else ({[ cand ]} ∪ fst st, snd st ++ [cand]).

Definition correct_topk (text : str) (k num_beams max_new_tokens : Z) : list str :=
  let prompt := _build_prompt text in
  let raw :=
    _generate prompt (GenArgs num_beams max_new_tokens k true (95 # 100) (9 # 10)) in
  let '(seen, outs) := fold_left topk_step raw (∅, []) in
  slice_to k outs.

End Transformers.

End GrammarGeneration.

(** ** app.py *)

Module App.

Import Re.

Definition beams_for (mode : str) : Z :=
  if Py.startswith mode "Faster" then 1%Z
  else if Py.startswith mode "Higher" then 8%Z
  else 6%Z.

(** [[A-Za-z]], [[A-Za-z0-9]] and [[A-Za-z\-']] *)
Definition letter (c : ascii) : bool := Py.is_AZ c || Py.is_az c.
Definition letter_digit (c : ascii) : bool := letter c || Py.is_09 c.
Definition letter_hyphen_quote (c : ascii) : bool := letter c || one_of "-'" c.

(** [[A-Za-z][A-Za-z\-']*|\d+|[^\w\s]] *)
Definition token_re (fl : flags) : regex :=
  Alt (Seq (Chr letter) (Star (Chr letter_hyphen_quote)))
      (Alt (Plus (Chr (cls_d fl)))
           (Chr (fun c => negb (cls_w fl c || cls_s fl c)))).

(** [\s+([,.;:!?])] and [,([A-Za-z])] *)
Definition space_punct_re (fl : flags) : regex :=
  Seq (Plus (Chr (cls_s fl))) (Grp 1 (Chr (one_of ",.;:!?"))).

Definition comma_letter_re (fl : flags) : regex :=
  Seq (Lit fl ",") (Grp 1 (Chr letter)).

Definition dedup_step (out : list str) (tok : str) : list str :=
  match last out with
  | Some prev =>
      if Py.isalpha tok && Py.isalpha prev && Py.eqb (Py.lower tok) (Py.lower prev)
      then out
      else out ++ [tok]
  | None => out ++ [tok]
  end.

Definition last_isalnum (s : str) : bool :=
  match Py.last_char s with
  | Some c => Py.isalnum_char c
  | None => false
  end.

Definition join_step (s tok : str) : str :=
  if is_match (Chr letter_digit) tok
  then s ++ (if Py.truthy s && last_isalnum s then str_of_string " " else []) ++ tok
  else s ++ tok.

Definition _dedup_adjacent_words_simple (t : str) : str :=
  let tokens := findall (token_re []) t in
  let out := fold_left dedup_step tokens [] in
  let s := fold_left join_step out [] in
  Py.strip (sub (space_punct_re []) [Ref 1] s).

Definition _final_touchups (t : str) : str :=
  sub (comma_letter_re []) [Text ", "; Ref 1] t.

End App.

(** ** utils/lexicon_loader.py *)

Module LexiconLoader.

Inductive index_error : Set := IndexError.

(** The cells come from [csv.reader] and are strings. *)
Definition _clean_cell (s : str) : str :=
  let s := PyStr.strip_chars "'" (PyStr.strip_chars [Py.dquote] (Py.strip s)) in
  PyStr.join " " (PyStr.split s).

Definition kept_cells (row : list str) : list str :=
  filter (fun c => Py.truthy (_clean_cell c)) row.

Definition read_step (rows : list (list str)) (row : list str) : list (list str) :=
  match row with
  | [] => rows
  | _ =>
      let first_nonempty := match kept_cells row with c :: _ => c | [] => [] end in
      if Py.startswith first_nonempty "#" then rows
      else
        let cells := map _clean_cell (kept_cells row) in
        match cells with
        | [] => rows
        | _ => rows ++ [cells]
        end
  end.

(** What opening, decoding and parsing the file can raise: [OSError]
    from [path.open], [UnicodeDecodeError] from the decoder and
    [csv.Error] from the reader. *)
Inductive read_error : Set := OSError | UnicodeDecodeError | CsvError.

(** The file behind the path: missing, or opened, with the rows that
    [csv.reader] yields before it comes to the end of the file or
    raises. *)
Inductive csv_file : Type :=
| Missing
| Opened (yielded : list (list str)) (failure : option read_error).

Definition failure_of (file : csv_file) : option read_error :=
  match file with
  | Missing => None
  | Opened _ failure => failure
  end.

(** [_read_rows(path)]: an exception raised while the rows are read
    leaves the function, and the rows read so far are lost. *)
Definition _read_rows (file : csv_file) : list (list str) + read_error :=
  match file with
  | Missing => inl []
  | Opened rdr failure =>
      let rows := fold_left read_step rdr [] in
      match failure with
      | Some e => inr e
      | None => inl rows
      end
  end.

Definition likely_headers : gset str :=
  list_to_set (map str_of_string
    ["state"; "city"; "name"; "canonical"; "alias"; "aliases"]).

Definition _detect_header_and_mode (rows : list (list str))
  : (bool * str * list str) + index_error :=
  match rows with
  | [] => inl (false, [], [])
  | first :: _ =>
      match first with
      | [] => inr IndexError
      | cell :: _ =>
          let first_cell := Py.lower cell in
          let has_header := bool_decide (first_cell ∈ likely_headers) in
          inl (has_header, cell, first)
      end
  end.

Definition alias_step (canon : str) (mapping : list (str * str)) (alias : str)
  : list (str * str) :=
  let alias := _clean_cell alias in
  if negb (Py.truthy alias) then mapping
  else if Py.eqb (Py.lower alias) (Py.lower canon) then mapping
  else Dict.set mapping (Py.lower alias) canon.

Definition row_step (single_col_ok : bool) (mapping : list (str * str))
    (r : list str) : list (str * str) :=
  match r with
  | [] => mapping
  | cell :: aliases =>
      let canon := _clean_cell cell in
      if negb (Py.truthy canon) then mapping
      else
        let mapping := Dict.set mapping (Py.lower canon) canon in
        if 1 <? length r
        then fold_left (alias_step canon) aliases mapping
        else if negb single_col_ok then mapping else mapping
  end.

Definition _rows_to_mapping (rows : list (list str)) (single_col_ok : bool)
  : list (str * str) + index_error :=
  match rows with
  | [] => inl []
  | _ =>
      match _detect_header_and_mode rows with
      | inr e => inr e
      | inl (has_header, _, _) =>
          let rows := if has_header then skipn 1 rows else rows in
          inl (fold_left (row_step single_col_ok) rows [])
      end
  end.

(** What [_load_generic] can raise. *)
Inductive load_exception : Set :=
| Index (e : index_error)
| Read (e : read_error).

Definition _load_generic (file : csv_file) : list (str * str) + load_exception :=
  match _read_rows file with
  | inr e => inr (Read e)
  | inl rows =>
      match _rows_to_mapping rows true with
      | inl mapping => inl mapping
      | inr e => inr (Index e)
      end
  end.

(** The loop of [sample_preview] over [enumerate(mapping.items())]. *)
Fixpoint preview_loop (items : list (nat * (str * str))) (n : Z)
    (out : list (str * str)) : list (str * str) :=
  match items with
  | [] => out
  | (i, kv) :: rest =>
      if (n <=? Z.of_nat i)%Z then out
      else preview_loop rest n (out ++ [kv])
  end.

Definition sample_preview (mapping : list (str * str)) (n : Z) : list (str * str) :=
  preview_loop (SpellChecker.enumerate mapping) n [].

End LexiconLoader.

(** ** The normalizer: specification-level definitions *)

Module NormalizerSpec.

Import SpellChecker.

(** The loop of the normalizer after the tokens [toks]: one output token
    per input token, the counters in step with the lock map, every lock on
    a word token that the lexicon matched, every other token untouched. *)
Definition loop_invariant (ratio : str -> str -> Q) (cutoff : Q)
    (toks : list str) (st : loop_state) : Prop :=
  length (fixed st) = length toks
  /\ seen_alpha st = length (List.filter is_word toks)
  /\ hits st = size (locked_map st)
  /\ hits st <= seen_alpha st
  /\ (forall k canon,
         locked_map st !! k = Some canon ->
         exists i t tg,
           k = Z.of_nat i /\ toks !! i = Some t /\ is_word t = true
           /\ fixed st !! i = Some canon
           /\ _closest_proper ratio t cutoff = Ok (Some (canon, tg)))
  /\ (forall i t,
         toks !! i = Some t -> is_word t = false -> fixed st !! i = Some t).

Definition valid_cutoff (cutoff : Q) : bool :=
  Qle_bool 0 cutoff && Qle_bool cutoff 1.

End NormalizerSpec.

(** ** The shapes of the tokens *)

Module TokenShape.

Import Re SpellChecker TokenSpec.

(** A word, a number or a single punctuation mark. *)
Definition token_shape (t : str) : bool :=
  match t with
  | [] => false
  | c :: r =>
      (letter c && forallb letter_hyphen_quote r)
      || forallb Py.is_09 t
      || (punct c && match r with [] => true | _ => false end)
  end.

Definition starts_letter (t : str) : bool :=
  match t with c :: _ => letter c | [] => false end.

(** The token made of one hyphen or of one apostrophe. *)
Definition hyphen_or_quote (t : str) : bool :=
  match t with
  | [c] => letter_hyphen_quote c && negb (letter c)
  | _ => false
  end.

(** Token lists that the tokenizer reads back from their join: every
    token is a word of ASCII letters, hyphens and apostrophes, a number
    written with the ASCII digits 0 to 9 or a single mark, and no word is
    directly followed by a hyphen or an apostrophe standing alone. *)
Fixpoint separable (tokens : list str) : bool :=
  match tokens with
  | [] => true
  | t :: rest =>
      token_shape t
      && negb (starts_letter t
               && match rest with u :: _ => hyphen_or_quote u | [] => false end)
      && separable rest
  end.

End TokenShape.

(** ** app.py: specification-level definitions *)

Module AppSpec.

Import Re TokenSpec.

(** No comma stands directly before an ASCII letter. *)
Fixpoint comma_spaced (s : str) : bool :=
  match s with
  | [] => true
  | c :: r =>
      negb (Py.eqb_char c ","
            && match r with x :: _ => App.letter x | [] => false end)
      && comma_spaced r
  end.

Definition isalnum_opt (o : option ascii) : bool :=
  match o with Some c => Py.isalnum_char c | None => false end.

(** Every white-space character stands between an alphanumeric character
    ([prev] before the text) and a letter or a digit. *)
Fixpoint spaced_in_words (prev : option ascii) (s : str) : bool :=
  match s with
  | [] => true
  | c :: r =>
      (negb (cls_s [] c) || (isalnum_opt prev && starts_alnum r))
      && spaced_in_words (Some c) r
  end.

(** The last character of [s], or [prev] when [s] is empty. *)
Definition last_or (prev : option ascii) (s : str) : option ascii :=
  match last s with Some c => Some c | None => prev end.

End AppSpec.

(** ** The lexicon loader: specification-level definitions *)

Module LoaderSpec.

Import LexiconLoader.

(** A word of [split]: not empty, no white space. *)
Definition is_part (p : str) : bool :=
  Py.truthy p && forallb (fun c => negb (Py.isspace_char c)) p.

(** Every binding has a lower-case key and the cleaned first cell of a
    row as its value. *)
Definition from_rows (rows : list (list str)) (m : list (str * str)) : Prop :=
  forall k v,
    Dict.get m k = Some v ->
    Py.lower k = k
    /\ exists cell rest, In (cell :: rest) rows /\ v = _clean_cell cell.

(** A file with a header and one row with an alias. *)
Definition two_rows : list (list str) :=
  [map str_of_string ["State"];
   map str_of_string ["Tamil  Nadu"; "TN"]].

End LoaderSpec.

(** ** Loading and generation: specification-level definitions *)

Module GenerationSpec.

Import GrammarGeneration.

(** A candidate name that cannot be used: it is empty, or its tokenizer
    or its model fails to load. *)
Definition unavailable {Tok Mod : Type}
    (load_tokenizer : str -> option Tok) (load_model : str -> option Mod)
    (name : str) : Prop :=
  Py.truthy name = false \/ load_tokenizer name = None \/ load_model name = None.

(** The loop of [correct_topk] on the sequences [raw]: [seen] holds the
    members of [outs], which are pairwise different members of [raw]. *)
Definition topk_invariant (raw : list str) (st : gset str * list str) : Prop :=
  (forall x, x ∈ fst st <-> In x (snd st))
  /\ NoDup (snd st)
  /\ (forall x, In x (snd st) -> In x raw).

(** A hub on which only the second public model can be loaded, a hub
    without any model, and a generator that repeats itself. *)
Definition second_only (name : str) : option unit :=
  if Py.eqb name "prithivida/grammar_error_correcter_v1" then Some tt else None.

Definition nothing (name : str) : option unit := None.

Definition repeating (prompt : str) (args : gen_args) : list str :=
  map str_of_string ["He goes home."; "He goes home."; "He went home."].

End GenerationSpec.

(** ** The categories of the lexicon: specification-level definitions *)

Module MatcherSpec.

Import SpellChecker.

(** [key] is the lower-case form of one of the [names]. *)
Definition named (names : list str) (key : str) : bool :=
  existsb (fun n => Py.eqb (Py.lower n) key) names.

End MatcherSpec.

(** ** Joinable strings and the removal of duplicates *)

Module JoinSpec.

Import Re SpellChecker TokenSpec GuardSpec.

(** A character of a token, or white space: nothing that the tokenizer
    passes over but white space. *)
Definition plain_char (c : ascii) : bool :=
  letter c || Py.is_09 c || punct c || cls_s [] c.

Definition starts_space (x : str) : bool :=
  match x with c :: _ => cls_s [] c | [] => false end.

(** A string that the joiner can take for a token: made of characters of
    tokens and of inner white space, each white-space character directly
    before a letter or a digit, none at the start. *)
Definition joinable (x : str) : bool :=
  tidy x && forallb plain_char x && negb (starts_space x).

(** The removal of adjacent duplicates as the specification words it: a
    word token equal up to case to the token kept last is dropped. *)
Fixpoint keep_after (prev : str) (tokens : list str) : list str :=
  match tokens with
  | [] => []
  | t :: ts =>
      if same_word t prev then keep_after prev ts else t :: keep_after t ts
  end.

Definition collapse (tokens : list str) : list str :=
  match tokens with
  | [] => []
  | t :: ts => t :: keep_after t ts
  end.

End JoinSpec.

(** ** Lower case *)

Module CaseSpec.

(** No character of the string is an upper-case letter. *)
Definition no_upper (s : str) : bool :=
  forallb (fun c => negb (Py.isupper_char c)) s.

End CaseSpec.

(** ** The replacement of phrases: specification-level definitions *)

Module PhraseSpec.

Import Re AcademicRules.










End PhraseSpec.

(** ** Properties of the matcher of regular expressions *)

Section Engine.

Import Re TokenSpec.

Lemma take_drop_run (p : ascii -> bool) (s : str) :
  take_run p s ++ drop_run p s = s.
Proof.
  induction s as [|c r IH]; simpl; [reflexivity|].
  destruct (p c); simpl; [rewrite IH|]; reflexivity.
Qed.

Lemma take_run_all (p : ascii -> bool) (s : str) :
  forallb p (take_run p s) = true.
Proof.
  induction s as [|c r IH]; simpl; [reflexivity|].
  destruct (p c) eqn:E; simpl; [rewrite E, IH|]; reflexivity.
Qed.

Lemma take_run_app (p : ascii -> bool) (w o : str) :
  forallb p w = true -> take_run p (w ++ o) = w ++ take_run p o.
Proof.
  induction w as [|c w IH]; simpl; [reflexivity|].
  intros H. apply andb_true_iff in H as [Hc Hw]. rewrite Hc, IH by exact Hw.
  reflexivity.
Qed.

Lemma drop_run_app (p : ascii -> bool) (w o : str) :
  forallb p w = true -> drop_run p (w ++ o) = drop_run p o.
Proof.
  induction w as [|c w IH]; simpl; [reflexivity|].
  intros H. apply andb_true_iff in H as [Hc Hw]. rewrite Hc. apply IH, Hw.
Qed.

(** A greedy run of one character class stops first where the run ends. *)
Lemma star_chr_head (p : ascii -> bool) :
  forall fuel st,
    length (rest st) <= fuel ->
    exists tl,
      star (matches (Chr p)) fuel st
      = MState (rev (take_run p (rest st)) ++ seen st) (drop_run p (rest st)) (caps st)
        :: tl.
Proof.
  set (step := matches (Chr p)).
  assert (forall sn c rs cp,
             step (MState sn (c :: rs) cp)
             = if p c then [MState (c :: sn) rs cp] else []) as Hcons
      by reflexivity.
  assert (forall sn cp, step (MState sn [] cp) = []) as Hnil by reflexivity.
  clearbody step.
  induction fuel as [|fuel IH]; intros [sn rs cp] Hlen; simpl in *.
  - destruct rs; [|simpl in Hlen; lia]. exists []. reflexivity.
  - destruct rs as [|c rs]; simpl.
    + rewrite Hnil. exists []. reflexivity.
    + rewrite Hcons. destruct (p c) eqn:E; simpl; [|exists []; reflexivity].
      assert ((length rs <? S (length rs)) = true) as ->
          by (apply Nat.ltb_lt; lia).
      destruct (IH (MState (c :: sn) rs cp)) as [tl Htl]; [simpl in *; lia|].
      rewrite Htl. simpl.
      rewrite <- (List.app_assoc (rev (take_run p rs)) [c] sn). simpl.
      eexists. reflexivity.
Qed.

Lemma star_chr_stuck (p : ascii -> bool) (fuel : nat) (st : mstate) :
  match rest st with c :: _ => p c = false | [] => True end ->
  star (matches (Chr p)) fuel st = [st].
Proof.
  destruct fuel as [|fuel]; [reflexivity|]. simpl.
  destruct (rest st) as [|c rs]; [reflexivity|]. intros ->. reflexivity.
Qed.

End Engine.

(** ** Properties of the tokenizer and of the joiner *)

Section Tokenizer.

Import Re SpellChecker TokenSpec.

Ltac by_char c := destruct c as [[] [] [] [] [] [] [] []]; vm_compute; intuition congruence.

Lemma letter_facts (c : ascii) :
  letter c = true ->
  Py.is_09 c = false /\ punct c = false /\ cls_s [] c = false
  /\ letter_hyphen_quote c = true /\ letter_digit c = true.
Proof. by_char c. Qed.

Lemma digit_facts (c : ascii) :
  Py.is_09 c = true ->
  letter c = false /\ punct c = false /\ cls_s [] c = false
  /\ letter_hyphen_quote c = false /\ letter_digit c = true.
Proof. by_char c. Qed.

Lemma punct_facts (c : ascii) :
  punct c = true ->
  letter c = false /\ Py.is_09 c = false /\ cls_s [] c = false /\ letter_digit c = false.
Proof. by_char c. Qed.

Lemma hyphen_quote_facts (c : ascii) :
  letter_hyphen_quote c = true ->
  cls_s [] c = false /\ Py.is_09 c = false /\ (letter c = true \/ punct c = true).
Proof. by_char c. Qed.

Lemma letter_digit_facts (c : ascii) :
  letter_digit c = true ->
  cls_s [] c = false /\ one_of ",.;:!?" c = false /\ (letter c = true \/ Py.is_09 c = true).
Proof. by_char c. Qed.

Lemma space_facts (c : ascii) :
  cls_s [] c = true -> letter c = false /\ Py.is_09 c = false /\ punct c = false.
Proof. by_char c. Qed.

Lemma matches_seq (r1 r2 : regex) (st : mstate) :
  matches (Seq r1 r2) st = flat_map (matches r2) (matches r1 st).
Proof. reflexivity. Qed.

Lemma matches_alt (r1 r2 : regex) (st : mstate) :
  matches (Alt r1 r2) st = matches r1 st ++ matches r2 st.
Proof. reflexivity. Qed.

Lemma matches_star (r : regex) (st : mstate) :
  matches (Star r) st = star (matches r) (length (rest st)) st.
Proof. reflexivity. Qed.

Lemma matches_chr (p : ascii -> bool) (sn : str) (c : ascii) (rs : str)
    (cp : list (nat * str)) :
  matches (Chr p) (MState sn (c :: rs) cp)
  = if p c then [MState (c :: sn) rs cp] else [].
Proof. reflexivity. Qed.

Lemma matches_chr_nil (p : ascii -> bool) (sn : str) (cp : list (nat * str)) :
  matches (Chr p) (MState sn [] cp) = [].
Proof. reflexivity. Qed.

Lemma match_at_token (before s : str) :
  match_at (token_re [UNICODE]) before s
  = match first_token s with
    | Some (t, r) => Some (MState (rev t ++ before) r [])
    | None => None
    end.
Proof.
  unfold match_at, token_re, Plus.
  rewrite !matches_alt, !matches_seq.
  destruct s as [|c r]; [rewrite !matches_chr_nil; reflexivity|].
  rewrite !matches_chr. unfold first_token, kind_of.
  change (negb (cls_w [UNICODE] c || cls_s [UNICODE] c)) with (punct c).
  change (cls_d [UNICODE] c) with (Py.is_09 c).
  destruct (letter c) eqn:L.
  - cbn [flat_map]. rewrite matches_star.
    destruct (star_chr_head letter_hyphen_quote (length r) (MState (c :: before) r []))
      as [tl Htl]; [cbn; lia|].
    cbn [rest seen caps] in *. rewrite Htl. cbn [app hd_error rev].
    rewrite <- (List.app_assoc _ [c] before). reflexivity.
  - cbn [flat_map app].
    destruct (Py.is_09 c) eqn:D.
    + cbn [flat_map]. rewrite matches_star.
      destruct (star_chr_head (cls_d [UNICODE]) (length r) (MState (c :: before) r []))
        as [tl Htl]; [cbn; lia|].
      cbn [rest seen caps] in *. rewrite Htl. cbn [app hd_error rev].
      rewrite <- (List.app_assoc _ [c] before). reflexivity.
    + cbn [flat_map app]. destruct (punct c); reflexivity.
Qed.

Lemma first_token_split (s t r : str) :
  first_token s = Some (t, r) ->
  s = t ++ r /\ exists c t', t = c :: t'.
Proof.
  destruct s as [|c s]; [discriminate|]. unfold first_token.
  destruct (kind_of c); intros [= <- <-]; (split; [|eauto]).
  - simpl. rewrite take_drop_run. reflexivity.
  - simpl. rewrite take_drop_run. reflexivity.
  - reflexivity.
Qed.

Lemma scan_token_before (s : str) :
  forall before before' k,
    found (scan (token_re [UNICODE]) before s k)
    = found (scan (token_re [UNICODE]) before' s k).
Proof.
  induction s as [|c r IH]; intros before before' k.
  - destruct k; [|reflexivity]. cbn [scan]. rewrite !match_at_token. reflexivity.
  - destruct k as [|k]; [|cbn [scan]; apply IH].
    cbn [scan]. rewrite !match_at_token.
    destruct (first_token (c :: r)) as [[t r']|].
    + cbn [rest caps]. destruct (length (c :: r) - length r').
      * cbn [found flat_map app]. f_equal. apply IH.
      * cbn [found flat_map app]. f_equal. apply IH.
    + cbn [found flat_map app]. apply IH.
Qed.

Lemma scan_token_skip (k : nat) :
  forall s before,
    found (scan (token_re [UNICODE]) before s k)
    = found (scan (token_re [UNICODE]) before (skipn k s) 0).
Proof.
  induction k as [|k IH]; intros s before; [reflexivity|].
  destruct s as [|c r].
  - cbn [scan skipn]. rewrite match_at_token. reflexivity.
  - cbn [scan skipn]. rewrite IH. apply scan_token_before.
Qed.

Lemma retok_nil : _retok [] = [].
Proof. reflexivity. Qed.

Lemma retok_token (s t r : str) :
  first_token s = Some (t, r) -> _retok s = t :: _retok r.
Proof.
  intros F. destruct (first_token_split _ _ _ F) as [Hs [c [t' Ht]]].
  subst t. simpl in Hs. subst s.
  unfold _retok, findall. fold found. cbn [scan].
  rewrite match_at_token, F. cbn [rest caps].
  replace (length (c :: t' ++ r) - length r) with (S (length t'))
    by (simpl; rewrite length_app; lia).
  cbn [found flat_map app]. f_equal.
  - change (c :: t' ++ r) with ((c :: t') ++ r).
    rewrite firstn_app. replace (S (length t') - length (c :: t')) with 0 by (simpl; lia).
    rewrite firstn_all2 by (simpl; lia). rewrite firstn_O. apply app_nil_r.
  - fold (found (scan (token_re [UNICODE]) [c] (t' ++ r) (length t'))).
    rewrite scan_token_skip. rewrite skipn_app, skipn_all, Nat.sub_diag. simpl.
    apply scan_token_before.
Qed.

Lemma retok_skip (c : ascii) (r : str) :
  first_token (c :: r) = None -> _retok (c :: r) = _retok r.
Proof.
  intros F. unfold _retok, findall. fold found. cbn [scan].
  rewrite match_at_token, F. cbn [found flat_map app].
  apply scan_token_before.
Qed.

(** *** The joiner *)

Lemma is_match_chr (p : ascii -> bool) (t : str) :
  is_match (Chr p) t = match t with c :: _ => p c | [] => false end.
Proof.
  destruct t as [|c t]; [reflexivity|].
  unfold is_match, match_at. rewrite matches_chr. destruct (p c); reflexivity.
Qed.

Lemma join_step_eq (out t : str) :
  join_step out t
  = out ++ (if starts_alnum t && Py.truthy out then [" "%char] else []) ++ t.
Proof.
  unfold join_step. rewrite is_match_chr. fold (starts_alnum t).
  destruct (starts_alnum t); [|reflexivity].
  destruct out as [|x out]; [reflexivity|].
  cbn [Py.truthy andb negb]. destruct (last_binds_word (x :: out)); reflexivity.
Qed.

Lemma fold_join (tokens : list str) :
  forall out, fold_left join_step tokens out = out ++ glue (Py.truthy out) tokens.
Proof.
  induction tokens as [|t ts IH]; intros out; simpl.
  - symmetry. apply app_nil_r.
  - rewrite IH, join_step_eq. rewrite <- !List.app_assoc. do 3 f_equal.
    destruct out as [|x out]; simpl.
    + rewrite andb_false_r. reflexivity.
    + destruct (starts_alnum t); reflexivity.
Qed.

(** *** The joined form *)

Lemma joined_nil (b : bool) : joined b [] = [].
Proof. reflexivity. Qed.

Lemma joined_token (b : bool) (s t r : str) :
  first_token s = Some (t, r) ->
  joined b s = (if starts_alnum t && b then [" "%char] else []) ++ t ++ joined true r.
Proof.
  intros F. unfold joined. rewrite (retok_token _ _ _ F). cbn [glue].
  destruct (first_token_split _ _ _ F) as [_ [c [t' ->]]].
  cbn [Py.truthy]. rewrite orb_true_r. reflexivity.
Qed.

Lemma joined_skip (b : bool) (c : ascii) (r : str) :
  first_token (c :: r) = None -> joined b (c :: r) = joined b r.
Proof. intros F. unfold joined. rewrite (retok_skip _ _ F). reflexivity. Qed.

Lemma first_token_letter (c : ascii) (r : str) :
  letter c = true ->
  first_token (c :: r)
  = Some (c :: take_run letter_hyphen_quote r, drop_run letter_hyphen_quote r).
Proof. intros L. unfold first_token, kind_of. rewrite L. reflexivity. Qed.

Lemma first_token_digit (c : ascii) (r : str) :
  Py.is_09 c = true ->
  first_token (c :: r) = Some (c :: take_run Py.is_09 r, drop_run Py.is_09 r).
Proof.
  intros D. destruct (digit_facts c D) as [L _].
  unfold first_token, kind_of. rewrite L, D. reflexivity.
Qed.

Lemma first_token_punct (c : ascii) (r : str) :
  punct c = true -> first_token (c :: r) = Some ([c], r).
Proof.
  intros P. destruct (punct_facts c P) as [L [D _]].
  unfold first_token, kind_of. rewrite L, D, P. reflexivity.
Qed.

Lemma first_token_space (c : ascii) (r : str) :
  cls_s [] c = true -> first_token (c :: r) = None.
Proof.
  intros S. destruct (space_facts c S) as [L [D P]].
  unfold first_token, kind_of. rewrite L, D, P. reflexivity.
Qed.

Lemma length_drop_run (p : ascii -> bool) (s : str) :
  length (drop_run p s) <= length s.
Proof.
  induction s as [|c r IH]; simpl; [lia|]. destruct (p c); simpl; lia.
Qed.

(** A text that the joiner leaves as it is after a non-empty output does
    not start with a letter or a digit. *)
Lemma fixed_no_alnum_head (o : str) :
  joined true o = o -> starts_alnum o = false.
Proof.
  destruct o as [|x o]; [reflexivity|]. intros Hfix. simpl.
  destruct (letter_digit x) eqn:E; [|reflexivity]. exfalso.
  destruct (letter_digit_facts x E) as [_ [_ [L|D]]].
  - rewrite (joined_token true _ _ _ (first_token_letter x o L)) in Hfix.
    simpl in Hfix. rewrite E in Hfix. simpl in Hfix.
    injection Hfix as Hx _. subst x. discriminate.
  - rewrite (joined_token true _ _ _ (first_token_digit x o D)) in Hfix.
    simpl in Hfix. rewrite E in Hfix. simpl in Hfix.
    injection Hfix as Hx _. subst x. discriminate.
Qed.

Lemma fixed_after_hyphens (o : str) :
  joined true o = o ->
  take_run letter_hyphen_quote o ++ joined true (drop_run letter_hyphen_quote o) = o.
Proof.
  induction o as [|x o IH]; intros Hfix; [reflexivity|]. simpl.
  destruct (letter_hyphen_quote x) eqn:E; [|exact Hfix].
  pose proof (fixed_no_alnum_head _ Hfix) as Hhead. simpl in Hhead.
  destruct (hyphen_quote_facts x E) as [_ [_ [L|P]]].
  - destruct (letter_facts x L) as [_ [_ [_ [_ LD]]]]. congruence.
  - rewrite (joined_token true _ _ _ (first_token_punct x o P)) in Hfix.
    simpl in Hfix. rewrite Hhead in Hfix. simpl in Hfix.
    injection Hfix as Hfix. simpl. f_equal. apply IH, Hfix.
Qed.

Lemma fixed_no_digit_head (o : str) :
  joined true o = o -> take_run Py.is_09 o = [] /\ drop_run Py.is_09 o = o.
Proof.
  intros Hfix. pose proof (fixed_no_alnum_head _ Hfix) as Hhead.
  destruct o as [|x o]; [split; reflexivity|]. simpl in *.
  destruct (Py.is_09 x) eqn:D; [|split; reflexivity].
  destruct (digit_facts x D) as [_ [_ [_ [_ LD]]]]. congruence.
Qed.

Lemma space_is_skipped (b : bool) (r : str) :
  joined b (" "%char :: r) = joined b r.
Proof. apply joined_skip, first_token_space. reflexivity. Qed.

Lemma joined_idempotent (n : nat) :
  forall (s : str) (b : bool),
    length s <= n -> joined b (joined b s) = joined b s.
Proof.
  induction n as [|n IH]; intros s b Hlen.
  - destruct s; [reflexivity|simpl in Hlen; lia].
  - destruct s as [|c r]; [reflexivity|]. simpl in Hlen.
    destruct (letter c) eqn:L; [|destruct (Py.is_09 c) eqn:D;
                                  [|destruct (punct c) eqn:P]].
    + destruct (letter_facts c L) as [_ [_ [_ [_ LD]]]].
      rewrite (joined_token b _ _ _ (first_token_letter c r L)).
      set (w := take_run letter_hyphen_quote r).
      set (o := joined true (drop_run letter_hyphen_quote r)).
      assert (joined true o = o) as Ho.
      { apply IH. pose proof (length_drop_run letter_hyphen_quote r). lia. }
      cbn [starts_alnum]. rewrite LD.
      assert (joined b (c :: w ++ o)
              = (if b then [" "%char] else []) ++ c :: w ++ o) as Hin.
      { rewrite (joined_token b _ _ _ (first_token_letter c (w ++ o) L)).
        cbn [starts_alnum]. rewrite LD.
        rewrite take_run_app, drop_run_app by apply take_run_all.
        simpl. rewrite <- List.app_assoc, (fixed_after_hyphens o Ho). reflexivity. }
      destruct b; simpl.
      * rewrite space_is_skipped. exact Hin.
      * exact Hin.
    + destruct (digit_facts c D) as [_ [_ [_ [_ LD]]]].
      rewrite (joined_token b _ _ _ (first_token_digit c r D)).
      set (w := take_run Py.is_09 r).
      set (o := joined true (drop_run Py.is_09 r)).
      assert (joined true o = o) as Ho.
      { apply IH. pose proof (length_drop_run Py.is_09 r). lia. }
      cbn [starts_alnum]. rewrite LD.
      assert (joined b (c :: w ++ o)
              = (if b then [" "%char] else []) ++ c :: w ++ o) as Hin.
      { rewrite (joined_token b _ _ _ (first_token_digit c (w ++ o) D)).
        cbn [starts_alnum]. rewrite LD.
        rewrite take_run_app, drop_run_app by apply take_run_all.
        destruct (fixed_no_digit_head o Ho) as [-> ->].
        simpl. rewrite app_nil_r, Ho. reflexivity. }
      destruct b; simpl.
      * rewrite space_is_skipped. exact Hin.
      * exact Hin.
    + destruct (punct_facts c P) as [_ [_ [_ LD]]].
      rewrite (joined_token b _ _ _ (first_token_punct c r P)).
      cbn [starts_alnum]. rewrite LD. simpl.
      rewrite (joined_token b _ _ _ (first_token_punct c _ P)).
      cbn [starts_alnum]. rewrite LD. simpl. f_equal. apply IH. lia.
    + assert (first_token (c :: r) = None) as F
          by (unfold first_token, kind_of; rewrite L, D, P; reflexivity).
      rewrite (joined_skip b c r F). apply IH. lia.
Qed.

(** *** The final substitution and strip of the joiner *)

Lemma forallb_weaken {A : Type} (p q : A -> bool) (l : list A) :
  (forall x, p x = true -> q x = true) ->
  forallb p l = true -> forallb q l = true.
Proof.
  intros Hpq. induction l as [|x l IH]; simpl; [reflexivity|].
  intros H. apply andb_true_iff in H as [Hx Hl].
  rewrite (Hpq x Hx), (IH Hl). reflexivity.
Qed.

Lemma token_nonspace (s t r : str) :
  first_token s = Some (t, r) -> forallb nonspace t = true.
Proof.
  destruct s as [|c s]; [discriminate|]. unfold first_token, kind_of.
  destruct (letter c) eqn:L; [|destruct (Py.is_09 c) eqn:D;
                                [|destruct (punct c) eqn:P]];
    intros [= <- <-]; simpl.
  - destruct (letter_facts c L) as [_ [_ [S _]]]. unfold nonspace at 1. rewrite S. simpl.
    apply (forallb_weaken letter_hyphen_quote); [|apply take_run_all].
    intros x Hx. destruct (hyphen_quote_facts x Hx) as [Sx _].
    unfold nonspace. rewrite Sx. reflexivity.
  - destruct (digit_facts c D) as [_ [_ [S _]]]. unfold nonspace at 1. rewrite S. simpl.
    apply (forallb_weaken Py.is_09); [|apply take_run_all].
    intros x Hx. destruct (digit_facts x Hx) as [_ [_ [Sx _]]].
    unfold nonspace. rewrite Sx. reflexivity.
  - destruct (punct_facts c P) as [_ [_ [S _]]]. unfold nonspace. rewrite S. reflexivity.
Qed.

Lemma tidy_app_nonspace (t o : str) :
  forallb nonspace t = true -> tidy o = true -> tidy (t ++ o) = true.
Proof.
  induction t as [|c t IH]; simpl; [auto|].
  intros H Ho. apply andb_true_iff in H as [Hc Ht].
  unfold nonspace in Hc. rewrite Hc, (IH Ht Ho). reflexivity.
Qed.

Lemma tidy_space (u : str) :
  starts_alnum u = true -> tidy u = true -> tidy (" "%char :: u) = true.
Proof.
  intros Hu Ht. cbn [tidy]. rewrite Hu, Ht, orb_true_r. reflexivity.
Qed.

Lemma tidy_joined (n : nat) :
  forall (s : str) (b : bool), length s <= n -> tidy (joined b s) = true.
Proof.
  induction n as [|n IH]; intros s b Hlen.
  - destruct s; [reflexivity|simpl in Hlen; lia].
  - destruct s as [|c r]; [reflexivity|]. simpl in Hlen.
    destruct (first_token (c :: r)) as [[t r']|] eqn:F.
    + rewrite (joined_token b _ _ _ F).
      destruct (first_token_split _ _ _ F) as [Hs [x [t' Ht]]].
      assert (length r' <= n) as Hr'.
      { apply (f_equal (@length ascii)) in Hs. rewrite length_app in Hs.
        subst t. simpl in Hs. lia. }
      assert (tidy (t ++ joined true r') = true) as Htidy.
      { apply tidy_app_nonspace; [exact (token_nonspace _ _ _ F)|apply IH, Hr']. }
      destruct (starts_alnum t && b) eqn:E; [|exact Htidy].
      apply andb_true_iff in E as [E _].
      apply tidy_space; [|exact Htidy]. subst t. exact E.
    + rewrite (joined_skip b c r F). apply IH. lia.
Qed.

Lemma lstrip_joined (n : nat) :
  forall s : str, length s <= n -> Py.lstrip (joined false s) = joined false s.
Proof.
  induction n as [|n IH]; intros s Hlen.
  - destruct s; [reflexivity|simpl in Hlen; lia].
  - destruct s as [|c r]; [reflexivity|]. simpl in Hlen.
    destruct (first_token (c :: r)) as [[t r']|] eqn:F.
    + rewrite (joined_token false _ _ _ F). rewrite andb_false_r.
      pose proof (token_nonspace _ _ _ F) as Hns.
      destruct (first_token_split _ _ _ F) as [_ [x [t' ->]]].
      simpl in *. apply andb_true_iff in Hns as [Hx _].
      unfold nonspace in Hx. apply negb_true_iff in Hx.
      change (Py.isspace_char x) with (cls_s [] x). rewrite Hx. reflexivity.
    + rewrite (joined_skip false c r F). apply IH. lia.
Qed.

Lemma tidy_last (l : str) (c : ascii) :
  tidy (l ++ [c]) = true -> cls_s [] c = false.
Proof.
  induction l as [|x l IH]; simpl; intros H.
  - rewrite orb_false_r, andb_true_r in H. apply negb_true_iff, H.
  - apply andb_true_iff in H as [_ H]. apply IH, H.
Qed.

Lemma rstrip_tidy (s : str) : tidy s = true -> Py.rstrip s = s.
Proof.
  unfold Py.rstrip. destruct s as [|x s'] using rev_ind; [reflexivity|].
  intros H. apply tidy_last in H. rewrite rev_app_distr. simpl.
  change (Py.isspace_char x) with (cls_s [] x). rewrite H.
  simpl. rewrite rev_involutive. reflexivity.
Qed.

Lemma matches_grp (n : nat) (r : regex) (st : mstate) :
  matches (Grp n r) st = map (set_cap n st) (matches r st).
Proof. reflexivity. Qed.

Lemma no_space_punct_in_tidy (before s : str) :
  tidy s = true -> match_at (space_punct_re []) before s = None.
Proof.
  intros H. unfold match_at, space_punct_re, Plus. rewrite !matches_seq.
  destruct s as [|c r]; [rewrite matches_chr_nil; reflexivity|].
  rewrite matches_chr. simpl in H. apply andb_true_iff in H as [H _].
  destruct (cls_s [] c) eqn:S; [|reflexivity].
  simpl in H. destruct r as [|x r]; [discriminate|]. simpl in H.
  destruct (letter_digit_facts x H) as [Sx [Px _]].
  cbn [flat_map]. rewrite matches_star.
  rewrite star_chr_stuck by exact Sx.
  cbn [flat_map app]. rewrite matches_grp, matches_chr, Px. reflexivity.
Qed.

Lemma tidy_tail (c : ascii) (s : str) : tidy (c :: s) = true -> tidy s = true.
Proof. simpl. intros H. apply andb_true_iff in H as [_ H]. exact H. Qed.

Lemma scan_tidy (s : str) :
  forall before,
    tidy s = true -> scan (space_punct_re []) before s 0 = map Plain s.
Proof.
  induction s as [|c r IH]; intros before H; cbn [scan];
    rewrite (no_space_punct_in_tidy _ _ H); [reflexivity|].
  simpl. f_equal. apply IH. exact (tidy_tail _ _ H).
Qed.

Lemma sub_tidy (tpl : list repl_item) (s : str) :
  tidy s = true -> sub (space_punct_re []) tpl s = s.
Proof.
  intros H. unfold sub. rewrite (scan_tidy s [] H).
  clear H. induction s as [|c r IH]; simpl; [reflexivity|]. rewrite IH. reflexivity.
Qed.

(** The joiner applied to the tokens of a text gives its joined form. *)
Lemma smart_join_retok (s : str) : _smart_join (_retok s) = joined false s.
Proof.
  unfold _smart_join. rewrite fold_join. cbn [app Py.truthy].
  fold (joined false s).
  pose proof (tidy_joined (length s) s false (Nat.le_refl _)) as Htidy.
  rewrite (sub_tidy _ _ Htidy). unfold Py.strip.
  rewrite (lstrip_joined (length s) s (Nat.le_refl _)).
  apply rstrip_tidy, Htidy.
Qed.

(** The joiner of the aligner is the joiner of the normalizer. *)
Lemma joiners_agree (tokens : list str) :
  GrammarCorrector._smart_join tokens = _smart_join tokens.
Proof.
  unfold GrammarCorrector._smart_join, _smart_join.
  assert (forall out,
             fold_left GrammarCorrector.join_step tokens out
             = fold_left join_step tokens out) as ->; [|reflexivity].
  induction tokens as [|t ts IH]; intros out; simpl; [reflexivity|].
  rewrite IH. f_equal. rewrite join_step_eq.
  unfold GrammarCorrector.join_step.
  change (is_match (Chr GrammarCorrector.letter_digit) t)
    with (is_match (Chr letter_digit) t).
  rewrite is_match_chr. fold (starts_alnum t).
  destruct (starts_alnum t); [|reflexivity].
  destruct out as [|x out]; [reflexivity|].
  cbn [Py.truthy andb negb].
  destruct (GrammarCorrector.last_isalnum (x :: out)); reflexivity.
Qed.

(** C6.  Joining is idempotent with respect to tokenization: for the
    tokens of any text, joining them, tokenizing the result and joining
    again gives the same string as joining them once. *)
Theorem join_fixed_point (s : str) :
  let tokens := _retok s in
  _smart_join (_retok (_smart_join tokens)) = _smart_join tokens.
Proof.
  intros tokens. unfold tokens.
  rewrite !smart_join_retok.
  apply (joined_idempotent (length s)). lia.
Qed.

End Tokenizer.

(** ** Properties of the guardrail *)

Section Guard.

Import GrammarCorrector GuardSpec.

Lemma skipn_nth_cons {A : Type} (d : A) (l : list A) (k : nat) :
  k < length l -> skipn k l = nth k l d :: skipn (S k) l.
Proof.
  revert k. induction l as [|x l IH]; intros k Hk; simpl in *; [lia|].
  destruct k as [|k]; [reflexivity|]. apply IH. lia.
Qed.

Lemma walk_refines_lockstep (src tgt : list str) (lock : gmap Z str) :
  forall fuel k out,
    length tgt - k <= fuel ->
    let st := walk fuel src tgt lock (Walk k k out) in
    wout st ++ skipn (wj st) tgt
    = out ++ lockstep k (skipn k src) (skipn k tgt) lock.
Proof.
  induction fuel as [|fuel IH]; intros k out Hfuel; simpl.
  - rewrite (skipn_all2 tgt) by lia.
    destruct (skipn k src); reflexivity.
  - destruct (k <? length src) eqn:Hs; simpl.
    + destruct (k <? length tgt) eqn:Ht; simpl.
      * apply Nat.ltb_lt in Hs, Ht.
        rewrite (skipn_nth_cons [] src k Hs), (skipn_nth_cons [] tgt k Ht).
        cbn [lockstep]. unfold walk_step. cbn [wi wj wout].
        destruct (lock !! Z.of_nat k) as [canon|].
        -- assert (bool_decide (is_Some (Some canon)) = true) as ->
               by (apply bool_decide_eq_true; eauto).
           destruct (is_word (nth k src [])), (is_word (nth k tgt []));
             cbn [andb default]; rewrite IH by lia;
             rewrite <- List.app_assoc; reflexivity.
        -- assert (bool_decide (is_Some (@None str)) = false) as ->
               by (apply bool_decide_eq_false; intros [x Hx]; discriminate).
           rewrite andb_false_r. cbn [andb]. rewrite IH by lia.
           rewrite <- List.app_assoc. reflexivity.
      * apply Nat.ltb_ge in Ht. rewrite (skipn_all2 tgt) by lia.
        destruct (skipn k src); reflexivity.
    + apply Nat.ltb_ge in Hs. rewrite (skipn_all2 src) by lia. reflexivity.
Qed.

Lemma enforce_unfold (src tgt : str) (lock : gmap Z str) :
  enforce_locked_proper_nouns src tgt lock
  = if Nat.eqb (size lock) 0 then tgt
    else _smart_join (dedup_adjacent (_simple_tokens (_smart_join
           (lockstep 0 (_simple_tokens src) (_simple_tokens tgt) lock)))).
Proof.
  unfold enforce_locked_proper_nouns.
  destruct (Nat.eqb (size lock) 0); [reflexivity|].
  pose proof (walk_refines_lockstep (_simple_tokens src) (_simple_tokens tgt) lock
                (length (_simple_tokens tgt)) 0 []) as H.
  simpl in H. rewrite H by lia. reflexivity.
Qed.

Lemma adjacent_dup_snoc (l : list str) (tok : str) :
  adjacent_dup (l ++ [tok])
  = adjacent_dup l
    || match last l with Some prev => same_word tok prev | None => false end.
Proof.
  induction l as [|a l IH]; [reflexivity|].
  destruct l as [|b l]; simpl.
  - rewrite orb_false_r. reflexivity.
  - simpl in IH. rewrite IH. rewrite orb_assoc. reflexivity.
Qed.

Lemma dedup_step_no_dup (acc : list str) (tok : str) :
  adjacent_dup acc = false -> adjacent_dup (dedup_step acc tok) = false.
Proof.
  intros Hacc. unfold dedup_step.
  destruct (last acc) as [prev|] eqn:Hlast.
  - destruct (is_word tok && is_word prev && Py.eqb (Py.lower tok) (Py.lower prev))
      eqn:Hsame; [exact Hacc|].
    rewrite adjacent_dup_snoc, Hlast, Hacc. exact Hsame.
  - rewrite adjacent_dup_snoc, Hlast, Hacc. reflexivity.
Qed.

Lemma dedup_adjacent_no_dup (tokens : list str) :
  adjacent_dup (dedup_adjacent tokens) = false.
Proof.
  unfold dedup_adjacent.
  assert (forall acc, adjacent_dup acc = false ->
                      adjacent_dup (fold_left dedup_step tokens acc) = false) as H.
  { induction tokens as [|t ts IH]; intros acc Hacc; simpl; [exact Hacc|].
    apply IH, dedup_step_no_dup, Hacc. }
  apply H. reflexivity.
Qed.

End Guard.

Section GuardClaims.

Import GrammarCorrector GuardSpec.


(** C10.  Under an empty lock map the guard returns the rewritten text
    exactly as it was given. *)
Theorem guard_empty_lock_map_is_identity (locked_text rewritten : str) :
  enforce_locked_proper_nouns locked_text rewritten ∅ = rewritten.
Proof. reflexivity. Qed.

(** C3, as stated, fails.  Under an empty lock map no duplicate is
    removed: "the the cat" comes back as it is, and its tokens "the",
    "the" are adjacent words equal up to case. *)
Lemma guard_duplicates_survive :
  enforce_locked_proper_nouns "a cat" "the the cat" ∅ = "the the cat"
  /\ adjacent_dup (_simple_tokens "the the cat") = true.
Proof. split; vm_compute; reflexivity. Qed.

End GuardClaims.

(** ** Properties of the proper-noun matcher *)

Section Matcher.

Import SpellChecker.

Lemma eqb_char_refl (c : ascii) : Py.eqb_char c c = true.
Proof. apply Ascii.eqb_refl. Qed.

Lemma eqb_refl (a : str) : Py.eqb a a = true.
Proof. induction a as [|c a IH]; simpl; [reflexivity|]. rewrite eqb_char_refl. exact IH. Qed.

Lemma eqb_eq (a b : str) : Py.eqb a b = true -> a = b.
Proof.
  revert b. induction a as [|x a IH]; intros [|y b] H; simpl in H;
    try discriminate; [reflexivity|].
  apply andb_true_iff in H as [Hc Hr].
  apply Ascii.eqb_eq in Hc. subst y. f_equal. apply IH, Hr.
Qed.

Lemma dict_get_of_key {V : Type} (d : list (str * V)) (k : str) :
  In k (Dict.keys d) -> exists v, Dict.get d k = Some v.
Proof.
  induction d as [|[k' v'] d IH]; simpl; [contradiction|].
  intros [Hk|Hk].
  - subst k'. rewrite eqb_refl. eauto.
  - destruct (Py.eqb k' k); eauto.
Qed.

Lemma dict_get_In {V : Type} (d : list (str * V)) (k : str) (v : V) :
  Dict.get d k = Some v -> In (k, v) d.
Proof.
  induction d as [|[k' v'] d IH]; simpl; [discriminate|].
  destruct (Py.eqb k' k) eqn:E.
  - apply eqb_eq in E. subst k'. intros [= <-]. left. reflexivity.
  - intros H. right. apply IH, H.
Qed.

Lemma dict_get_set {V : Type} (d : list (str * V)) (k k' : str) (v : V) :
  Dict.get (Dict.set d k v) k'
  = if Py.eqb k k' then Some v else Dict.get d k'.
Proof.
  induction d as [|[k1 v1] d IH]; simpl.
  - reflexivity.
  - destruct (Py.eqb k1 k) eqn:E1; simpl.
    + apply eqb_eq in E1. subst k1. destruct (Py.eqb k k'); reflexivity.
    + rewrite IH. destruct (Py.eqb k1 k') eqn:E2; [|reflexivity].
      apply eqb_eq in E2. subst k'.
      destruct (Py.eqb k k1) eqn:E3; [|reflexivity].
      apply eqb_eq in E3. subst k1. rewrite eqb_refl in E1. discriminate.
Qed.

Lemma insert_desc_In (p q : Q * str) (l : list (Q * str)) :
  In q (Difflib.insert_desc p l) -> q = p \/ In q l.
Proof.
  induction l as [|x l IH]; simpl.
  - intros [H|[]]. left. symmetry. exact H.
  - destruct (Difflib.score_gtb p x); simpl.
    + intros [H|H]; [left; symmetry; exact H | right; exact H].
    + intros [H|H]; [right; left; exact H|].
      destruct (IH H) as [H'|H']; [left; exact H' | right; right; exact H'].
Qed.

Lemma In_firstn {A : Type} (x : A) (n : nat) (l : list A) :
  In x (firstn n l) -> In x l.
Proof.
  revert l. induction n as [|n IH]; intros [|y l] H; simpl in *; try contradiction.
  destruct H as [H|H]; [left; exact H | right; apply IH, H].
Qed.

Lemma nlargest_In (n : nat) (l : list (Q * str)) (q : Q * str) :
  In q (Difflib.nlargest n l) -> In q l.
Proof.
  unfold Difflib.nlargest. intros H. apply In_firstn in H. revert H.
  assert (forall acc, In q (fold_left (fun acc p => Difflib.insert_desc p acc) l acc) ->
                      In q acc \/ In q l) as G.
  { induction l as [|x l IH]; simpl; intros acc H; [left; exact H|].
    destruct (IH _ H) as [H'|H'].
    - destruct (insert_desc_In _ _ _ H') as [E|E]; [right; left; symmetry; exact E | left; exact E].
    - right; right; exact H'. }
  intros H. destruct (G [] H) as [[]|H']. exact H'.
Qed.

(** What [get_close_matches] returns is taken from the possibilities. *)
Lemma get_close_matches_In (ratio : str -> str -> Q) (word : str)
    (ps : list str) (n : nat) (cutoff : Q) (l : list str) (m : str) :
  Difflib.get_close_matches ratio word ps n cutoff = Ok l -> In m l -> In m ps.
Proof.
  unfold Difflib.get_close_matches.
  destruct (negb (0 <? n)); [discriminate|].
  destruct (negb (Qle_bool 0 cutoff && Qle_bool cutoff 1)); [discriminate|].
  intros [= <-] Hm. apply in_map_iff in Hm as [[q x] [Hx Hq]]. simpl in Hx. subst x.
  apply nlargest_In in Hq. apply in_flat_map in Hq as [y [Hy Hq]].
  destruct (Qle_bool cutoff (ratio y word)); [|contradiction].
  destruct Hq as [[= _ ->]|[]]. exact Hy.
Qed.

Lemma get_close_matches_valid (ratio : str -> str -> Q) (word : str)
    (ps : list str) (n : nat) (cutoff : Q) (l : list str) :
  Difflib.get_close_matches ratio word ps n cutoff = Ok l ->
  Qle_bool 0 cutoff = true /\ Qle_bool cutoff 1 = true.
Proof.
  unfold Difflib.get_close_matches.
  destruct (negb (0 <? n)); [discriminate|].
  destruct (Qle_bool 0 cutoff); [|discriminate].
  destruct (Qle_bool cutoff 1); [|discriminate]. auto.
Qed.

Lemma person_cutoff_valid (cutoff : Q) :
  Qle_bool 0 cutoff = true -> Qle_bool cutoff 1 = true ->
  Qle_bool 0 (person_cutoff cutoff) && Qle_bool (person_cutoff cutoff) 1 = true.
Proof.
  intros H0 H1. unfold person_cutoff.
  destruct (Qle_bool cutoff (96 # 100)); simpl.
  - reflexivity.
  - rewrite H0, H1. reflexivity.
Qed.

(** The pairwise check against one key. *)
Lemma get_close_matches_single (ratio : str -> str -> Q) (word m : str) (cutoff : Q) :
  Qle_bool 0 cutoff && Qle_bool cutoff 1 = true ->
  Difflib.get_close_matches ratio word [m] 1 cutoff
  = Ok (if Qle_bool cutoff (ratio m word) then [m] else []).
Proof.
  intros Hv. unfold Difflib.get_close_matches. simpl. rewrite Hv. simpl.
  destruct (Qle_bool cutoff (ratio m word)); reflexivity.
Qed.

End Matcher.

Section MatcherClaims.

Import SpellChecker MatcherSpec.

(** The keys of a dictionary built from the lower-case forms of names. *)
Lemma mem_lexicon_fold (names : list str) (key : str) :
  forall d : list (str * str),
    Dict.mem (fold_left (fun acc kv => Dict.set acc (fst kv) (snd kv))
                (map (fun s => (Py.lower s, s)) names) d) key
    = Dict.mem d key || named names key.
Proof.
  induction names as [|n names IH]; intros d; simpl.
  - rewrite orb_false_r. reflexivity.
  - rewrite IH. unfold Dict.mem at 1. rewrite dict_get_set.
    unfold Dict.mem. destruct (Py.eqb (Py.lower n) key); simpl.
    + rewrite orb_true_r. reflexivity.
    + reflexivity.
Qed.

Lemma mem_lexicon_of (names : list str) (key : str) :
  Dict.mem (lexicon_of names) key = named names key.
Proof. unfold lexicon_of, Dict.of_items, Dict.update. apply mem_lexicon_fold. Qed.

Lemma tag_of_named (key : str) :
  tag_of key
  = if named INDIAN_STATES key then state
    else if named POPULAR_CITIES key then city else person.
Proof.
  unfold tag_of.
  change LEX_STATE with (lexicon_of INDIAN_STATES).
  change LEX_CITY with (lexicon_of POPULAR_CITIES).
  rewrite !mem_lexicon_of. reflexivity.
Qed.

Lemma all_lex_canonical :
  forallb (fun kv => Py.eqb (Py.lower (snd kv)) (fst kv)
                     && (named INDIAN_STATES (fst kv) || named POPULAR_CITIES (fst kv)
                         || named COMMON_FIRST_NAMES (fst kv)))
          ALL_LEX = true.
Proof. vm_compute. reflexivity. Qed.

(** C5.  A word whose lower-case form is a key of the lexicon is matched
    whatever the similarity function and whatever the cutoff, valid or
    not: the fuzzy path is not entered.  The result is the key's canonical
    form, a name whose lower-case form is the lower-cased word, with its
    category: state when the key is the lower-case form of a state name,
    otherwise city when it is that of a city name, otherwise person, and
    then it is that of a first name.  In particular "karnataka" at cutoff
    0.99 gives ("Karnataka", state); "mumbai" gives a city and "rahul" a
    person. *)
Theorem exact_match_ignores_cutoff
    (ratio : str -> str -> Q) (token : str) (cutoff : Q) (canon : str) :
  Dict.get ALL_LEX (Py.lower token) = Some canon ->
  exists tg,
    _closest_proper ratio token cutoff = Ok (Some (canon, tg))
    /\ Py.lower canon = Py.lower token
    /\ (tg = state <-> named INDIAN_STATES (Py.lower token) = true)
    /\ (tg = city <-> named INDIAN_STATES (Py.lower token) = false
                      /\ named POPULAR_CITIES (Py.lower token) = true)
    /\ (tg = person <-> named INDIAN_STATES (Py.lower token) = false
                        /\ named POPULAR_CITIES (Py.lower token) = false
                        /\ named COMMON_FIRST_NAMES (Py.lower token) = true).
Proof.
  intros H. exists (tag_of (Py.lower token)).
  split; [unfold _closest_proper; rewrite H; reflexivity|].
  pose proof (dict_get_In _ _ _ H) as Hin.
  pose proof (proj1 (forallb_forall _ _) all_lex_canonical _ Hin) as Hkv.
  cbn [fst snd] in Hkv. apply andb_true_iff in Hkv as [Hlow Hnamed].
  apply eqb_eq in Hlow. split; [exact Hlow|].
  rewrite tag_of_named.
  destruct (named INDIAN_STATES (Py.lower token));
    [|destruct (named POPULAR_CITIES (Py.lower token))];
    cbn [orb] in Hnamed; rewrite ?Hnamed;
    repeat split; try reflexivity; try discriminate;
    try (intros [X Y]; discriminate); try (intros [X [Y W]]; discriminate).
Qed.

Lemma exact_match_ignores_cutoff_witness :
  _closest_proper Difflib.ratio "karnataka" (99 # 100)
  = Ok (Some (str_of_string "Karnataka", state))
  /\ (exists canon, _closest_proper Difflib.ratio "Mumbai" (99 # 100)
                    = Ok (Some (canon, city)))
  /\ (exists canon, _closest_proper Difflib.ratio "RAHUL" (3 # 2)
                    = Ok (Some (canon, person))).
Proof.
  split; [|split].
  - destruct (exact_match_ignores_cutoff Difflib.ratio "karnataka" (99 # 100) "Karnataka")
      as (tg & H & _ & Hs & _); [vm_compute; reflexivity|].
    rewrite H. rewrite (proj2 Hs); [reflexivity|vm_compute; reflexivity].
  - destruct (exact_match_ignores_cutoff Difflib.ratio "Mumbai" (99 # 100) "Mumbai")
      as (tg & H & _ & _ & Hc & _); [vm_compute; reflexivity|].
    exists (str_of_string "Mumbai"). rewrite H.
    rewrite (proj2 Hc); [reflexivity|split; vm_compute; reflexivity].
  - destruct (exact_match_ignores_cutoff Difflib.ratio "RAHUL" (3 # 2) "Rahul")
      as (tg & H & _ & _ & _ & Hp); [vm_compute; reflexivity|].
    exists (str_of_string "Rahul"). rewrite H.
    rewrite (proj2 Hp); [reflexivity|repeat split; vm_compute; reflexivity].
Defined.

(** C4.  When the word is not a key and the fuzzy search at the caller's
    cutoff returns the key [m], a person-name key is checked a second
    time, alone, at the cutoff max(0.96, cutoff), and the matcher returns
    none when its similarity to the word is below that; a state or city
    key, and a person key that passes, give the canonical form.  Hence at
    a similarity below 0.96 a person name is refused where a state or a
    city is accepted. *)
Theorem person_names_need_stricter_match
    (ratio : str -> str -> Q) (token : str) (cutoff : Q) (m : str) :
  Dict.get ALL_LEX (Py.lower token) = None ->
  Difflib.get_close_matches ratio (Py.lower token) (Dict.keys ALL_LEX) 1 cutoff
  = Ok [m] ->
  exists canon,
    Dict.get ALL_LEX m = Some canon
    /\ _closest_proper ratio token cutoff
       = (if is_person (tag_of m)
             && negb (Qle_bool (person_cutoff cutoff) (ratio m (Py.lower token)))
          then Ok None
          else Ok (Some (canon, tag_of m)))
    /\ (Qle_bool (96 # 100) (ratio m (Py.lower token)) = false ->
        _closest_proper ratio token cutoff
        = if is_person (tag_of m) then Ok None else Ok (Some (canon, tag_of m))).
Proof.
  intros Hkey Hfuzzy.
  destruct (dict_get_of_key ALL_LEX m) as [canon Hcanon].
  { eapply get_close_matches_In; [exact Hfuzzy | left; reflexivity]. }
  destruct (get_close_matches_valid _ _ _ _ _ _ Hfuzzy) as [H0 H1].
  assert (_closest_proper ratio token cutoff
          = (if is_person (tag_of m)
                && negb (Qle_bool (person_cutoff cutoff) (ratio m (Py.lower token)))
             then Ok None
             else Ok (Some (canon, tag_of m)))) as Hres.
  { unfold _closest_proper. rewrite Hkey, Hfuzzy.
    cbv beta iota delta [mbind result_bind].
    destruct (is_person (tag_of m)); cbv beta iota delta [andb].
    - rewrite get_close_matches_single by (apply person_cutoff_valid; assumption).
      destruct (Qle_bool (person_cutoff cutoff) (ratio m (Py.lower token)));
        cbv beta iota delta [negb]; [rewrite Hcanon|]; reflexivity.
    - rewrite Hcanon. reflexivity. }
  exists canon. split; [exact Hcanon|]. split; [exact Hres|].
  intros Hlow. rewrite Hres.
  destruct (is_person (tag_of m)); [|reflexivity]. simpl.
  assert (Qle_bool (person_cutoff cutoff) (ratio m (Py.lower token)) = false) as ->;
    [|reflexivity].
  unfold person_cutoff.
  destruct (Qle_bool cutoff (96 # 100)) eqn:Hc; simpl; [exact Hlow|].
  destruct (Qle_bool cutoff (ratio m (Py.lower token))) eqn:Hr; [|reflexivity].
  apply Qle_bool_iff in Hr.
  assert (Qle_bool (96 # 100) (ratio m (Py.lower token)) = true) as Habs;
    [|rewrite Habs in Hlow; discriminate].
  apply Qle_bool_iff. apply Qle_trans with cutoff; [|exact Hr].
  apply Qlt_le_weak, Qnot_le_lt. intros Hle. apply Qle_bool_iff in Hle.
  rewrite Hle in Hc. discriminate.
Qed.

(** The same similarity, 18/19, to a person name and to a state. *)
Lemma person_names_need_stricter_match_witness :
  (Difflib.ratio "siddharth" "siddharthh" == 18 # 19)%Q
  /\ _closest_proper Difflib.ratio "siddharthh" (94 # 100) = Ok None
  /\ (Difflib.ratio "karnataka" "karnatakaa" == 18 # 19)%Q
  /\ _closest_proper Difflib.ratio "karnatakaa" (94 # 100)
     = Ok (Some (str_of_string "Karnataka", state)).
Proof.
  split; [vm_compute; reflexivity|]. split.
  - destruct (person_names_need_stricter_match Difflib.ratio "siddharthh" (94 # 100)
                "siddharth") as [canon [_ [H _]]].
    + vm_compute. reflexivity.
    + vm_compute. reflexivity.
    + rewrite H. vm_compute. reflexivity.
  - split; [vm_compute; reflexivity|].
    destruct (person_names_need_stricter_match Difflib.ratio "karnatakaa" (94 # 100)
                "karnataka") as [canon [Hc [H _]]].
    + vm_compute. reflexivity.
    + vm_compute. reflexivity.
    + rewrite H. vm_compute in Hc. injection Hc as <-. vm_compute. reflexivity.
Defined.

(** C7.  The tokenizer of the normalizer and the tokenizer of the aligner
    give the same token sequence on every text. *)
Theorem tokenizers_agree (text : str) :
  _retok text = GrammarCorrector._simple_tokens text.
Proof. reflexivity. Qed.

End MatcherClaims.

Section NormalizerClaims.

Import SpellChecker Examples.

Lemma for_each_cons {S A : Type} (body : S -> A -> result S)
    (x : A) (l : list A) (st : S) :
  for_each body (x :: l) st = (st' ← body st x; for_each body l st').
Proof. reflexivity. Qed.

(** A word token that the lexicon does not match goes to the dictionary. *)
Lemma loop_body_fallback
    (ratio : str -> str -> Q) (known : str -> bool) (correction : str -> option str)
    (use_lexicon : bool) (cutoff : Q) (st : loop_state) (idx : nat) (t : str) :
  is_word t = true ->
  (if use_lexicon then _closest_proper ratio t cutoff else Ok None) = Ok None ->
  loop_body ratio known correction use_lexicon cutoff st (idx, t)
  = Ok (Loop (fixed st ++ [dictionary_fallback known correction t])
             (locked_map st) (hits st) (seen_alpha st + 1)).
Proof.
  intros Hword Hlex. unfold loop_body. rewrite Hword.
  cbv beta iota delta [negb]. rewrite Hlex. reflexivity.
Qed.

(** A word token that the lexicon matches is replaced and locked. *)
Lemma loop_body_locked
    (ratio : str -> str -> Q) (known : str -> bool) (correction : str -> option str)
    (cutoff : Q) (st : loop_state) (idx : nat) (t canon : str) (tg : tag) :
  is_word t = true ->
  _closest_proper ratio t cutoff = Ok (Some (canon, tg)) ->
  loop_body ratio known correction true cutoff st (idx, t)
  = Ok (Loop (fixed st ++ [canon]) (<[Z.of_nat idx := canon]> (locked_map st))
             (hits st + 1) (seen_alpha st + 1)).
Proof.
  intros Hword Hlex. unfold loop_body. rewrite Hword.
  cbv beta iota delta [negb]. rewrite Hlex. reflexivity.
Qed.

Lemma dictionary_fallback_known
    (known : str -> bool) (correction : str -> option str) (t : str) :
  known (Py.lower t) = true -> dictionary_fallback known correction t = t.
Proof. intros H. unfold dictionary_fallback. rewrite H. reflexivity. Qed.

(** The fallback asks the dictionary for purely alphabetic tokens only: a
    word token with a hyphen that the dictionary does not know, and for
    which it has a suggestion, is emitted as it is. *)
Lemma hyphenated_unknown_word_is_kept :
  is_word "well-knwn" = true
  /\ _closest_proper Difflib.ratio "well-knwn" (94 # 100) = Ok None
  /\ no_known (Py.lower "well-knwn") = false
  /\ fixed_correction (Py.lower "well-knwn") = Some (str_of_string "well-known")
  /\ correct_spelling_with_stats Difflib.ratio no_known fixed_correction
       "well-knwn" true (94 # 100)
     = Ok (str_of_string "well-knwn", Stats 0 1 ∅).
Proof. repeat split; vm_compute; reflexivity. Qed.

(** C2.  On "i am karnataka", with a dictionary that knows "i" and "am",
    the normalizer returns "i am from Karnataka" and locks index 2; the
    token of the returned text at index 2 is "from". *)
Theorem lock_index_shifted_by_post_edit
    (known : str -> bool) (correction : str -> option str) :
  known "i" = true -> known "am" = true ->
  correct_spelling_with_stats Difflib.ratio known correction
    "i am karnataka" true (94 # 100)
  = Ok (str_of_string "i am from Karnataka",
        Stats 1 3 {[ 2%Z := str_of_string "Karnataka" ]})
  /\ _retok "i am from Karnataka" !! 2 = Some (str_of_string "from").
Proof.
  intros Hi Ham. split; [|vm_compute; reflexivity].
  unfold correct_spelling_with_stats.
  assert (enumerate (_retok (normalize_tokens "i am karnataka"))
          = [(0, str_of_string "i"); (1, str_of_string "am");
             (2, str_of_string "karnataka")]) as -> by (vm_compute; reflexivity).
  rewrite for_each_cons, loop_body_fallback by (vm_compute; reflexivity).
  rewrite (dictionary_fallback_known known correction "i") by exact Hi.
  cbv beta iota delta [mbind result_bind].
  rewrite for_each_cons, loop_body_fallback by (vm_compute; reflexivity).
  rewrite (dictionary_fallback_known known correction "am") by exact Ham.
  cbv beta iota delta [mbind result_bind].
  rewrite for_each_cons,
    (loop_body_locked Difflib.ratio known correction (94 # 100) _ 2 "karnataka"
       "Karnataka" state) by (vm_compute; reflexivity).
  cbv beta iota delta [mbind result_bind for_each].
  vm_compute. reflexivity.
Qed.

Lemma lock_index_shifted_by_post_edit_witness :
  correct_spelling_with_stats Difflib.ratio small_known small_correction
    "i am karnataka" true (94 # 100)
  = Ok (str_of_string "i am from Karnataka",
        Stats 1 3 {[ 2%Z := str_of_string "Karnataka" ]}).
Proof.
  apply (lock_index_shifted_by_post_edit small_known small_correction);
    vm_compute; reflexivity.
Defined.

(** The same with a canonical form of two words, whatever the dictionary:
    "andhrapradesh" is returned as "Andhra Pradesh" with index 0 locked to
    the whole name, and token 0 of the returned text is "Andhra". *)
Lemma lock_on_two_word_canonical
    (known : str -> bool) (correction : str -> option str) :
  correct_spelling_with_stats Difflib.ratio known correction
    "andhrapradesh" true (94 # 100)
  = Ok (str_of_string "Andhra Pradesh",
        Stats 1 1 {[ 0%Z := str_of_string "Andhra Pradesh" ]})
  /\ _retok "Andhra Pradesh" = map str_of_string ["Andhra"; "Pradesh"].
Proof. split; vm_compute; reflexivity. Qed.

(** What the shifted index does downstream: the guard overwrites "from". *)
Lemma guard_overwrites_the_inserted_word :
  GrammarCorrector.enforce_locked_proper_nouns
    "i am from Karnataka" "I am from Karnataka"
    {[ 2%Z := str_of_string "Karnataka" ]}
  = "I am Karnataka".
Proof. vm_compute. reflexivity. Qed.

End NormalizerClaims.

Section StudyClaims.

Import Re AcademicRules StudySpec PhraseSpec.

Ltac by_char c := destruct c as [[] [] [] [] [] [] [] []]; vm_compute; intuition congruence.



(** *** Prefixes *)










(** *** Word characters *)




(** *** The pattern of a phrase *)









(** *** The substitution of a phrase *)











(** *** What a replacement cannot bring about *)

















End StudyClaims.

(** ** The normalizer as a whole *)

Section NormalizerRun.

Import SpellChecker NormalizerSpec Examples.

Variable ratio : str -> str -> Q.
Variable known : str -> bool.
Variable correction : str -> option str.

Lemma lower_char_idempotent (c : ascii) :
  Py.lower_char (Py.lower_char c) = Py.lower_char c.
Proof. destruct c as [[] [] [] [] [] [] [] []]; vm_compute; reflexivity. Qed.

Lemma lower_idempotent (s : str) : Py.lower (Py.lower s) = Py.lower s.
Proof.
  unfold Py.lower. rewrite map_map. apply map_ext. intros c.
  apply lower_char_idempotent.
Qed.

Lemma get_close_matches_ok (word : str) (ps : list str) (n : nat) (cutoff : Q) :
  0 < n -> valid_cutoff cutoff = true ->
  exists l, Difflib.get_close_matches ratio word ps n cutoff = Ok l.
Proof.
  intros Hn Hv. unfold Difflib.get_close_matches.
  apply Nat.ltb_lt in Hn. rewrite Hn.
  unfold valid_cutoff in Hv. rewrite Hv. simpl. eauto.
Qed.

Lemma closest_proper_cases (token : str) (cutoff : Q) :
  _closest_proper ratio token cutoff
  = match Dict.get ALL_LEX (Py.lower token) with
    | Some canon => Ok (Some (canon, tag_of (Py.lower token)))
    | None =>
        found ← Difflib.get_close_matches ratio (Py.lower token)
                  (Dict.keys ALL_LEX) 1 cutoff;
        match found with
        | m :: _ =>
            strict ← (if is_person (tag_of m)
                      then Difflib.get_close_matches ratio (Py.lower token) [m] 1
                             (person_cutoff cutoff)
                      else Ok [m]);
            match strict with
            | [] => Ok None
            | _ :: _ =>
                match Dict.get ALL_LEX m with
                | Some canon => Ok (Some (canon, tag_of m))
                | None => Raise KeyError
                end
            end
        | [] => Ok None
        end
    end.
Proof. reflexivity. Qed.

Lemma closest_proper_ok (token : str) (cutoff : Q) :
  valid_cutoff cutoff = true ->
  exists r, _closest_proper ratio token cutoff = Ok r.
Proof.
  intros Hv. rewrite closest_proper_cases.
  destruct (Dict.get ALL_LEX (Py.lower token)) as [canon|]; [eauto|].
  destruct (get_close_matches_ok (Py.lower token) (Dict.keys ALL_LEX) 1 cutoff)
    as [found Hfound]; [lia|exact Hv|].
  rewrite Hfound. cbv beta iota delta [mbind result_bind].
  destruct found as [|m rest]; [eauto|].
  destruct (dict_get_of_key ALL_LEX m) as [canon Hcanon].
  { eapply get_close_matches_In; [exact Hfound|left; reflexivity]. }
  rewrite Hcanon.
  unfold valid_cutoff in Hv. apply andb_true_iff in Hv as [H0 H1].
  destruct (is_person (tag_of m)).
  - rewrite get_close_matches_single by (apply person_cutoff_valid; assumption).
    destruct (Qle_bool (person_cutoff cutoff) (ratio m (Py.lower token))); eauto.
  - eauto.
Qed.

(** X1.  With a cutoff outside the interval from 0 to 1, a word whose
    lower-case form is no key of the lexicon makes the matcher raise
    ValueError (the one of difflib.get_close_matches), whatever the
    similarity function. *)
Theorem matcher_rejects_invalid_cutoff (token : str) (cutoff : Q) :
  valid_cutoff cutoff = false ->
  Dict.get ALL_LEX (Py.lower token) = None ->
  _closest_proper ratio token cutoff = Raise ValueError.
Proof.
  intros Hv Hkey. rewrite closest_proper_cases, Hkey.
  unfold Difflib.get_close_matches. unfold valid_cutoff in Hv. rewrite Hv.
  reflexivity.
Qed.

(** X2.  Whatever the matcher returns, exactly or by similarity, is a
    canonical form stored in the lexicon, together with the category of a
    key it is stored under. *)
Theorem matcher_returns_lexicon_entries
    (token : str) (cutoff : Q) (canon : str) (tg : tag) :
  _closest_proper ratio token cutoff = Ok (Some (canon, tg)) ->
  exists key, Dict.get ALL_LEX key = Some canon /\ tg = tag_of key.
Proof.
  rewrite closest_proper_cases.
  destruct (Dict.get ALL_LEX (Py.lower token)) as [c|] eqn:Hkey.
  - intros [= <- <-]. eauto.
  - destruct (Difflib.get_close_matches ratio (Py.lower token) (Dict.keys ALL_LEX) 1 cutoff)
      as [found|e]; cbv beta iota delta [mbind result_bind]; [|discriminate].
    destruct found as [|m rest]; [discriminate|].
    destruct (if is_person (tag_of m)
              then Difflib.get_close_matches ratio (Py.lower token) [m] 1
                     (person_cutoff cutoff)
              else Ok [m]) as [strict|e]; [|discriminate].
    destruct strict; [discriminate|].
    destruct (Dict.get ALL_LEX m) as [c|] eqn:Hm; [|discriminate].
    intros [= <- <-]. eauto.
Qed.

Ltac split_inv := split; [|split; [|split; [|split; [|split]]]].

Lemma loop_invariant_start (cutoff : Q) :
  loop_invariant ratio cutoff [] (Loop [] ∅ 0 0).
Proof.
  split_inv; try reflexivity.
  - intros k canon H. cbn [locked_map] in H. rewrite lookup_empty in H. discriminate.
  - intros i t H. rewrite lookup_nil in H. discriminate.
Qed.

Lemma filter_word_snoc (toks : list str) (t : str) :
  length (List.filter is_word (toks ++ [t]))
  = length (List.filter is_word toks) + (if is_word t then 1 else 0).
Proof.
  rewrite List.filter_app, length_app. simpl. destruct (is_word t); reflexivity.
Qed.

Lemma loop_invariant_step (use_lexicon : bool) (cutoff : Q)
    (toks : list str) (t : str) (st st' : loop_state) :
  loop_invariant ratio cutoff toks st ->
  loop_body ratio known correction use_lexicon cutoff st (length toks, t) = Ok st' ->
  loop_invariant ratio cutoff (toks ++ [t]) st'.
Proof.
  intros (Hlen & Halpha & Hhits & Hle & Hlock & Hother) Hstep.
  unfold loop_invariant. unfold loop_body in Hstep.
  destruct (is_word t) eqn:Hword; cbv beta iota delta [negb] in Hstep.
  - destruct (if use_lexicon then _closest_proper ratio t cutoff else Ok None)
      as [m|e] eqn:Hm; cbv beta iota delta [mbind result_bind] in Hstep;
      [|discriminate].
    destruct m as [[canon tg]|]; injection Hstep as <-; cbn [fixed locked_map hits seen_alpha].
    + assert (locked_map st !! Z.of_nat (length toks) = None) as Hfresh.
      { destruct (locked_map st !! Z.of_nat (length toks)) as [c|] eqn:E; [|reflexivity].
        destruct (Hlock _ _ E) as (i & t0 & tg0 & Hk & Hi & _).
        apply Nat2Z.inj in Hk. subst i.
        apply lookup_lt_Some in Hi. lia. }
      assert (_closest_proper ratio t cutoff = Ok (Some (canon, tg))) as Hmatch.
      { destruct use_lexicon; [exact Hm|discriminate]. }
      split_inv.
      * rewrite !length_app, Hlen. reflexivity.
      * rewrite filter_word_snoc, Hword, Halpha. reflexivity.
      * rewrite map_size_insert_None by exact Hfresh. lia.
      * lia.
      * intros k c Hk.
        destruct (decide (k = Z.of_nat (length toks))) as [->|Hne].
        -- rewrite lookup_insert_eq in Hk. injection Hk as <-.
           exists (length toks), t, tg. repeat split; try assumption.
           ++ apply list_lookup_middle. reflexivity.
           ++ rewrite <- Hlen. apply list_lookup_middle. reflexivity.
        -- rewrite lookup_insert_ne in Hk by congruence.
           destruct (Hlock _ _ Hk) as (i & t0 & tg0 & -> & Hi & Hw & Hf & Hc).
           exists i, t0, tg0. repeat split; try assumption.
           ++ apply lookup_app_l_Some, Hi.
           ++ apply lookup_app_l_Some, Hf.
      * intros i t0 Hi Hw.
        destruct (decide (i = length toks)) as [->|Hne].
        -- rewrite list_lookup_middle in Hi by reflexivity. injection Hi as <-. congruence.
        -- assert (i < length toks) as Hlt.
           { apply lookup_lt_Some in Hi. rewrite length_app in Hi. simpl in Hi. lia. }
           rewrite lookup_app_l in Hi by exact Hlt.
           rewrite lookup_app_l by lia. apply Hother; assumption.
    + split_inv.
      * rewrite !length_app, Hlen. reflexivity.
      * rewrite filter_word_snoc, Hword, Halpha. reflexivity.
      * exact Hhits.
      * lia.
      * intros k c Hk.
        destruct (Hlock _ _ Hk) as (i & t0 & tg0 & -> & Hi & Hw & Hf & Hc).
        exists i, t0, tg0. repeat split; try assumption.
        -- apply lookup_app_l_Some, Hi.
        -- apply lookup_app_l_Some, Hf.
      * intros i t0 Hi Hw.
        destruct (decide (i = length toks)) as [->|Hne].
        -- rewrite list_lookup_middle in Hi by reflexivity. injection Hi as <-. congruence.
        -- assert (i < length toks) as Hlt.
           { apply lookup_lt_Some in Hi. rewrite length_app in Hi. simpl in Hi. lia. }
           rewrite lookup_app_l in Hi by exact Hlt.
           rewrite lookup_app_l by lia. apply Hother; assumption.
  - injection Hstep as <-. cbn [fixed locked_map hits seen_alpha].
    split_inv.
    + rewrite !length_app, Hlen. reflexivity.
    + rewrite filter_word_snoc, Hword, Halpha. lia.
    + exact Hhits.
    + exact Hle.
    + intros k c Hk.
      destruct (Hlock _ _ Hk) as (i & t0 & tg0 & -> & Hi & Hw & Hf & Hc).
      exists i, t0, tg0. repeat split; try assumption.
      * apply lookup_app_l_Some, Hi.
      * apply lookup_app_l_Some, Hf.
    + intros i t0 Hi Hw.
      destruct (decide (i = length toks)) as [->|Hne].
      * rewrite list_lookup_middle in Hi by reflexivity. injection Hi as <-.
        rewrite <- Hlen. apply list_lookup_middle. reflexivity.
      * assert (i < length toks) as Hlt.
        { apply lookup_lt_Some in Hi. rewrite length_app in Hi. simpl in Hi. lia. }
        rewrite lookup_app_l in Hi by exact Hlt.
        rewrite lookup_app_l by lia. apply Hother; assumption.
Qed.

Lemma loop_invariant_run (use_lexicon : bool) (cutoff : Q) (l : list str) :
  forall (pre : list str) (st st' : loop_state),
    loop_invariant ratio cutoff pre st ->
    for_each (loop_body ratio known correction use_lexicon cutoff)
             (combine (seq (length pre) (length l)) l) st = Ok st' ->
    loop_invariant ratio cutoff (pre ++ l) st'.
Proof.
  induction l as [|t l IH]; intros pre st st' Hinv Hrun.
  - simpl in Hrun. injection Hrun as <-. rewrite app_nil_r. exact Hinv.
  - cbn [length seq combine] in Hrun. rewrite for_each_cons in Hrun.
    destruct (loop_body ratio known correction use_lexicon cutoff st (length pre, t))
      as [st1|e] eqn:Hstep; cbv beta iota delta [mbind result_bind] in Hrun;
      [|discriminate].
    pose proof (loop_invariant_step _ _ _ _ _ _ Hinv Hstep) as Hinv1.
    specialize (IH (pre ++ [t]) st1 st' Hinv1).
    rewrite length_app in IH. simpl in IH.
    replace (length pre + 1) with (S (length pre)) in IH by lia.
    rewrite <- List.app_assoc in IH. apply IH, Hrun.
Qed.

(** What a successful run of the normalizer leaves behind. *)
Lemma normalizer_run (text : str) (use_lexicon : bool) (cutoff : Q)
    (out : str) (stats : stats) :
  correct_spelling_with_stats ratio known correction text use_lexicon cutoff
  = Ok (out, stats) ->
  exists st,
    loop_invariant ratio cutoff (_retok (normalize_tokens text)) st
    /\ out = _light_post_edits (_smart_join (fixed st))
    /\ stats = Stats (hits st) (seen_alpha st) (locked_map st).
Proof.
  unfold correct_spelling_with_stats, enumerate.
  destruct (for_each (loop_body ratio known correction use_lexicon cutoff)
              (combine (seq 0 (length (_retok (normalize_tokens text))))
                       (_retok (normalize_tokens text)))
              (Loop [] ∅ 0 0)) as [st|e] eqn:Hrun;
    cbv beta iota delta [mbind result_bind]; [|discriminate].
  intros [= <- <-]. exists st. split; [|split; reflexivity].
  exact (loop_invariant_run use_lexicon cutoff _ [] _ _
           (loop_invariant_start cutoff) Hrun).
Qed.

(** X3.  In the statistics of a run, alpha_tokens counts the word tokens
    of the normalized text, lexicon_hits is the number of locked
    positions, and lexicon_hits never exceeds alpha_tokens. *)
Theorem stats_accounting (text : str) (use_lexicon : bool) (cutoff : Q)
    (out : str) (stats : stats) :
  correct_spelling_with_stats ratio known correction text use_lexicon cutoff
  = Ok (out, stats) ->
  alpha_tokens stats = length (List.filter is_word (_retok (normalize_tokens text)))
  /\ lexicon_hits stats = size (locked_positions stats)
  /\ lexicon_hits stats <= alpha_tokens stats.
Proof.
  intros H. destruct (normalizer_run _ _ _ _ _ H)
    as (st & (_ & Halpha & Hhits & Hle & _) & _ & ->).
  cbn [alpha_tokens lexicon_hits locked_positions]. auto.
Qed.

(** X4.  Every locked position is the index of a word token of the
    normalized text, and its canonical form is what the matcher returned
    for that token. *)
Theorem locks_are_matched_words (text : str) (use_lexicon : bool) (cutoff : Q)
    (out : str) (stats : stats) (k : Z) (canon : str) :
  correct_spelling_with_stats ratio known correction text use_lexicon cutoff
  = Ok (out, stats) ->
  locked_positions stats !! k = Some canon ->
  exists i t tg,
    k = Z.of_nat i
    /\ _retok (normalize_tokens text) !! i = Some t
    /\ is_word t = true
    /\ _closest_proper ratio t cutoff = Ok (Some (canon, tg)).
Proof.
  intros H Hk. destruct (normalizer_run _ _ _ _ _ H)
    as (st & (_ & _ & _ & _ & Hlock & _) & _ & ->).
  cbn [locked_positions] in Hk.
  destruct (Hlock _ _ Hk) as (i & t & tg & Hi & Ht & Hw & _ & Hc).
  exists i, t, tg. auto.
Qed.

(** X5.  The returned text is the post-edited join of one output token for
    each input token: a token that is no word is passed through unchanged
    and the token at a locked position is its canonical form. *)
Theorem normalizer_output_tokens (text : str) (use_lexicon : bool) (cutoff : Q)
    (out : str) (stats : stats) :
  correct_spelling_with_stats ratio known correction text use_lexicon cutoff
  = Ok (out, stats) ->
  exists fixed : list str,
    out = _light_post_edits (_smart_join fixed)
    /\ length fixed = length (_retok (normalize_tokens text))
    /\ (forall i t,
           _retok (normalize_tokens text) !! i = Some t -> is_word t = false ->
           fixed !! i = Some t)
    /\ (forall i canon,
           locked_positions stats !! Z.of_nat i = Some canon ->
           fixed !! i = Some canon).
Proof.
  intros H. destruct (normalizer_run _ _ _ _ _ H)
    as (st & (Hlen & _ & _ & _ & Hlock & Hother) & -> & ->).
  exists (fixed st). repeat split; try assumption.
  intros i canon Hk. cbn [locked_positions] in Hk.
  destruct (Hlock _ _ Hk) as (j & t & tg & Hj & _ & _ & Hf & _).
  apply Nat2Z.inj in Hj. subst j. exact Hf.
Qed.

Lemma loop_body_ok (use_lexicon : bool) (cutoff : Q)
    (st : loop_state) (it : nat * str) :
  valid_cutoff cutoff = true ->
  exists st', loop_body ratio known correction use_lexicon cutoff st it = Ok st'.
Proof.
  intros Hv. destruct it as [idx t]. unfold loop_body.
  destruct (is_word t); cbv beta iota delta [negb]; [|eauto].
  destruct use_lexicon.
  - destruct (closest_proper_ok t cutoff Hv) as [[[canon tg]|] ->];
      cbv beta iota delta [mbind result_bind]; eauto.
  - cbv beta iota delta [mbind result_bind]. eauto.
Qed.

Lemma for_each_ok {S A : Type} (body : S -> A -> result S) (l : list A) :
  (forall st x, exists st', body st x = Ok st') ->
  forall st, exists st', for_each body l st = Ok st'.
Proof.
  intros Hbody. induction l as [|x l IH]; intros st; [simpl; eauto|].
  rewrite for_each_cons. destruct (Hbody st x) as [st1 ->].
  cbv beta iota delta [mbind result_bind]. apply IH.
Qed.

(** X6.  With a cutoff between 0 and 1 the normalizer raises nothing: it
    returns a text and statistics for every input, dictionary and
    similarity function. *)
Theorem normalizer_total_on_valid_cutoff
    (text : str) (use_lexicon : bool) (cutoff : Q) :
  valid_cutoff cutoff = true ->
  exists out stats,
    correct_spelling_with_stats ratio known correction text use_lexicon cutoff
    = Ok (out, stats).
Proof.
  intros Hv. unfold correct_spelling_with_stats.
  destruct (for_each_ok (loop_body ratio known correction use_lexicon cutoff)
              (enumerate (_retok (normalize_tokens text)))
              (fun st x => loop_body_ok use_lexicon cutoff st x Hv)
              (Loop [] ∅ 0 0)) as [st ->].
  cbv beta iota delta [mbind result_bind]. eauto.
Qed.

Lemma dictionary_only_step (cutoff : Q) (st : loop_state) (idx : nat) (t : str) :
  exists st',
    loop_body ratio known correction false cutoff st (idx, t) = Ok st'
    /\ locked_map st' = locked_map st /\ hits st' = hits st.
Proof.
  unfold loop_body.
  destruct (is_word t); cbv beta iota zeta delta [negb mbind result_bind];
    eexists; (split; [reflexivity|split; reflexivity]).
Qed.

Lemma dictionary_only_loop (cutoff : Q) (l : list (nat * str)) :
  forall st,
    exists st',
      for_each (loop_body ratio known correction false cutoff) l st = Ok st'
      /\ locked_map st' = locked_map st /\ hits st' = hits st.
Proof.
  induction l as [|[idx t] l IH]; intros st; [simpl; eauto|].
  rewrite for_each_cons.
  destruct (dictionary_only_step cutoff st idx t) as (st1 & -> & Hl1 & Hh1).
  cbv beta iota delta [mbind result_bind].
  destruct (IH st1) as (st' & -> & Hl & Hh).
  exists st'. rewrite Hl, Hh. auto.
Qed.

(** X7.  With use_lexicon switched off nothing is locked and nothing is
    raised, whatever the cutoff, valid or not: zero hits and an empty lock
    map. *)
Theorem dictionary_only_mode (text : str) (cutoff : Q) :
  exists out alpha,
    correct_spelling_with_stats ratio known correction text false cutoff
    = Ok (out, Stats 0 alpha ∅).
Proof.
  unfold correct_spelling_with_stats.
  destruct (dictionary_only_loop cutoff (enumerate (_retok (normalize_tokens text)))
              (Loop [] ∅ 0 0)) as (st & -> & Hl & Hh).
  cbv beta iota delta [mbind result_bind].
  cbn [locked_map hits] in Hl, Hh. rewrite Hl, Hh. eauto.
Qed.

End NormalizerRun.

Section NormalizerWitnesses.

Import SpellChecker NormalizerSpec Examples.

Lemma matcher_rejects_invalid_cutoff_witness :
  _closest_proper Difflib.ratio "xyz" (3 # 2) = Raise ValueError.
Proof.
  apply (matcher_rejects_invalid_cutoff Difflib.ratio "xyz" (3 # 2));
    vm_compute; reflexivity.
Defined.

Lemma matcher_returns_lexicon_entries_witness :
  exists key,
    Dict.get ALL_LEX key = Some (str_of_string "Karnataka") /\ state = tag_of key.
Proof.
  apply (matcher_returns_lexicon_entries Difflib.ratio "karnatakaa" (94 # 100)).
  vm_compute. reflexivity.
Defined.

Lemma small_run :
  correct_spelling_with_stats Difflib.ratio small_known small_correction
    "i am karnataka , ok" true (94 # 100)
  = Ok (str_of_string "i am from Karnataka, ok",
        Stats 1 4 {[ 2%Z := str_of_string "Karnataka" ]}).
Proof. vm_compute. reflexivity. Qed.

Lemma stats_accounting_witness :
  4 = length (List.filter is_word (_retok (normalize_tokens "i am karnataka , ok")))
  /\ 1 = size ({[ 2%Z := str_of_string "Karnataka" ]} : gmap Z str)
  /\ 1 <= 4.
Proof.
  exact (stats_accounting Difflib.ratio small_known small_correction
           "i am karnataka , ok" true (94 # 100) _ _ small_run).
Defined.

Lemma locks_are_matched_words_witness :
  exists i t tg,
    2%Z = Z.of_nat i
    /\ _retok (normalize_tokens "i am karnataka , ok") !! i = Some t
    /\ is_word t = true
    /\ _closest_proper Difflib.ratio t (94 # 100)
       = Ok (Some (str_of_string "Karnataka", tg)).
Proof.
  apply (locks_are_matched_words Difflib.ratio small_known small_correction
           "i am karnataka , ok" true (94 # 100) _ _ 2%Z "Karnataka" small_run).
  vm_compute. reflexivity.
Defined.

Lemma normalizer_output_tokens_witness :
  exists fixed : list str,
    str_of_string "i am from Karnataka, ok" = _light_post_edits (_smart_join fixed)
    /\ length fixed = length (_retok (normalize_tokens "i am karnataka , ok"))
    /\ (forall i t,
           _retok (normalize_tokens "i am karnataka , ok") !! i = Some t ->
           is_word t = false -> fixed !! i = Some t)
    /\ (forall i canon,
           ({[ 2%Z := str_of_string "Karnataka" ]} : gmap Z str) !! Z.of_nat i
           = Some canon ->
           fixed !! i = Some canon).
Proof.
  exact (normalizer_output_tokens Difflib.ratio small_known small_correction
           "i am karnataka , ok" true (94 # 100) _ _ small_run).
Defined.

Lemma normalizer_total_on_valid_cutoff_witness :
  exists out stats,
    correct_spelling_with_stats Difflib.ratio small_known small_correction
      "i am karnataka" true (94 # 100) = Ok (out, stats).
Proof.
  apply (normalizer_total_on_valid_cutoff Difflib.ratio small_known small_correction).
  vm_compute. reflexivity.
Defined.

End NormalizerWitnesses.

(** ** The shape of the tokens and the round trip *)

Section TokenShapes.

Import Re SpellChecker TokenSpec TokenShape.

Lemma first_token_shorter (s t r : str) :
  first_token s = Some (t, r) -> length r < length s.
Proof.
  intros F. destruct (first_token_split _ _ _ F) as [-> [c [t' ->]]].
  rewrite length_app. simpl. lia.
Qed.

Lemma first_token_shape (s t r : str) :
  first_token s = Some (t, r) -> token_shape t = true.
Proof.
  destruct s as [|c s]; [discriminate|]. unfold first_token, kind_of.
  destruct (letter c) eqn:L; [|destruct (Py.is_09 c) eqn:D;
                                [|destruct (punct c) eqn:P]];
    intros [= <- <-]; unfold token_shape.
  - rewrite L, take_run_all. reflexivity.
  - cbn [forallb]. rewrite D, take_run_all. simpl. rewrite orb_true_r. reflexivity.
  - rewrite P. simpl. apply orb_true_r.
Qed.

Lemma retok_shape_bounded (n : nat) :
  forall s : str,
    length s <= n -> Forall (fun t => token_shape t = true) (_retok s).
Proof.
  induction n as [|n IH]; intros s Hlen.
  - destruct s; [constructor|simpl in Hlen; lia].
  - destruct s as [|c r]; [constructor|]. simpl in Hlen.
    destruct (first_token (c :: r)) as [[t r']|] eqn:F.
    + rewrite (retok_token _ _ _ F). constructor.
      * exact (first_token_shape _ _ _ F).
      * apply IH. pose proof (first_token_shorter _ _ _ F) as H. simpl in H. lia.
    + rewrite (retok_skip _ _ F). apply IH. lia.
Qed.

(** X8.  Every token is a word (an ASCII letter followed by letters,
    hyphens and apostrophes), a number (a run of digits) or one character
    that is neither a word character nor white space. *)
Theorem tokens_have_three_shapes (s : str) :
  Forall (fun t => token_shape t = true) (_retok s).
Proof. apply (retok_shape_bounded (length s)). lia. Qed.

Lemma run_stops_at (p : ascii -> bool) (sp : ascii) (r b : str) :
  p sp = false ->
  take_run p (r ++ sp :: b) = take_run p r
  /\ drop_run p (r ++ sp :: b) = drop_run p r ++ sp :: b.
Proof.
  intros Hsp. induction r as [|c r [IHt IHd]]; simpl.
  - rewrite Hsp. auto.
  - destruct (p c); [rewrite IHt, IHd|]; auto.
Qed.

Lemma first_token_before_space (sp : ascii) (c : ascii) (r b : str) :
  cls_s [] sp = true ->
  first_token (c :: r ++ sp :: b)
  = match first_token (c :: r) with
    | Some (t, r') => Some (t, r' ++ sp :: b)
    | None => None
    end.
Proof.
  intros Hsp. destruct (space_facts sp Hsp) as [L [D P]].
  unfold first_token. destruct (kind_of c); try reflexivity.
  - assert (letter_hyphen_quote sp = false) as H.
    { destruct (letter_hyphen_quote sp) eqn:E; [|reflexivity].
      destruct (hyphen_quote_facts sp E) as [S _]. congruence. }
    destruct (run_stops_at letter_hyphen_quote sp r b H) as [-> ->]. reflexivity.
  - destruct (run_stops_at Py.is_09 sp r b D) as [-> ->]. reflexivity.
Qed.

Lemma retok_space_bounded (sp : ascii) (b : str) (n : nat) :
  cls_s [] sp = true ->
  forall a : str,
    length a <= n -> _retok (a ++ sp :: b) = _retok a ++ _retok b.
Proof.
  intros Hsp. induction n as [|n IH]; intros a Hlen.
  - destruct a; [|simpl in Hlen; lia]. simpl.
    apply retok_skip, first_token_space, Hsp.
  - destruct a as [|c r].
    + simpl. apply retok_skip, first_token_space, Hsp.
    + simpl in Hlen. cbn [app].
      pose proof (first_token_before_space sp c r b Hsp) as F.
      destruct (first_token (c :: r)) as [[t r']|] eqn:F0.
      * rewrite (retok_token _ _ _ F), (retok_token _ _ _ F0). simpl. f_equal.
        apply IH. pose proof (first_token_shorter _ _ _ F0) as H. simpl in H. lia.
      * rewrite (retok_skip _ _ F), (retok_skip _ _ F0). apply IH. lia.
Qed.

(** X9.  White space separates tokens and is dropped: the tokens of a text
    with a white-space character in it are the tokens of the part before
    it followed by the tokens of the part after it. *)
Theorem tokens_split_at_white_space (a b : str) (sp : ascii) :
  cls_s [] sp = true ->
  _retok (a ++ sp :: b) = _retok a ++ _retok b.
Proof. intros Hsp. apply (retok_space_bounded sp b (length a) Hsp). lia. Qed.

Lemma tokens_split_at_white_space_witness :
  _retok ("I live" ++ " "%char :: "in Goa") = _retok "I live" ++ _retok "in Goa".
Proof. apply tokens_split_at_white_space. reflexivity. Defined.

(** *** [strip] *)

Lemma lstrip_idempotent (s : str) : Py.lstrip (Py.lstrip s) = Py.lstrip s.
Proof.
  induction s as [|c r IH]; [reflexivity|]. simpl.
  destruct (Py.isspace_char c) eqn:E; [exact IH|]. simpl. rewrite E. reflexivity.
Qed.

Lemma lstrip_snoc (l : str) (x : ascii) :
  Py.isspace_char x = false -> Py.lstrip (l ++ [x]) = Py.lstrip l ++ [x].
Proof.
  intros Hx. induction l as [|c l IH]; simpl.
  - rewrite Hx. reflexivity.
  - destruct (Py.isspace_char c); [exact IH|reflexivity].
Qed.

Lemma rstrip_cons (x : ascii) (u : str) :
  Py.isspace_char x = false -> Py.rstrip (x :: u) = x :: Py.rstrip u.
Proof.
  intros Hx. unfold Py.rstrip. simpl. rewrite lstrip_snoc by exact Hx.
  rewrite rev_app_distr. reflexivity.
Qed.

Lemma rstrip_idempotent (s : str) : Py.rstrip (Py.rstrip s) = Py.rstrip s.
Proof.
  unfold Py.rstrip. rewrite rev_involutive, lstrip_idempotent. reflexivity.
Qed.

Lemma lstrip_rstrip (u : str) :
  Py.lstrip u = u -> Py.lstrip (Py.rstrip u) = Py.rstrip u.
Proof.
  destruct u as [|x u]; [reflexivity|]. simpl.
  destruct (Py.isspace_char x) eqn:E.
  - intros H. exfalso.
    assert (length (Py.lstrip u) <= length u) as Hle.
    { clear. induction u as [|c u IH]; simpl; [lia|].
      destruct (Py.isspace_char c); simpl; lia. }
    rewrite H in Hle. simpl in Hle. lia.
  - intros _. rewrite rstrip_cons by exact E. simpl. rewrite E. reflexivity.
Qed.

Lemma strip_idempotent (s : str) : Py.strip (Py.strip s) = Py.strip s.
Proof.
  unfold Py.strip.
  rewrite (lstrip_rstrip (Py.lstrip s)) by apply lstrip_idempotent.
  apply rstrip_idempotent.
Qed.

(** X10.  Both joiners return a text without leading or trailing white
    space. *)
Theorem joiners_return_stripped_text (tokens : list str) :
  Py.strip (_smart_join tokens) = _smart_join tokens
  /\ Py.strip (GrammarCorrector._smart_join tokens) = GrammarCorrector._smart_join tokens.
Proof.
  rewrite joiners_agree. unfold _smart_join.
  split; apply strip_idempotent.
Qed.

(** *** Reading a join back *)

Lemma shape_nonspace (t : str) :
  token_shape t = true -> forallb nonspace t = true /\ exists c r, t = c :: r.
Proof.
  destruct t as [|c r]; [discriminate|]. unfold token_shape.
  intros H. split; [|eauto].
  apply orb_true_iff in H as [H|H]; [apply orb_true_iff in H as [H|H]|].
  - apply andb_true_iff in H as [L Hr].
    destruct (letter_facts c L) as [_ [_ [S _]]]. simpl.
    unfold nonspace at 1. rewrite S. simpl.
    apply (forallb_weaken letter_hyphen_quote); [|exact Hr].
    intros x Hx. destruct (hyphen_quote_facts x Hx) as [Sx _].
    unfold nonspace. rewrite Sx. reflexivity.
  - apply (forallb_weaken Py.is_09); [|exact H].
    intros x Hx. destruct (digit_facts x Hx) as [_ [_ [Sx _]]].
    unfold nonspace. rewrite Sx. reflexivity.
  - apply andb_true_iff in H as [P Hr]. destruct r; [|discriminate].
    destruct (punct_facts c P) as [_ [_ [S _]]]. simpl.
    unfold nonspace. rewrite S. reflexivity.
Qed.

Lemma separable_shapes (tokens : list str) :
  separable tokens = true -> Forall (fun t => token_shape t = true) tokens.
Proof.
  induction tokens as [|t ts IH]; [constructor|]. simpl. intros H.
  apply andb_true_iff in H as [H Hts]. apply andb_true_iff in H as [Ht _].
  constructor; [exact Ht|apply IH, Hts].
Qed.

Lemma tidy_glue (tokens : list str) :
  Forall (fun t => token_shape t = true) tokens ->
  forall b, tidy (glue b tokens) = true.
Proof.
  induction 1 as [|t ts Ht Hts IH]; intros b; [reflexivity|].
  destruct (shape_nonspace t Ht) as [Hns [c [r ->]]].
  cbn [glue Py.truthy]. rewrite orb_true_r.
  assert (tidy ((c :: r) ++ glue true ts) = true) as Htidy
      by (apply tidy_app_nonspace; [exact Hns|apply IH]).
  destruct (starts_alnum (c :: r) && b) eqn:E; [|exact Htidy].
  apply andb_true_iff in E as [E _].
  apply tidy_space; [exact E|exact Htidy].
Qed.

Lemma lstrip_glue (tokens : list str) :
  Forall (fun t => token_shape t = true) tokens ->
  Py.lstrip (glue false tokens) = glue false tokens.
Proof.
  intros H. destruct H as [|t ts Ht Hts]; [reflexivity|].
  destruct (shape_nonspace t Ht) as [Hns [c [r ->]]].
  cbn [glue]. rewrite andb_false_r. simpl in *.
  apply andb_true_iff in Hns as [Hc _]. unfold nonspace in Hc.
  apply negb_true_iff in Hc.
  change (Py.isspace_char c) with (cls_s [] c). rewrite Hc. reflexivity.
Qed.

Lemma smart_join_glue (tokens : list str) :
  Forall (fun t => token_shape t = true) tokens ->
  _smart_join tokens = glue false tokens.
Proof.
  intros H. unfold _smart_join. rewrite fold_join. cbn [app Py.truthy].
  pose proof (tidy_glue tokens H false) as Htidy.
  rewrite (sub_tidy _ _ Htidy). unfold Py.strip.
  rewrite (lstrip_glue tokens H). apply rstrip_tidy, Htidy.
Qed.

(** The text glued after a token starts with a space or with a mark:
    no run of digits, and under [separable] no word, goes on into it. *)
Lemma glue_head (tokens : list str) :
  Forall (fun t => token_shape t = true) tokens ->
  match glue true tokens with
  | [] => True
  | d :: _ =>
      Py.is_09 d = false /\ letter d = false
      /\ (letter_hyphen_quote d = true ->
          exists ts, tokens = [d] :: ts)
  end.
Proof.
  intros H. destruct H as [|t ts Ht Hts]; [exact I|].
  destruct (shape_nonspace t Ht) as [_ [c [r ->]]].
  cbn [glue starts_alnum]. rewrite andb_true_r.
  destruct (letter_digit c) eqn:LD; cbn [app].
  - repeat split; try reflexivity. discriminate.
  - unfold token_shape in Ht.
    assert (letter c = false /\ Py.is_09 c = false) as [L D].
    { split.
      - destruct (letter c) eqn:L; [|reflexivity].
        destruct (letter_facts c L) as [_ [_ [_ [_ X]]]]. congruence.
      - destruct (Py.is_09 c) eqn:D; [|reflexivity].
        destruct (digit_facts c D) as [_ [_ [_ [_ X]]]]. congruence. }
    rewrite L in Ht. cbn [forallb andb orb] in Ht. rewrite D in Ht.
    cbn [andb orb] in Ht. apply andb_true_iff in Ht as [_ Hr].
    destruct r; [|discriminate]. repeat split; try assumption. eauto.
Qed.

Lemma retok_glue (tokens : list str) :
  separable tokens = true ->
  forall b, _retok (glue b tokens) = tokens.
Proof.
  induction tokens as [|t ts IH]; intros Hsep b; [reflexivity|].
  pose proof (separable_shapes _ Hsep) as Hshapes.
  simpl in Hsep. apply andb_true_iff in Hsep as [Hsep Hts].
  apply andb_true_iff in Hsep as [Ht Hnext].
  apply negb_true_iff in Hnext.
  inversion Hshapes as [|? ? _ Hshapes_ts]; subst.
  pose proof (glue_head ts Hshapes_ts) as Hhead.
  specialize (IH Hts true).
  destruct (shape_nonspace t Ht) as [_ [c [r ->]]].
  cbn [glue Py.truthy]. rewrite orb_true_r.
  assert (_retok ((c :: r) ++ glue true ts) = (c :: r) :: ts) as Hin.
  { set (rest := glue true ts) in *.
    unfold token_shape in Ht. cbn [app].
    destruct (letter c) eqn:L.
    - cbn [andb orb] in Ht. simpl in Hnext.
      assert (forallb letter_hyphen_quote r = true) as Hr.
      { destruct (forallb letter_hyphen_quote r) eqn:E; [reflexivity|].
        cbn [orb] in Ht. destruct (letter_facts c L) as [D [P _]].
        cbn [forallb] in Ht. rewrite D, P in Ht. discriminate. }
      rewrite (retok_token _ _ _ (first_token_letter c (r ++ rest) L)).
      rewrite take_run_app, drop_run_app by exact Hr.
      assert (take_run letter_hyphen_quote rest = []
              /\ drop_run letter_hyphen_quote rest = rest) as [-> ->].
      { destruct rest as [|d rest']; [auto|].
        destruct Hhead as (_ & Ld & Hhq). simpl.
        destruct (letter_hyphen_quote d) eqn:E; [|auto].
        destruct (Hhq eq_refl) as [ts' ->].
        simpl in Hnext. rewrite E, Ld, L in Hnext. simpl in Hnext. discriminate. }
      rewrite app_nil_r. f_equal. exact IH.
    - cbn [andb orb] in Ht.
      destruct (Py.is_09 c) eqn:D.
      + assert (forallb Py.is_09 r = true) as Hr.
        { cbn [forallb] in Ht. rewrite D in Ht. cbn [andb] in Ht.
          destruct (forallb Py.is_09 r) eqn:E; [reflexivity|].
          destruct (digit_facts c D) as [_ [P _]]. rewrite P in Ht. discriminate. }
        rewrite (retok_token _ _ _ (first_token_digit c (r ++ rest) D)).
        rewrite take_run_app, drop_run_app by exact Hr.
        assert (take_run Py.is_09 rest = [] /\ drop_run Py.is_09 rest = rest)
          as [-> ->].
        { destruct rest as [|d rest']; [auto|].
          destruct Hhead as (Dd & _). simpl. rewrite Dd. auto. }
        rewrite app_nil_r. f_equal. exact IH.
      + cbn [forallb] in Ht. rewrite D in Ht. cbn [andb orb] in Ht.
        apply andb_true_iff in Ht as [P Hr]. destruct r; [|discriminate].
        cbn [app]. rewrite (retok_token _ _ _ (first_token_punct c rest P)).
        f_equal. exact IH. }
  destruct (starts_alnum (c :: r) && b); [|exact Hin].
  cbn [app].
  rewrite (retok_skip " "%char _ (first_token_space " "%char _ eq_refl)).
  exact Hin.
Qed.

(** X11.  Round trip.  The tokenizer reads a list of tokens back from its
    join, when every token is a word of ASCII letters, hyphens and
    apostrophes, a number written with the ASCII digits 0 to 9 or a
    single mark, and no word is directly followed by a hyphen or an
    apostrophe standing alone (which the join would glue to the word). *)
Theorem tokenizer_reads_back_join (tokens : list str) :
  separable tokens = true -> _retok (_smart_join tokens) = tokens.
Proof.
  intros H. rewrite (smart_join_glue _ (separable_shapes _ H)).
  apply retok_glue, H.
Qed.

Lemma tokenizer_reads_back_join_witness :
  _retok (_smart_join (map str_of_string ["I"; "live"; "in"; "Goa"; ","; "ok"; "!"]))
  = map str_of_string ["I"; "live"; "in"; "Goa"; ","; "ok"; "!"].
Proof. apply tokenizer_reads_back_join. vm_compute. reflexivity. Defined.

End TokenShapes.

(** ** More on the walk and on the removal of duplicates *)

Section GuardWalk.

Import GrammarCorrector GuardSpec.

Lemma lockstep_lookup (lock : gmap Z str) (src : list str) :
  forall (tgt : list str) (i0 j : nat),
    lockstep i0 src tgt lock !! j
    = match src !! j, tgt !! j with
      | Some s, Some t =>
          Some (match lock !! Z.of_nat (i0 + j) with
                | Some canon => if is_word s && is_word t then canon else t
                | None => t
                end)
      | _, _ => tgt !! j
      end.
Proof.
  induction src as [|s src IH]; intros tgt i0 j.
  - destruct tgt, j; reflexivity.
  - destruct tgt as [|t tgt]; simpl.
    + destruct j; simpl; [reflexivity|]. destruct (src !! j); reflexivity.
    + destruct j as [|j]; simpl.
      * rewrite Nat.add_0_r. reflexivity.
      * rewrite IH. replace (S i0 + j) with (i0 + S j) by lia. reflexivity.
Qed.

Lemma walk_result (src tgt : list str) (lock : gmap Z str) :
  let st := walk (length tgt) src tgt lock (Walk 0 0 []) in
  wout st ++ skipn (wj st) tgt = lockstep 0 src tgt lock.
Proof.
  exact (walk_refines_lockstep src tgt lock (length tgt) 0 [] ltac:(lia)).
Qed.

(** X12.  The walk of the guard leaves the token of the rewritten text as
    it is at every index that is not locked, or where that token is no
    word, or past the end of the locked text. *)
Theorem walk_leaves_other_tokens
    (locked_text rewritten : str) (lock : gmap Z str) (i : nat) (t : str) :
  let src := _simple_tokens locked_text in
  let tgt := _simple_tokens rewritten in
  let st := walk (length tgt) src tgt lock (Walk 0 0 []) in
  tgt !! i = Some t ->
  lock !! Z.of_nat i = None \/ is_word t = false \/ length src <= i ->
  (wout st ++ skipn (wj st) tgt) !! i = Some t.
Proof.
  intros src tgt st Ht Hcase. unfold st. rewrite walk_result.
  rewrite lockstep_lookup, Ht. simpl.
  destruct (src !! i) as [s|] eqn:Hs; [|reflexivity].
  destruct Hcase as [->|[Hw|Hlen]]; [reflexivity| |].
  - rewrite Hw, andb_false_r. destruct (lock !! Z.of_nat i); reflexivity.
  - apply lookup_lt_Some in Hs. lia.
Qed.

Lemma walk_leaves_other_tokens_witness :
  let src := _simple_tokens "I live in Jodhpur" in
  let tgt := _simple_tokens "I live in jodhpur now" in
  let lock : gmap Z str := {[ 3%Z := str_of_string "Jodhpur" ]} in
  let st := walk (length tgt) src tgt lock (Walk 0 0 []) in
  (wout st ++ skipn (wj st) tgt) !! 4 = Some (str_of_string "now").
Proof.
  apply (walk_leaves_other_tokens "I live in Jodhpur" "I live in jodhpur now"
           {[ 3%Z := str_of_string "Jodhpur" ]} 4 "now").
  - vm_compute. reflexivity.
  - left. vm_compute. reflexivity.
Defined.

(** X13.  When the rewritten text is the locked text itself and every lock
    holds the word that already stands at its index, the walk gives the
    tokens back unchanged. *)
Theorem accurate_locks_change_nothing (text : str) (lock : gmap Z str) :
  let toks := _simple_tokens text in
  let st := walk (length toks) toks toks lock (Walk 0 0 []) in
  (forall i canon t,
      lock !! Z.of_nat i = Some canon -> toks !! i = Some t -> is_word t = true ->
      canon = t) ->
  wout st ++ skipn (wj st) toks = toks.
Proof.
  intros toks st Hacc. unfold st. rewrite walk_result.
  apply list_eq. intros i. rewrite lockstep_lookup. simpl.
  destruct (toks !! i) as [t|] eqn:Ht; [|reflexivity].
  destruct (lock !! Z.of_nat i) as [canon|] eqn:Hl; [|reflexivity].
  destruct (is_word t) eqn:Hw; [|reflexivity]. simpl.
  rewrite (Hacc i canon t Hl Ht Hw). reflexivity.
Qed.

Lemma accurate_locks_change_nothing_witness :
  let toks := _simple_tokens "I live in Jodhpur" in
  let lock : gmap Z str := {[ 3%Z := str_of_string "Jodhpur" ]} in
  let st := walk (length toks) toks toks lock (Walk 0 0 []) in
  wout st ++ skipn (wj st) toks = toks.
Proof.
  apply (accurate_locks_change_nothing "I live in Jodhpur"
           {[ 3%Z := str_of_string "Jodhpur" ]}).
  intros i canon t Hl Ht _.
  destruct (decide (i = 3)) as [->|Hne].
  - vm_compute in Hl, Ht. congruence.
  - rewrite lookup_singleton_ne in Hl by lia. discriminate.
Defined.

(** *** The removal of adjacent duplicates *)

Lemma adjacent_dup_app_l (l r : list str) :
  adjacent_dup (l ++ r) = false -> adjacent_dup l = false.
Proof.
  induction l as [|a l IH]; [reflexivity|].
  destruct l as [|b l]; [reflexivity|]. simpl. intros H.
  apply orb_false_iff in H as [H1 H2]. rewrite H1. simpl. apply IH. exact H2.
Qed.

Lemma dedup_fold_clean (tokens : list str) :
  forall acc,
    adjacent_dup (acc ++ tokens) = false ->
    fold_left dedup_step tokens acc = acc ++ tokens.
Proof.
  induction tokens as [|t ts IH]; intros acc H; simpl.
  - symmetry. apply app_nil_r.
  - assert (adjacent_dup ((acc ++ [t]) ++ ts) = false) as H'
        by (rewrite <- List.app_assoc; exact H).
    pose proof (adjacent_dup_app_l _ _ H') as Hsnoc.
    rewrite adjacent_dup_snoc in Hsnoc. apply orb_false_iff in Hsnoc as [_ Hlast].
    assert (dedup_step acc t = acc ++ [t]) as ->.
    { unfold dedup_step. destruct (last acc) as [prev|]; [|reflexivity].
      unfold same_word in Hlast. rewrite Hlast. reflexivity. }
    rewrite (IH _ H'), <- List.app_assoc. reflexivity.
Qed.

Lemma dedup_clean (tokens : list str) :
  adjacent_dup tokens = false -> dedup_adjacent tokens = tokens.
Proof. intros H. exact (dedup_fold_clean tokens [] H). Qed.

(** X14.  The removal of adjacent duplicates is idempotent: a second pass
    removes nothing. *)
Theorem dedup_adjacent_idempotent (tokens : list str) :
  dedup_adjacent (dedup_adjacent tokens) = dedup_adjacent tokens.
Proof. apply dedup_clean, dedup_adjacent_no_dup. Qed.

Lemma dedup_fold_sublist (tokens : list str) :
  forall acc, sublist (fold_left dedup_step tokens acc) (acc ++ tokens).
Proof.
  induction tokens as [|t ts IH]; intros acc; simpl.
  - rewrite app_nil_r. reflexivity.
  - etransitivity; [apply IH|].
    unfold dedup_step.
    destruct (last acc) as [prev|];
      [destruct (is_word t && is_word prev && Py.eqb (Py.lower t) (Py.lower prev))|].
    + apply sublist_app; [reflexivity|]. apply sublist_cons. reflexivity.
    + rewrite <- List.app_assoc. reflexivity.
    + rewrite <- List.app_assoc. reflexivity.
Qed.

(** X15.  The removal of adjacent duplicates only drops tokens: what it
    keeps is a subsequence of the tokens, in their order, and the first
    token is always kept. *)
Theorem dedup_adjacent_only_drops (tokens : list str) :
  sublist (dedup_adjacent tokens) tokens
  /\ head (dedup_adjacent tokens) = head tokens.
Proof.
  split; [exact (dedup_fold_sublist tokens [])|].
  destruct tokens as [|t ts]; [reflexivity|].
  unfold dedup_adjacent. simpl.
  assert (forall acc, head (fold_left dedup_step ts (t :: acc)) = Some t) as H.
  { induction ts as [|u ts IH]; intros acc; [reflexivity|]. simpl.
    unfold dedup_step at 2.
    destruct (last (t :: acc)) as [prev|];
      [destruct (is_word u && is_word prev && Py.eqb (Py.lower u) (Py.lower prev))|];
      apply IH. }
  apply (H []).
Qed.

End GuardWalk.

(** ** Joinable strings *)

Section Joinable.

Import Re SpellChecker TokenSpec TokenShape JoinSpec.

Lemma tidy_app (t o : str) :
  tidy t = true -> tidy o = true -> tidy (t ++ o) = true.
Proof.
  induction t as [|c t IH]; [auto|]. cbn [tidy app]. intros H Ho.
  apply andb_true_iff in H as [Hc Ht]. rewrite (IH Ht Ho), andb_true_r.
  destruct (negb (cls_s [] c)); [reflexivity|]. cbn [orb] in *.
  destruct t; [discriminate|exact Hc].
Qed.

Lemma glue_joinable (out : list str) :
  Forall (fun x => joinable x = true) out ->
  forall b,
    tidy (glue b out) = true
    /\ forallb plain_char (glue b out) = true
    /\ (b = false -> starts_space (glue b out) = false).
Proof.
  induction 1 as [|t ts Ht Hts IH]; intros b; [repeat split|].
  unfold joinable in Ht. apply andb_true_iff in Ht as [Ht Hsp].
  apply andb_true_iff in Ht as [Htidy Hplain]. apply negb_true_iff in Hsp.
  destruct (IH (b || Py.truthy t)) as (IHt & IHp & IHs).
  cbn [glue].
  assert (tidy (t ++ glue (b || Py.truthy t) ts) = true) as Htt
      by (apply tidy_app; assumption).
  assert (forallb plain_char (t ++ glue (b || Py.truthy t) ts) = true) as Hpp
      by (rewrite forallb_app, Hplain, IHp; reflexivity).
  split; [|split].
  - destruct (starts_alnum t && b) eqn:E; [|exact Htt].
    apply andb_true_iff in E as [E _]. apply tidy_space; [|exact Htt].
    destruct t; [discriminate|exact E].
  - destruct (starts_alnum t && b); [|exact Hpp].
    cbn [app forallb]. rewrite Hpp. reflexivity.
  - intros ->. rewrite andb_false_r. cbn [app orb].
    destruct t as [|c r]; [apply IHs; reflexivity|exact Hsp].
Qed.

Lemma lstrip_no_space (x : str) : starts_space x = false -> Py.lstrip x = x.
Proof.
  destruct x as [|c r]; [reflexivity|]. simpl. intros H.
  change (Py.isspace_char c) with (cls_s [] c). rewrite H. reflexivity.
Qed.

Lemma smart_join_joinable (out : list str) :
  Forall (fun x => joinable x = true) out ->
  _smart_join out = glue false out.
Proof.
  intros H. unfold _smart_join. rewrite fold_join. cbn [app Py.truthy].
  destruct (glue_joinable out H false) as (Htidy & _ & Hsp).
  rewrite (sub_tidy _ _ Htidy). unfold Py.strip.
  rewrite (lstrip_no_space _ (Hsp eq_refl)). apply rstrip_tidy, Htidy.
Qed.

Lemma tidy_nonspace (t : str) : forallb nonspace t = true -> tidy t = true.
Proof.
  intros H. rewrite <- (app_nil_r t). apply tidy_app_nonspace; [exact H|reflexivity].
Qed.

Lemma shape_plain (t : str) :
  token_shape t = true -> forallb plain_char t = true.
Proof.
  destruct t as [|c r]; [discriminate|]. unfold token_shape. intros H.
  apply orb_true_iff in H as [H|H]; [apply orb_true_iff in H as [H|H]|].
  - apply andb_true_iff in H as [L Hr]. cbn [forallb].
    unfold plain_char at 1. rewrite L. cbn [orb andb].
    apply (forallb_weaken letter_hyphen_quote); [|exact Hr].
    intros x Hx. destruct (hyphen_quote_facts x Hx) as [_ [_ [Lx|Px]]];
      unfold plain_char; rewrite ?Lx, ?Px, ?orb_true_r; reflexivity.
  - apply (forallb_weaken Py.is_09); [|exact H].
    intros x Hx. unfold plain_char. rewrite Hx, ?orb_true_r. reflexivity.
  - apply andb_true_iff in H as [P Hr]. destruct r; [|discriminate].
    cbn [forallb]. unfold plain_char. rewrite P, ?orb_true_r. reflexivity.
Qed.

Lemma shape_joinable (t : str) : token_shape t = true -> joinable t = true.
Proof.
  intros H. destruct (shape_nonspace t H) as [Hns [c [r ->]]].
  unfold joinable. rewrite (tidy_nonspace _ Hns), (shape_plain _ H).
  cbn [forallb] in Hns. apply andb_true_iff in Hns as [Hc _].
  unfold nonspace in Hc. cbn [starts_space andb]. exact Hc.
Qed.

Lemma shapes_joinable (tokens : list str) :
  Forall (fun t => token_shape t = true) tokens ->
  Forall (fun x => joinable x = true) tokens.
Proof. apply List.Forall_impl. exact shape_joinable. Qed.

(** *** The tokens of a tidy text *)

Lemma tidy_app_r (t o : str) : tidy (t ++ o) = true -> tidy o = true.
Proof.
  induction t as [|c t IH]; [auto|]. cbn [app tidy]. intros H.
  apply andb_true_iff in H as [_ H]. apply IH, H.
Qed.

Lemma forallb_app_r {A : Type} (p : A -> bool) (t o : list A) :
  forallb p (t ++ o) = true -> forallb p o = true.
Proof. rewrite forallb_app. intros H. apply andb_true_iff in H as [_ H]. exact H. Qed.

Lemma drop_run_head (p : ascii -> bool) (s : str) :
  match drop_run p s with
  | [] => True
  | x :: _ => p x = false
  end.
Proof.
  induction s as [|c r IH]; [exact I|]. simpl.
  destruct (p c) eqn:E; [exact IH|exact E].
Qed.

Lemma token_head (s t r : str) :
  first_token s = Some (t, r) ->
  match s with
  | x :: _ => letter_hyphen_quote x = false \/ letter x = true
  | [] => True
  end ->
  hyphen_or_quote t = false.
Proof.
  intros F Hhead. destruct (first_token_split _ _ _ F) as [Hs [x [t' ->]]].
  subst s. cbn [app] in Hhead. unfold hyphen_or_quote.
  destruct t'; [|reflexivity].
  destruct Hhead as [H|H]; rewrite H; [reflexivity|apply andb_false_r].
Qed.

Lemma plain_skipped (c : ascii) (r : str) :
  first_token (c :: r) = None -> plain_char c = true -> cls_s [] c = true.
Proof.
  unfold first_token, kind_of, plain_char.
  destruct (letter c); [discriminate|].
  destruct (Py.is_09 c); [discriminate|].
  destruct (punct c); [discriminate|]. intros _ H. exact H.
Qed.

(** After a character that ends a word, the next token is no hyphen and
    no apostrophe standing alone. *)
Lemma head_after_word (s : str) :
  tidy s = true -> forallb plain_char s = true ->
  match s with x :: _ => letter_hyphen_quote x = false | [] => True end ->
  match _retok s with u :: _ => hyphen_or_quote u | [] => false end = false.
Proof.
  intros Htidy Hplain Hhead. destruct s as [|x r]; [reflexivity|].
  destruct (first_token (x :: r)) as [[t q]|] eqn:F.
  - rewrite (retok_token _ _ _ F). apply (token_head _ _ _ F). left. exact Hhead.
  - rewrite (retok_skip _ _ F).
    cbn [forallb] in Hplain. apply andb_true_iff in Hplain as [Hx _].
    pose proof (plain_skipped _ _ F Hx) as S.
    cbn [tidy] in Htidy. apply andb_true_iff in Htidy as [Hc _].
    rewrite S in Hc. cbn [negb orb] in Hc.
    destruct r as [|y r]; [discriminate|]. cbn [starts_alnum] in Hc.
    destruct (letter_digit_facts y Hc) as [_ [_ [L|D]]].
    + rewrite (retok_token _ _ _ (first_token_letter y r L)).
      apply (token_head _ _ _ (first_token_letter y r L)). right. exact L.
    + rewrite (retok_token _ _ _ (first_token_digit y r D)).
      apply (token_head _ _ _ (first_token_digit y r D)). left.
      destruct (digit_facts y D) as [_ [_ [_ [H _]]]]. exact H.
Qed.

Lemma retok_separable (n : nat) :
  forall s : str,
    length s <= n -> tidy s = true -> forallb plain_char s = true ->
    separable (_retok s) = true.
Proof.
  induction n as [|n IH]; intros s Hlen Htidy Hplain.
  - destruct s; [reflexivity|simpl in Hlen; lia].
  - destruct s as [|c r]; [reflexivity|]. simpl in Hlen.
    destruct (first_token (c :: r)) as [[t r']|] eqn:F.
    + rewrite (retok_token _ _ _ F).
      destruct (first_token_split _ _ _ F) as [Hs _].
      pose proof (first_token_shorter _ _ _ F) as Hshort. simpl in Hshort.
      assert (tidy r' = true) as Htidy'
          by (apply (tidy_app_r t); rewrite <- Hs; exact Htidy).
      assert (forallb plain_char r' = true) as Hplain'
          by (apply (forallb_app_r _ t); rewrite <- Hs; exact Hplain).
      cbn [separable]. rewrite (first_token_shape _ _ _ F).
      rewrite (IH r') by (try lia; assumption).
      rewrite andb_true_r. cbn [andb]. apply negb_true_iff.
      destruct (letter c) eqn:L.
      * rewrite (first_token_letter c r L) in F. injection F as <- <-.
        rewrite head_after_word; [apply andb_false_r|assumption|assumption|].
        apply drop_run_head.
      * unfold first_token, kind_of in F. rewrite L in F.
        destruct (Py.is_09 c); [|destruct (punct c); [|discriminate]];
          injection F as <- <-; cbn [starts_letter]; rewrite L; reflexivity.
    + rewrite (retok_skip _ _ F). apply IH; [lia|exact (tidy_tail _ _ Htidy)|].
      cbn [forallb] in Hplain. apply andb_true_iff in Hplain as [_ H]. exact H.
Qed.

End Joinable.

(** ** The removal of duplicates in the text the guard returns *)

Section GuardDedup.

Import Re SpellChecker TokenSpec TokenShape JoinSpec GuardSpec.

Lemma dedup_fold_collapse (ts : list str) :
  forall (acc : list str) (p : str),
    fold_left GrammarCorrector.dedup_step ts (acc ++ [p])
    = acc ++ p :: keep_after p ts.
Proof.
  induction ts as [|t ts IH]; intros acc p; [reflexivity|].
  cbn [fold_left keep_after]. unfold GrammarCorrector.dedup_step at 2.
  rewrite last_snoc. fold (same_word t p).
  destruct (same_word t p); [apply IH|].
  rewrite (IH (acc ++ [p]) t), <- List.app_assoc. reflexivity.
Qed.

Lemma dedup_collapse (tokens : list str) :
  GrammarCorrector.dedup_adjacent tokens = collapse tokens.
Proof.
  destruct tokens as [|t ts]; [reflexivity|].
  unfold GrammarCorrector.dedup_adjacent. cbn [fold_left].
  exact (dedup_fold_collapse ts [] t).
Qed.

Lemma word_starts_letter (t : str) :
  GrammarCorrector.is_word t = true -> starts_letter t = true.
Proof.
  unfold GrammarCorrector.is_word. rewrite is_match_chr.
  destruct t; [discriminate|]. intros H. exact H.
Qed.

Lemma separable_keep_after (ts : list str) :
  forall p, separable (p :: ts) = true -> separable (p :: keep_after p ts) = true.
Proof.
  induction ts as [|t ts IH]; intros p H; [exact H|].
  cbn [keep_after]. destruct (same_word t p) eqn:E.
  - apply IH. cbn [separable] in *.
    apply andb_true_iff in H as [H Hts]. apply andb_true_iff in H as [Hp _].
    apply andb_true_iff in Hts as [Ht Hts]. apply andb_true_iff in Ht as [_ Hnext].
    rewrite Hp, Hts, andb_true_r. cbn [andb].
    unfold same_word in E. apply andb_true_iff in E as [E _].
    apply andb_true_iff in E as [Ew _].
    rewrite (word_starts_letter _ Ew) in Hnext. cbn [andb] in Hnext.
    apply negb_true_iff in Hnext. rewrite Hnext, andb_false_r. reflexivity.
  - change (separable (p :: t :: keep_after t ts))
      with (token_shape p && negb (starts_letter p && hyphen_or_quote t)
            && separable (t :: keep_after t ts)).
    change (separable (p :: t :: ts))
      with (token_shape p && negb (starts_letter p && hyphen_or_quote t)
            && separable (t :: ts)) in H.
    apply andb_true_iff in H as [H Hts]. rewrite H, (IH t Hts). reflexivity.
Qed.

Lemma separable_collapse (tokens : list str) :
  separable tokens = true -> separable (collapse tokens) = true.
Proof.
  destruct tokens as [|t ts]; [auto|]. apply separable_keep_after.
Qed.

Lemma lockstep_joinable (lock : gmap Z str) (src : list str) :
  (forall k v, lock !! k = Some v -> joinable v = true) ->
  forall (tgt : list str) (i : nat),
    Forall (fun x => joinable x = true) tgt ->
    Forall (fun x => joinable x = true) (lockstep i src tgt lock).
Proof.
  intros Hlock. induction src as [|s src IH]; intros tgt i Htgt.
  - destruct tgt; exact Htgt.
  - destruct tgt as [|t tgt]; [exact Htgt|].
    inversion Htgt as [|? ? Ht Htgt']; subst. cbn [lockstep].
    constructor; [|apply IH, Htgt'].
    destruct (lock !! Z.of_nat i) as [canon|] eqn:E; [|exact Ht].
    destruct (GrammarCorrector.is_word s && GrammarCorrector.is_word t);
      [exact (Hlock _ _ E)|exact Ht].
Qed.

Lemma lexicon_joinable :
  forallb (fun kv => joinable (snd kv)) SpellChecker.ALL_LEX = true.
Proof. vm_compute. reflexivity. Qed.

(** C3, amended.  Under a lock map that is not empty and holds canonical
    forms of the lexicon, as the normalizer produces them, the guard runs
    the removal of adjacent duplicates once, on the tokens of its first
    join.  The tokens of the text it returns are exactly the tokens of
    the first join without every word that is equal up to case to the
    token kept last; hence no two adjacent tokens of the returned text are
    words equal up to case.  The pass collapses the token stream "the",
    "the", "cat" to "the", "cat". *)
Theorem guard_dedup_once (locked_text rewritten : str) (lock_map : gmap Z str) :
  size lock_map <> 0 ->
  (forall k canon,
      lock_map !! k = Some canon ->
      exists key, Dict.get SpellChecker.ALL_LEX key = Some canon) ->
  let first_join :=
    GrammarCorrector._smart_join
      (lockstep 0 (GrammarCorrector._simple_tokens locked_text)
                  (GrammarCorrector._simple_tokens rewritten) lock_map) in
  let returned :=
    GrammarCorrector.enforce_locked_proper_nouns locked_text rewritten lock_map in
  returned
  = GrammarCorrector._smart_join
      (GrammarCorrector.dedup_adjacent (GrammarCorrector._simple_tokens first_join))
  /\ GrammarCorrector._simple_tokens returned
     = collapse (GrammarCorrector._simple_tokens first_join)
  /\ adjacent_dup (GrammarCorrector._simple_tokens returned) = false
  /\ GrammarCorrector.dedup_adjacent (map str_of_string ["the"; "the"; "cat"])
     = map str_of_string ["the"; "cat"].
Proof.
  intros Hne Hlex first_join returned.
  assert (GrammarCorrector._simple_tokens returned
          = collapse (GrammarCorrector._simple_tokens first_join)) as Hret.
  { unfold returned, first_join. rewrite enforce_unfold.
    destruct (Nat.eqb (size lock_map) 0) eqn:E;
      [apply Nat.eqb_eq in E; contradiction|].
    set (out := lockstep 0 _ _ lock_map).
    assert (Forall (fun x => joinable x = true) out) as Hout.
    { apply lockstep_joinable.
      - intros k v Hk. destruct (Hlex k v Hk) as [key Hkey].
        apply dict_get_In in Hkey.
        exact (proj1 (forallb_forall _ _) lexicon_joinable _ Hkey).
      - apply shapes_joinable.
        change (GrammarCorrector._simple_tokens rewritten) with (_retok rewritten).
        apply (retok_shape_bounded (length rewritten)). lia. }
    rewrite !joiners_agree.
    change (GrammarCorrector._simple_tokens (_smart_join out))
      with (_retok (_smart_join out)).
    rewrite (smart_join_joinable out Hout).
    destruct (glue_joinable out Hout false) as (Htidy & Hplain & _).
    pose proof (retok_separable _ _ (Nat.le_refl _) Htidy Hplain) as Hsep.
    rewrite dedup_collapse.
    pose proof (separable_collapse _ Hsep) as Hsep'.
    rewrite (smart_join_glue _ (separable_shapes _ Hsep')).
    change (GrammarCorrector._simple_tokens (glue false (collapse (_retok (glue false out)))))
      with (_retok (glue false (collapse (_retok (glue false out))))).
    apply retok_glue, Hsep'. }
  split; [|split; [exact Hret|split; [|vm_compute; reflexivity]]].
  - unfold returned, first_join. rewrite enforce_unfold.
    destruct (Nat.eqb (size lock_map) 0) eqn:E; [|reflexivity].
    apply Nat.eqb_eq in E. contradiction.
  - rewrite Hret, <- dedup_collapse. apply dedup_adjacent_no_dup.
Qed.

Lemma guard_dedup_once_witness :
  GrammarCorrector._simple_tokens
    (GrammarCorrector.enforce_locked_proper_nouns "a small cat" "the the cat"
       {[ 7%Z := str_of_string "Goa" ]})
  = map str_of_string ["the"; "cat"].
Proof.
  destruct (guard_dedup_once "a small cat" "the the cat"
              {[ 7%Z := str_of_string "Goa" ]}) as (_ & H & _).
  - vm_compute. discriminate.
  - intros k canon Hk. exists (str_of_string "goa").
    destruct (decide (k = 7%Z)) as [->|Hne].
    + rewrite lookup_singleton_eq in Hk. injection Hk as <-. vm_compute. reflexivity.
    + rewrite lookup_singleton_ne in Hk by congruence. discriminate.
  - rewrite H. vm_compute. reflexivity.
Defined.

End GuardDedup.

(** ** The normalizer works in lower case *)

Section LowerCase.

Import Re SpellChecker TokenSpec TokenShape JoinSpec CaseSpec Examples.

Ltac by_char c := destruct c as [[] [] [] [] [] [] [] []]; vm_compute; intuition congruence.

Lemma lower_char_not_upper (c : ascii) :
  Py.isupper_char (Py.lower_char c) = false.
Proof. by_char c. Qed.

Lemma lower_no_upper (s : str) : no_upper (Py.lower s) = true.
Proof.
  induction s as [|c s IH]; [reflexivity|].
  cbn [Py.lower map no_upper forallb]. rewrite lower_char_not_upper.
  exact IH.
Qed.

(** The tokens are made of characters of the text. *)
Lemma retok_forallb (p : ascii -> bool) (n : nat) :
  forall s : str,
    length s <= n -> forallb p s = true ->
    Forall (fun t => forallb p t = true) (_retok s).
Proof.
  induction n as [|n IH]; intros s Hlen Hs.
  - destruct s; [constructor|simpl in Hlen; lia].
  - destruct s as [|c r]; [constructor|]. simpl in Hlen.
    destruct (first_token (c :: r)) as [[t r']|] eqn:F.
    + rewrite (retok_token _ _ _ F).
      destruct (first_token_split _ _ _ F) as [Hsplit _].
      pose proof (first_token_shorter _ _ _ F) as Hshort. simpl in Hshort.
      rewrite Hsplit, forallb_app in Hs. apply andb_true_iff in Hs as [Ht Hr'].
      constructor; [exact Ht|apply IH; [lia|exact Hr']].
    + rewrite (retok_skip _ _ F). apply IH; [lia|].
      cbn [forallb] in Hs. apply andb_true_iff in Hs as [_ Hs]. exact Hs.
Qed.

Lemma glue_no_upper (out : list str) :
  Forall (fun x => no_upper x = true) out ->
  forall b, no_upper (glue b out) = true.
Proof.
  induction 1 as [|t ts Ht Hts IH]; intros b; [reflexivity|].
  cbn [glue]. unfold no_upper in *. rewrite !forallb_app, Ht, IH.
  destruct (starts_alnum t && b); reflexivity.
Qed.

Lemma abbrev_values :
  forallb (fun kv => joinable (snd kv) && no_upper (snd kv)) ABBREV = true.
Proof. vm_compute. reflexivity. Qed.

Section Dictionary.

Variable ratio : str -> str -> Q.
Variable known : str -> bool.
Variable correction : str -> option str.

(** The normalized text is in lower case. *)
Lemma normalize_no_upper (text : str) :
  no_upper (normalize_tokens text) = true.
Proof.
  unfold normalize_tokens. cbv zeta.
  set (toks := _retok (Py.lower text)).
  assert (Forall (fun t => token_shape t = true /\ no_upper t = true) toks) as Htoks.
  { apply Forall_and. split.
    - apply (retok_shape_bounded (length (Py.lower text))). lia.
    - apply (retok_forallb _ (length (Py.lower text))); [lia|].
      apply lower_no_upper. }
  set (out := map _ toks).
  assert (Forall (fun x => joinable x = true /\ no_upper x = true) out) as Hout.
  { unfold out. apply Forall_map. revert Htoks. apply List.Forall_impl.
    intros t [Hshape Hlow]. cbn beta.
    destruct (is_word t); [|split; [apply shape_joinable, Hshape|exact Hlow]].
    destruct (Dict.get ABBREV t) as [e|] eqn:E;
      [|split; [apply shape_joinable, Hshape|exact Hlow]].
    apply dict_get_In in E.
    pose proof (proj1 (forallb_forall _ _) abbrev_values _ E) as H.
    cbn [snd] in H. apply andb_true_iff in H. exact H. }
  apply Forall_and in Hout as [Hjoin Hlow].
  rewrite (smart_join_joinable out Hjoin). apply glue_no_upper, Hlow.
Qed.

Lemma no_upper_first (t : str) :
  no_upper t = true -> Py.isupper (Py.first1 t) = false.
Proof.
  destruct t as [|c t]; [reflexivity|]. cbn [no_upper forallb]. intros H.
  apply andb_true_iff in H as [H _]. apply negb_true_iff in H.
  unfold Py.first1. cbn [firstn Py.isupper]. rewrite firstn_O. exact H.
Qed.

Lemma loop_tokens_lower (text : str) :
  Forall (fun t => no_upper t = true) (_retok (normalize_tokens text)).
Proof.
  apply (retok_forallb _ (length (normalize_tokens text))); [lia|].
  apply normalize_no_upper.
Qed.

(** C8.  The capitalization of the claim is never applied.  Every token
    that reaches the loop of the normalizer is in lower case, because the
    text is lower-cased first and the expansions of the abbreviations are
    in lower case; hence no token starts with an upper-case letter and
    the dictionary fallback of a token is the token itself or the
    suggestion of the dictionary as it is.  "Recieve", which the
    dictionary does not know and for which it suggests "receive", is
    returned as "receive" and not as "Receive". *)
Theorem capitalization_is_never_applied :
  known "recieve" = false ->
  correction "recieve" = Some (str_of_string "receive") ->
  (forall text : str,
      Forall (fun t =>
                Py.isupper (Py.first1 t) = false
                /\ (dictionary_fallback known correction t = t
                    \/ correction (Py.lower t)
                       = Some (dictionary_fallback known correction t)))
             (_retok (normalize_tokens text)))
  /\ correct_spelling_with_stats Difflib.ratio known correction
       "Recieve" true (94 # 100)
     = Ok (str_of_string "receive", Stats 0 1 ∅)
  /\ Py.capitalize "receive" = "Receive".
Proof.
  intros Hknown Hcorr. split; [|split; [|reflexivity]].
  - intros text. generalize (loop_tokens_lower text). apply List.Forall_impl.
    intros t Hlow. pose proof (no_upper_first t Hlow) as Hfirst.
    split; [exact Hfirst|].
    unfold dictionary_fallback. rewrite Hfirst.
    destruct (negb (known (Py.lower t)) && Py.isalpha t); [|left; reflexivity].
    destruct (correction (Py.lower t)) as [cand|]; [|left; reflexivity].
    rewrite andb_false_r.
    destruct (Py.truthy cand); [right|left]; reflexivity.
  - unfold correct_spelling_with_stats.
    assert (enumerate (_retok (normalize_tokens "Recieve"))
            = [(0, str_of_string "recieve")]) as -> by (vm_compute; reflexivity).
    rewrite for_each_cons, loop_body_fallback by (vm_compute; reflexivity).
    assert (dictionary_fallback known correction "recieve" = "receive") as ->.
    { unfold dictionary_fallback.
      change (Py.lower "recieve") with (str_of_string "recieve").
      rewrite Hknown, Hcorr. reflexivity. }
    cbv beta iota delta [mbind result_bind for_each].
    vm_compute. reflexivity.
Qed.

End Dictionary.

Lemma capitalization_is_never_applied_witness :
  correct_spelling_with_stats Difflib.ratio small_known small_correction
    "Recieve" true (94 # 100)
  = Ok (str_of_string "receive", Stats 0 1 ∅).
Proof.
  destruct (capitalization_is_never_applied small_known small_correction)
    as (_ & H & _).
  - vm_compute. reflexivity.
  - vm_compute. reflexivity.
  - exact H.
Defined.

End LowerCase.

(** ** app.py: the touch-ups and the removal of duplicates *)

Section Touchups.

Import Re App AppSpec.

Lemma match_comma_letter (before s : str) :
  match_at (comma_letter_re []) before s
  = match s with
    | c :: x :: r =>
        if Py.eqb_char "," c && letter x
        then Some (MState (x :: c :: before) r [(1, [x])])
        else None
    | _ => None
    end.
Proof.
  unfold match_at, comma_letter_re. rewrite matches_seq.
  destruct s as [|c s]; [reflexivity|].
  change (Lit [] ",") with (Chr (cls_lit [] ","%char)). rewrite matches_chr.
  change (cls_lit [] ","%char c) with (Py.eqb_char "," c).
  destruct (Py.eqb_char "," c); cbn [flat_map andb]; [|destruct s; reflexivity].
  rewrite matches_grp. destruct s as [|x r]; [reflexivity|].
  rewrite matches_chr. destruct (letter x); [|reflexivity].
  cbn [map app hd_error]. unfold set_cap. cbn [seen rest caps length].
  replace (S (S (length before)) - S (length before)) with 1 by lia.
  reflexivity.
Qed.

Lemma touchups_nil : _final_touchups [] = [].
Proof. reflexivity. Qed.

Lemma scan_comma_before (s : str) :
  forall before before' k,
    scan (comma_letter_re []) before s k = scan (comma_letter_re []) before' s k.
Proof.
  induction s as [|c r IH]; intros before before' k.
  - destruct k; reflexivity.
  - destruct k as [|k]; [|cbn [scan]; apply IH].
    cbn [scan]. rewrite !match_comma_letter.
    destruct r as [|x r']; [reflexivity|].
    destruct (Py.eqb_char "," c && letter x).
    + cbn [rest caps]. f_equal.
      destruct (length (c :: x :: r') - length r'); [f_equal|]; apply IH.
    + f_equal. apply IH.
Qed.

Lemma touchups_match (c x : ascii) (r : str) :
  Py.eqb_char "," c && letter x = true ->
  _final_touchups (c :: x :: r) = c :: " "%char :: x :: _final_touchups r.
Proof.
  intros H. unfold _final_touchups, sub. cbn [scan].
  rewrite match_comma_letter, H. cbn [rest caps].
  replace (length (c :: x :: r) - length r) with 2 by (simpl; lia).
  cbn [scan flat_map expand group find fst snd Nat.eqb app firstn].
  apply andb_true_iff in H as [Hc _]. apply Ascii.eqb_eq in Hc. subst c.
  simpl. do 3 f_equal.
  rewrite (scan_comma_before r _ [] 0). reflexivity.
Qed.

Lemma touchups_plain (c : ascii) (r : str) :
  Py.eqb_char "," c && match r with x :: _ => letter x | [] => false end = false ->
  _final_touchups (c :: r) = c :: _final_touchups r.
Proof.
  intros H. unfold _final_touchups, sub. cbn [scan].
  rewrite match_comma_letter.
  destruct r as [|x r'].
  - reflexivity.
  - rewrite H. cbn [flat_map app]. f_equal.
    rewrite (scan_comma_before (x :: r') _ [] 0). reflexivity.
Qed.

Lemma touchups_head (n : nat) :
  forall s : str, length s <= n -> head (_final_touchups s) = head s.
Proof.
  induction n as [|n IH]; intros s Hlen.
  - destruct s; [reflexivity|simpl in Hlen; lia].
  - destruct s as [|c r]; [reflexivity|].
    destruct (Py.eqb_char "," c && match r with x :: _ => letter x | [] => false end)
      eqn:E.
    + destruct r as [|x r]; [rewrite andb_false_r in E; discriminate|].
      rewrite (touchups_match _ _ _ E). reflexivity.
    + rewrite (touchups_plain _ _ E). reflexivity.
Qed.

Lemma touchups_comma_spaced (n : nat) :
  forall s : str, length s <= n -> comma_spaced (_final_touchups s) = true.
Proof.
  induction n as [|n IH]; intros s Hlen.
  - destruct s; [reflexivity|simpl in Hlen; lia].
  - destruct s as [|c r]; [reflexivity|]. simpl in Hlen.
    destruct (Py.eqb_char "," c && match r with x :: _ => letter x | [] => false end)
      eqn:E.
    + destruct r as [|x r]; [rewrite andb_false_r in E; discriminate|].
      rewrite (touchups_match _ _ _ E).
      apply andb_true_iff in E as [Hc Hx].
      assert (Py.eqb_char x "," = false) as Hxc.
      { destruct (Py.eqb_char x ",") eqn:E'; [|reflexivity].
        apply Ascii.eqb_eq in E'. subst x. discriminate. }
      cbn [comma_spaced]. rewrite Hxc.
      simpl in Hlen. rewrite IH by lia.
      rewrite andb_false_r. reflexivity.
    + rewrite (touchups_plain _ _ E). cbn [comma_spaced].
      rewrite IH by lia. rewrite andb_true_r.
      pose proof (touchups_head (length r) r (Nat.le_refl _)) as Hh.
      destruct (_final_touchups r) as [|y u]; [rewrite andb_false_r; reflexivity|].
      destruct r as [|x r']; [discriminate|]. injection Hh as ->.
      rewrite Ascii.eqb_sym in E. unfold Py.eqb_char. rewrite E. reflexivity.
Qed.

(** X16.  After the final touch-ups no comma stands directly before an
    ASCII letter. *)
Theorem touchups_leave_no_comma_before_letter (t : str) :
  comma_spaced (_final_touchups t) = true.
Proof. apply (touchups_comma_spaced (length t)). lia. Qed.

Lemma touchups_fixed (s : str) :
  comma_spaced s = true -> _final_touchups s = s.
Proof.
  induction s as [|c r IH]; [reflexivity|]. cbn [comma_spaced]. intros H.
  apply andb_true_iff in H as [H Hr]. apply negb_true_iff in H.
  rewrite touchups_plain.
  - rewrite (IH Hr). reflexivity.
  - rewrite Ascii.eqb_sym. exact H.
Qed.

(** X17.  The final touch-ups are idempotent. *)
Theorem touchups_idempotent (t : str) :
  _final_touchups (_final_touchups t) = _final_touchups t.
Proof. apply touchups_fixed, (touchups_comma_spaced (length t)). lia. Qed.

End Touchups.

Section AppDedup.

Import Re App AppSpec SpellChecker TokenSpec TokenShape.

Lemma app_join_step_eq (s tok : str) :
  App.join_step s tok
  = s ++ (if starts_alnum tok && isalnum_opt (last s) then [" "%char] else []) ++ tok.
Proof.
  unfold App.join_step.
  change (is_match (Chr App.letter_digit) tok) with (is_match (Chr letter_digit) tok).
  rewrite is_match_chr. fold (starts_alnum tok).
  destruct (starts_alnum tok); [|reflexivity]. cbn [andb].
  unfold App.last_isalnum, Py.last_char. fold (isalnum_opt (last s)).
  destruct s as [|x s]; [reflexivity|]. cbn [Py.truthy andb].
  destruct (isalnum_opt (last (x :: s))); reflexivity.
Qed.

Lemma app_dedup_keeps (P : str -> Prop) (tokens : list str) :
  forall acc,
    Forall P acc -> Forall P tokens -> Forall P (fold_left App.dedup_step tokens acc).
Proof.
  induction tokens as [|t ts IH]; intros acc Hacc Hts; [exact Hacc|].
  inversion Hts as [|? ? Ht Hts']; subst. simpl. apply IH; [|exact Hts'].
  unfold App.dedup_step.
  destruct (last acc) as [prev|];
    [destruct (Py.isalpha t && Py.isalpha prev && Py.eqb (Py.lower t) (Py.lower prev))|];
    try exact Hacc; apply Forall_app; auto.
Qed.

Lemma last_or_cons (prev : option ascii) (c : ascii) (r : str) :
  last_or prev (c :: r) = last_or (Some c) r.
Proof.
  revert c prev. induction r as [|a r IH]; intros c prev; [reflexivity|].
  change (last_or prev (c :: a :: r)) with (last_or prev (a :: r)).
  rewrite (IH a prev), (IH a (Some c)). reflexivity.
Qed.

Lemma spaced_app (s u : str) :
  forall prev,
    spaced_in_words prev s = true ->
    spaced_in_words (last_or prev s) u = true ->
    spaced_in_words prev (s ++ u) = true.
Proof.
  induction s as [|c r IH]; intros prev Hs Hu; [exact Hu|].
  rewrite last_or_cons in Hu. cbn [app spaced_in_words] in *.
  apply andb_true_iff in Hs as [Hc Hr]. rewrite (IH _ Hr Hu), andb_true_r.
  destruct (negb (cls_s [] c)); [reflexivity|]. simpl in *.
  apply andb_true_iff in Hc as [Hp Ha]. rewrite Hp. simpl.
  destruct r; [discriminate|exact Ha].
Qed.

Lemma spaced_nonspace (t : str) :
  forall prev, forallb nonspace t = true -> spaced_in_words prev t = true.
Proof.
  induction t as [|c r IH]; intros prev H; [reflexivity|]. simpl in *.
  apply andb_true_iff in H as [Hc Hr]. unfold nonspace in Hc.
  rewrite Hc, (IH _ Hr). reflexivity.
Qed.

Lemma app_join_spaced (out : list str) :
  Forall (fun t => token_shape t = true) out ->
  forall s,
    spaced_in_words None s = true ->
    spaced_in_words None (fold_left App.join_step out s) = true.
Proof.
  induction 1 as [|t ts Ht Hts IH]; intros s Hs; [exact Hs|].
  simpl. apply IH. rewrite app_join_step_eq.
  destruct (shape_nonspace t Ht) as [Hns _].
  apply spaced_app; [exact Hs|].
  assert (last_or None s = last s) as -> by (unfold last_or; destruct (last s); reflexivity).
  destruct (starts_alnum t && isalnum_opt (last s)) eqn:E.
  - apply andb_true_iff in E as [Ha Hl].
    cbn [app spaced_in_words]. rewrite Hl, Ha.
    rewrite (spaced_nonspace t _ Hns), orb_true_r. reflexivity.
  - apply spaced_nonspace, Hns.
Qed.

Lemma spaced_tidy (s : str) :
  forall prev, spaced_in_words prev s = true -> tidy s = true.
Proof.
  induction s as [|c r IH]; intros prev H; [reflexivity|]. simpl in *.
  apply andb_true_iff in H as [Hc Hr]. rewrite (IH _ Hr), andb_true_r.
  destruct (negb (cls_s [] c)); [reflexivity|]. simpl in *.
  apply andb_true_iff in Hc as [_ Ha]. exact Ha.
Qed.

Lemma spaced_lstrip (s : str) :
  spaced_in_words None s = true -> Py.lstrip s = s.
Proof.
  destruct s as [|c r]; [reflexivity|]. simpl. intros H.
  apply andb_true_iff in H as [Hc _]. rewrite orb_false_r in Hc.
  apply negb_true_iff in Hc.
  change (Py.isspace_char c) with (cls_s [] c). rewrite Hc. reflexivity.
Qed.

(** X18.  In the text that _dedup_adjacent_words_simple returns, every
    white-space character stands directly after an alphanumeric character
    and directly before a letter or a digit.  No space follows a
    punctuation mark: the space between the full stop of a sentence and
    the next word is lost. *)
Theorem app_dedup_spaces_only_inside_words (t : str) :
  spaced_in_words None (_dedup_adjacent_words_simple t) = true.
Proof.
  unfold _dedup_adjacent_words_simple.
  change (findall (App.token_re []) t) with (_retok t).
  set (out := fold_left App.dedup_step (_retok t) []).
  assert (Forall (fun t => token_shape t = true) out) as Hout.
  { apply app_dedup_keeps; [constructor|].
    apply (retok_shape_bounded (length t)). lia. }
  pose proof (app_join_spaced out Hout [] eq_refl) as Hs.
  set (s := fold_left App.join_step out []) in *.
  change (sub (App.space_punct_re []) [Ref 1] s)
    with (sub (space_punct_re []) [Ref 1] s).
  rewrite (sub_tidy _ _ (spaced_tidy _ _ Hs)). unfold Py.strip.
  rewrite (spaced_lstrip _ Hs), (rstrip_tidy _ (spaced_tidy _ _ Hs)). exact Hs.
Qed.

End AppDedup.

(** ** utils/lexicon_loader.py *)

Section Loader.

Import LexiconLoader LoaderSpec.

Lemma forallb_rev {A : Type} (p : A -> bool) (l : list A) :
  forallb p (rev l) = forallb p l.
Proof.
  induction l as [|x l IH]; [reflexivity|]. simpl.
  rewrite forallb_app, IH. simpl. rewrite andb_true_r. apply andb_comm.
Qed.

Lemma split_from_parts (s : str) :
  forall cur,
    forallb (fun c => negb (Py.isspace_char c)) cur = true ->
    Forall (fun p => is_part p = true) (PyStr.split_from cur s).
Proof.
  induction s as [|c r IH]; intros cur Hcur; simpl.
  - destruct cur as [|x cur]; [constructor|]. constructor; [|constructor].
    unfold is_part. rewrite forallb_rev, Hcur.
    destruct (rev (x :: cur)) eqn:E; [|reflexivity].
    apply (f_equal (@length ascii)) in E. rewrite length_rev in E. discriminate.
  - destruct (Py.isspace_char c) eqn:Hc.
    + destruct cur as [|x cur]; [apply IH; reflexivity|].
      constructor; [|apply IH; reflexivity].
      unfold is_part. rewrite forallb_rev, Hcur.
      destruct (rev (x :: cur)) eqn:E; [|reflexivity].
      apply (f_equal (@length ascii)) in E. rewrite length_rev in E. discriminate.
    + apply IH. simpl. rewrite Hc, Hcur. reflexivity.
Qed.

Lemma split_from_word (p rest : str) :
  forallb (fun c => negb (Py.isspace_char c)) p = true ->
  forall cur, PyStr.split_from cur (p ++ rest) = PyStr.split_from (rev p ++ cur) rest.
Proof.
  intros Hp. induction p as [|c p IH]; intros cur; [reflexivity|].
  simpl in *. apply andb_true_iff in Hp as [Hc Hp].
  apply negb_true_iff in Hc. rewrite Hc, (IH Hp).
  rewrite <- List.app_assoc. reflexivity.
Qed.

Lemma split_join (parts : list str) :
  Forall (fun p => is_part p = true) parts ->
  PyStr.split (PyStr.join " " parts) = parts.
Proof.
  unfold PyStr.split. induction 1 as [|p ps Hp Hps IH]; [reflexivity|].
  unfold is_part in Hp. apply andb_true_iff in Hp as [Hne Hns].
  destruct ps as [|q ps].
  - cbn [PyStr.join]. rewrite <- (app_nil_r p) at 1.
    rewrite (split_from_word p [] Hns), app_nil_r. simpl.
    destruct (rev p) eqn:E.
    + apply (f_equal (@length ascii)) in E. rewrite length_rev in E.
      destruct p; [discriminate|discriminate].
    + rewrite <- E, rev_involutive. reflexivity.
  - change (PyStr.join " " (p :: q :: ps))
      with (p ++ " "%char :: PyStr.join " " (q :: ps)).
    rewrite (split_from_word p _ Hns), app_nil_r. cbn [PyStr.split_from].
    change (Py.isspace_char " ") with true. cbv iota.
    destruct (rev p) eqn:E.
    + apply (f_equal (@length ascii)) in E. rewrite length_rev in E.
      destruct p; [discriminate|discriminate].
    + rewrite <- E, rev_involutive, IH. reflexivity.
Qed.

(** X19.  A cleaned cell is normal for white space: splitting it at white
    space and joining the words with single spaces gives it back, so it
    has no white space at either end and exactly one space between its
    words. *)
Theorem clean_cell_is_white_space_normal (s : str) :
  PyStr.join " " (PyStr.split (_clean_cell s)) = _clean_cell s.
Proof.
  unfold _clean_cell. rewrite split_join; [reflexivity|].
  apply split_from_parts. reflexivity.
Qed.

(** *** Reading the rows *)

Lemma read_step_rows (rows : list (list str)) (row : list str) :
  Forall (fun r => Forall (fun c => Py.truthy c = true) r /\ r <> []) rows ->
  Forall (fun r => Forall (fun c => Py.truthy c = true) r /\ r <> [])
         (read_step rows row).
Proof.
  intros Hrows. unfold read_step. destruct row as [|c0 row0]; [exact Hrows|].
  set (row := c0 :: row0).
  destruct (Py.startswith _ "#"); [exact Hrows|].
  destruct (map _clean_cell (kept_cells row)) as [|x cells] eqn:E; [exact Hrows|].
  apply Forall_app. split; [exact Hrows|]. constructor; [|constructor].
  split; [|discriminate]. rewrite <- E.
  apply Forall_map. unfold kept_cells.
  apply Forall_forall. intros c Hc. apply list_elem_of_filter in Hc as [Hc _].
  destruct (Py.truthy (_clean_cell c)); [reflexivity|contradiction].
Qed.

Lemma read_rows_kept (rdr : list (list str)) :
  Forall (fun r => Forall (fun c => Py.truthy c = true) r /\ r <> [])
         (fold_left read_step rdr []).
Proof.
  assert (forall acc,
             Forall (fun r => Forall (fun c => Py.truthy c = true) r /\ r <> []) acc ->
             Forall (fun r => Forall (fun c => Py.truthy c = true) r /\ r <> [])
                    (fold_left read_step rdr acc)) as H.
  { induction rdr as [|row rdr IH]; intros acc Hacc; [exact Hacc|].
    simpl. apply IH, read_step_rows, Hacc. }
  apply H. constructor.
Qed.

Lemma rows_to_mapping_kept (rows : list (list str)) (single_col_ok : bool) :
  Forall (fun r => Forall (fun c => Py.truthy c = true) r /\ r <> []) rows ->
  exists mapping, _rows_to_mapping rows single_col_ok = inl mapping.
Proof.
  intros H. unfold _rows_to_mapping.
  destruct rows as [|first rows]; [eauto|].
  inversion H as [|? ? [_ Hne] _]; subst.
  unfold _detect_header_and_mode. destruct first as [|cell first]; [contradiction|].
  eauto.
Qed.

(** X20.  _load_generic raises only what opening, decoding and parsing
    the file raise: it returns a mapping for a missing file and for every
    file that is read to its end, and the error of the reading
    otherwise.  The IndexError of _detect_header_and_mode on an empty
    first row cannot occur, because _read_rows keeps no empty row. *)
Theorem load_raises_only_read_errors (file : csv_file) :
  match failure_of file with
  | None => exists mapping, _load_generic file = inl mapping
  | Some e => _load_generic file = inr (Read e)
  end.
Proof.
  destruct file as [|rdr [e|]]; cbn [failure_of].
  - exists []. reflexivity.
  - reflexivity.
  - unfold _load_generic. cbn [_read_rows].
    destruct (rows_to_mapping_kept (fold_left read_step rdr []) true
                (read_rows_kept rdr)) as [mapping ->].
    eauto.
Qed.

(** X21.  The parameter single_col_ok of _rows_to_mapping has no effect:
    with False the single-column rows are kept as with True. *)
Theorem single_col_flag_has_no_effect (rows : list (list str)) :
  _rows_to_mapping rows false = _rows_to_mapping rows true.
Proof.
  unfold _rows_to_mapping. destruct rows as [|first rows]; [reflexivity|].
  destruct (_detect_header_and_mode (first :: rows)) as [[[h c] f]|e]; [|reflexivity].
  reflexivity.
Qed.

(** *** The mapping *)

Lemma dict_mem_set {V : Type} (d : list (str * V)) (k k' : str) (v : V) :
  Dict.mem d k' = true -> Dict.mem (Dict.set d k v) k' = true.
Proof.
  unfold Dict.mem. rewrite dict_get_set. destruct (Py.eqb k k'); auto.
Qed.

Lemma dict_mem_set_same {V : Type} (d : list (str * V)) (k : str) (v : V) :
  Dict.mem (Dict.set d k v) k = true.
Proof. unfold Dict.mem. rewrite dict_get_set, eqb_refl. reflexivity. Qed.

Section Entries.

Variable rows : list (list str).

#[local] Abbreviation from_rows := (from_rows rows).

Lemma from_rows_set (m : list (str * str)) (key cell : str) (rest : list str) :
  from_rows m -> In (cell :: rest) rows ->
  from_rows (Dict.set m (Py.lower key) (_clean_cell cell)).
Proof.
  intros Hm Hin k v. rewrite dict_get_set.
  destruct (Py.eqb (Py.lower key) k) eqn:E; [|apply Hm].
  apply eqb_eq in E. subst k. intros [= <-].
  split; [apply lower_idempotent|eauto].
Qed.

Lemma from_rows_aliases (cell : str) (rest : list str) (aliases : list str) :
  In (cell :: rest) rows ->
  forall m, from_rows m ->
            from_rows (fold_left (alias_step (_clean_cell cell)) aliases m).
Proof.
  intros Hin. induction aliases as [|a aliases IH]; intros m Hm; [exact Hm|].
  simpl. apply IH. unfold alias_step.
  destruct (negb (Py.truthy (_clean_cell a))); [exact Hm|].
  destruct (Py.eqb _ _); [exact Hm|].
  apply from_rows_set with rest; assumption.
Qed.

Lemma from_rows_step (b : bool) (m : list (str * str)) (r : list str) :
  In r rows -> from_rows m -> from_rows (row_step b m r).
Proof.
  intros Hin Hm. unfold row_step. destruct r as [|cell aliases]; [exact Hm|].
  destruct (negb (Py.truthy (_clean_cell cell))); [exact Hm|].
  pose proof (from_rows_set m (_clean_cell cell) cell aliases Hm Hin) as Hset.
  destruct (1 <? length (cell :: aliases)).
  - apply from_rows_aliases with aliases; assumption.
  - destruct (negb b); exact Hset.
Qed.

Lemma from_rows_fold (b : bool) (l : list (list str)) :
  (forall r, In r l -> In r rows) ->
  forall m, from_rows m -> from_rows (fold_left (row_step b) l m).
Proof.
  induction l as [|r l IH]; intros Hl m Hm; [exact Hm|].
  simpl. apply IH.
  - intros r' Hr'. apply Hl. right. exact Hr'.
  - apply from_rows_step; [apply Hl; left; reflexivity|exact Hm].
Qed.

End Entries.

Lemma In_skipn {A : Type} (x : A) (n : nat) (l : list A) :
  In x (skipn n l) -> In x l.
Proof.
  revert l. induction n as [|n IH]; intros l H; [exact H|].
  destruct l as [|y l]; [contradiction|]. right. apply IH, H.
Qed.

(** X22.  In the mapping every key is in lower case and every value is the
    cleaned first cell of a row. *)
Theorem mapping_entries_come_from_rows
    (rows : list (list str)) (single_col_ok : bool) (mapping : list (str * str))
    (k v : str) :
  _rows_to_mapping rows single_col_ok = inl mapping ->
  Dict.get mapping k = Some v ->
  Py.lower k = k
  /\ exists cell rest, In (cell :: rest) rows /\ v = _clean_cell cell.
Proof.
  unfold _rows_to_mapping. destruct rows as [|first rows']; [intros [= <-]; discriminate|].
  set (rows := first :: rows').
  destruct (_detect_header_and_mode rows) as [[[h c] f]|e]; [|discriminate].
  intros [= <-]. apply (from_rows_fold rows single_col_ok).
  - intros r Hr. destruct h; [right|]; exact Hr.
  - intros k0 v0 H. discriminate.
Qed.

Lemma mem_aliases (canon key : str) (aliases : list str) :
  forall m, Dict.mem m key = true ->
            Dict.mem (fold_left (alias_step canon) aliases m) key = true.
Proof.
  induction aliases as [|a aliases IH]; intros m Hm; [exact Hm|].
  simpl. apply IH. unfold alias_step.
  destruct (negb (Py.truthy (_clean_cell a))); [exact Hm|].
  destruct (Py.eqb _ _); [exact Hm|]. apply dict_mem_set, Hm.
Qed.

Lemma mem_step (b : bool) (m : list (str * str)) (r : list str) (key : str) :
  Dict.mem m key = true -> Dict.mem (row_step b m r) key = true.
Proof.
  intros Hm. unfold row_step. destruct r as [|cell aliases]; [exact Hm|].
  destruct (negb (Py.truthy (_clean_cell cell))); [exact Hm|].
  destruct (1 <? length (cell :: aliases)).
  - apply mem_aliases, dict_mem_set, Hm.
  - destruct (negb b); apply dict_mem_set, Hm.
Qed.

Lemma mem_step_own (b : bool) (m : list (str * str)) (cell : str) (rest : list str) :
  Py.truthy (_clean_cell cell) = true ->
  Dict.mem (row_step b m (cell :: rest)) (Py.lower (_clean_cell cell)) = true.
Proof.
  intros Ht. unfold row_step. rewrite Ht. cbn [negb].
  destruct (1 <? length (cell :: rest)).
  - apply mem_aliases, dict_mem_set_same.
  - destruct (negb b); apply dict_mem_set_same.
Qed.

Lemma mem_fold (b : bool) (l : list (list str)) (key : str) :
  forall m, Dict.mem m key = true ->
            Dict.mem (fold_left (row_step b) l m) key = true.
Proof.
  induction l as [|r l IH]; intros m Hm; [exact Hm|].
  simpl. apply IH, mem_step, Hm.
Qed.

Lemma mem_fold_row (b : bool) (l : list (list str)) (cell : str) (rest : list str) :
  In (cell :: rest) l -> Py.truthy (_clean_cell cell) = true ->
  forall m,
    Dict.mem (fold_left (row_step b) l m) (Py.lower (_clean_cell cell)) = true.
Proof.
  intros Hin Ht. induction l as [|r l IH]; intros m; [contradiction|].
  simpl. destruct Hin as [->|Hin].
  - apply mem_fold, mem_step_own, Ht.
  - apply IH, Hin.
Qed.

(** X23.  Every row after the first whose cleaned first cell is not empty
    can be looked up: the lower-case form of that cell is a key of the
    mapping. *)
Theorem rows_after_the_first_can_be_looked_up
    (rows : list (list str)) (single_col_ok : bool) (mapping : list (str * str))
    (cell : str) (rest : list str) :
  _rows_to_mapping rows single_col_ok = inl mapping ->
  In (cell :: rest) (skipn 1 rows) ->
  Py.truthy (_clean_cell cell) = true ->
  Dict.mem mapping (Py.lower (_clean_cell cell)) = true.
Proof.
  unfold _rows_to_mapping. destruct rows as [|first rows']; [intros _ []|].
  destruct (_detect_header_and_mode (first :: rows')) as [[[h c] f]|e]; [|discriminate].
  intros [= <-] Hin Ht. apply mem_fold_row with rest; [|exact Ht].
  destruct h; [exact Hin|apply In_skipn in Hin; exact Hin].
Qed.

(** *** The preview *)

Lemma preview_loop_firstn (l : list (str * str)) :
  forall (i : nat) (n : Z) (out : list (str * str)),
    preview_loop (combine (seq i (length l)) l) n out
    = out ++ firstn (Z.to_nat n - i) l.
Proof.
  induction l as [|kv l IH]; intros i n out; simpl.
  - rewrite firstn_nil, app_nil_r. reflexivity.
  - destruct (n <=? Z.of_nat i)%Z eqn:E.
    + apply Z.leb_le in E. replace (Z.to_nat n - i) with 0 by lia.
      rewrite app_nil_r. reflexivity.
    + apply Z.leb_gt in E. rewrite IH, <- List.app_assoc.
      replace (Z.to_nat n - i) with (S (Z.to_nat n - S i)) by lia.
      reflexivity.
Qed.

(** X24.  sample_preview returns the first n items of the mapping in the
    order of insertion, all of them when there are fewer, none when n is
    zero or negative. *)
Theorem sample_preview_is_a_prefix (mapping : list (str * str)) (n : Z) :
  sample_preview mapping n = firstn (Z.to_nat n) mapping.
Proof.
  unfold sample_preview, SpellChecker.enumerate.
  rewrite preview_loop_firstn, Nat.sub_0_r. reflexivity.
Qed.

End Loader.

Section LoaderWitnesses.

Import LexiconLoader LoaderSpec.

Lemma two_rows_mapping :
  _rows_to_mapping two_rows true
  = inl [(str_of_string "tamil nadu", str_of_string "Tamil Nadu");
         (str_of_string "tn", str_of_string "Tamil Nadu")].
Proof. vm_compute. reflexivity. Qed.

Lemma mapping_entries_come_from_rows_witness :
  Py.lower "tn" = "tn"
  /\ exists cell rest,
       In (cell :: rest) two_rows /\ str_of_string "Tamil Nadu" = _clean_cell cell.
Proof.
  apply (mapping_entries_come_from_rows two_rows true _ "tn" "Tamil Nadu"
           two_rows_mapping).
  vm_compute. reflexivity.
Defined.

Lemma rows_after_the_first_can_be_looked_up_witness :
  Dict.mem [(str_of_string "tamil nadu", str_of_string "Tamil Nadu");
            (str_of_string "tn", str_of_string "Tamil Nadu")]
           (Py.lower (_clean_cell "Tamil  Nadu")) = true.
Proof.
  apply (rows_after_the_first_can_be_looked_up two_rows true _ "Tamil  Nadu"
           [str_of_string "TN"] two_rows_mapping).
  - left. reflexivity.
  - vm_compute. reflexivity.
Defined.

End LoaderWitnesses.

(** ** models/grammar_corrector.py: loading and generation *)

Section Generation.

Import GrammarGeneration GenerationSpec.

Variable Tok Mod : Type.
Variable load_tokenizer : str -> option Tok.
Variable load_model : str -> option Mod.
Variable _generate : str -> gen_args -> list str.

#[local] Abbreviation corrector := (corrector Tok Mod).
#[local] Abbreviation try_candidates := (try_candidates Tok Mod load_tokenizer load_model).
#[local] Abbreviation init := (init Tok Mod load_tokenizer load_model).
#[local] Abbreviation unavailable := (unavailable load_tokenizer load_model).
#[local] Abbreviation correct_topk := (correct_topk _generate).

(** *** Loading *)

Lemma try_candidates_found (candidates : list str) :
  forall self self',
    try_candidates candidates self = (self', true) ->
    exists before name after tk m,
      candidates = before ++ name :: after
      /\ Forall unavailable before
      /\ Py.truthy name = true
      /\ load_tokenizer name = Some tk
      /\ load_model name = Some m
      /\ self' = Corrector Tok Mod (Some name) (Some tk) (Some m).
Proof.
  induction candidates as [|name rest IH]; intros self self' H.
  - discriminate.
  - cbn [GrammarGeneration.try_candidates] in H.
    assert (Hrec : forall s, try_candidates rest s = (self', true) ->
                             unavailable name ->
      exists before name0 after tk m,
        name :: rest = before ++ name0 :: after
        /\ Forall unavailable before
        /\ Py.truthy name0 = true
        /\ load_tokenizer name0 = Some tk
        /\ load_model name0 = Some m
        /\ self' = Corrector Tok Mod (Some name0) (Some tk) (Some m)).
    { intros s Hs Hu.
      destruct (IH s self' Hs) as (before & n & after & tk & m & -> & Hb & R).
      exists (name :: before), n, after, tk, m.
      split; [reflexivity|]. split; [constructor; assumption|exact R]. }
    destruct (Py.truthy name) eqn:Ht; cbn [negb] in H.
    + destruct (load_tokenizer name) as [tk|] eqn:Htk.
      * destruct (load_model name) as [m|] eqn:Hm.
        -- injection H as <-.
           exists [], name, rest, tk, m. repeat split; auto.
        -- apply Hrec with (1 := H). right. right. exact Hm.
      * apply Hrec with (1 := H). right. left. exact Htk.
    + apply Hrec with (1 := H). left. exact Ht.
Qed.

Lemma try_candidates_none (candidates : list str) :
  forall self self',
    try_candidates candidates self = (self', false) ->
    Forall unavailable candidates.
Proof.
  induction candidates as [|name rest IH]; intros self self' H.
  - constructor.
  - cbn [GrammarGeneration.try_candidates] in H.
    destruct (Py.truthy name) eqn:Ht; cbn [negb] in H.
    + destruct (load_tokenizer name) as [tk|] eqn:Htk.
      * destruct (load_model name) as [m|] eqn:Hm; [discriminate|].
        constructor; [right; right; exact Hm|exact (IH _ _ H)].
      * constructor; [right; left; exact Htk|exact (IH _ _ H)].
    + constructor; [left; exact Ht|exact (IH _ _ H)].
Qed.

(** X25.  When the constructor succeeds, the corrector holds the first
    candidate, in the order of the list, whose tokenizer and model both
    load, with the tokenizer and the model of that same candidate; every
    candidate before it was empty or failed to load. *)
Theorem loads_first_available_model (name : option str) (self : corrector) :
  init name = inl self ->
  exists before chosen after tk m,
    candidates_of Tok Mod (Corrector Tok Mod name None None)
    = before ++ chosen :: after
    /\ Forall unavailable before
    /\ load_tokenizer chosen = Some tk
    /\ load_model chosen = Some m
    /\ self = Corrector Tok Mod (Some chosen) (Some tk) (Some m).
Proof.
  unfold GrammarGeneration.init, _load_first_available.
  destruct (try_candidates _ _) as [self' [|]] eqn:E; [|discriminate].
  intros [= <-].
  destruct (try_candidates_found _ _ _ E)
    as (before & n & after & tk & m & Hc & Hb & _ & Htk & Hm & Hs).
  exists before, n, after, tk, m. auto.
Qed.

(** X26.  The constructor raises RuntimeError only when no candidate can
    be used, and the message lists exactly the candidates that are not
    empty. *)
Theorem load_error_lists_all_candidates (name : option str) (tried : list str) :
  init name = inr (RuntimeError tried) ->
  let candidates := candidates_of Tok Mod (Corrector Tok Mod name None None) in
  Forall unavailable candidates /\ tried = filter Py.truthy candidates.
Proof.
  unfold GrammarGeneration.init, _load_first_available.
  destruct (try_candidates _ _) as [self' [|]] eqn:E; [discriminate|].
  intros [= <-]. split; [|reflexivity].
  apply (try_candidates_none _ _ _ E).
Qed.

(** X27.  A model name given by the caller is the only candidate: when its
    tokenizer or its model fails to load the constructor raises, and the
    public models are not tried in its place. *)
Theorem named_model_has_no_fallback (name : str) :
  Py.truthy name = true ->
  init (Some name)
  = match load_tokenizer name, load_model name with
    | Some tk, Some m => inl (Corrector Tok Mod (Some name) (Some tk) (Some m))
    | _, _ => inr (RuntimeError [name])
    end.
Proof.
  intros Ht.
  unfold GrammarGeneration.init, _load_first_available, candidates_of.
  cbn [model_name]. rewrite Ht.
  cbv zeta. cbn [GrammarGeneration.try_candidates]. rewrite Ht. cbn [negb].
  rewrite filter_cons_True by (rewrite Ht; exact I).
  destruct (load_tokenizer name); [destruct (load_model name)|]; reflexivity.
Qed.

(** *** The candidates of [correct_topk] *)

Lemma topk_step_invariant (raw : list str) (st : gset str * list str) (cand : str) :
  topk_invariant raw st -> In cand raw ->
  topk_invariant raw (topk_step st cand).
Proof.
  intros (Hseen & Hnd & Hin) Hc. unfold topk_step.
  destruct (bool_decide (cand ∈ fst st)) eqn:E.
  - repeat split; auto; apply Hseen.
  - apply bool_decide_eq_false in E. unfold topk_invariant. cbn [fst snd].
    split; [|split].
    + intros x. rewrite in_app_iff, <- Hseen. cbn [In].
      set_unfold. intuition auto.
    + apply NoDup_app. split; [exact Hnd|]. split.
      * intros x Hx Hx'. apply list_elem_of_In in Hx, Hx'.
        destruct Hx' as [<-|[]]. apply E, Hseen, Hx.
      * apply NoDup_singleton.
    + intros x Hx. apply in_app_iff in Hx. destruct Hx as [Hx|[<-|[]]]; auto.
Qed.

Lemma topk_fold_invariant (raw : list str) (l : list str) :
  forall st, topk_invariant raw st -> (forall x, In x l -> In x raw) ->
             topk_invariant raw (fold_left topk_step l st).
Proof.
  induction l as [|c l IH]; intros st Hst Hl; [exact Hst|].
  cbn [fold_left]. apply IH.
  - apply topk_step_invariant; [exact Hst|apply Hl; left; reflexivity].
  - intros x Hx. apply Hl. right. exact Hx.
Qed.

Lemma topk_invariant_run (raw : list str) :
  topk_invariant raw (fold_left topk_step raw (∅, [])).
Proof.
  apply topk_fold_invariant; [|auto].
  split; [|split].
  - intros x. cbn [fst snd In]. rewrite elem_of_empty. tauto.
  - constructor.
  - intros x [].
Qed.

Lemma NoDup_firstn {A : Type} (n : nat) (l : list A) :
  NoDup l -> NoDup (firstn n l).
Proof.
  revert l. induction n as [|n IH]; intros l H.
  - rewrite firstn_O. constructor.
  - destruct l as [|x l]; [constructor|].
    rewrite firstn_cons. apply NoDup_cons in H. destruct H as [Hx Hl].
    apply NoDup_cons. split; [|apply IH, Hl].
    intros Hin. apply Hx. apply list_elem_of_In.
    apply list_elem_of_In in Hin. eapply In_firstn, Hin.
Qed.

Lemma slice_to_prefix {A : Type} (k : Z) (xs : list A) :
  exists n, slice_to k xs = firstn n xs.
Proof. unfold slice_to. destruct (0 <=? k)%Z; eauto. Qed.

(** X28.  The suggestions of correct_topk are pairwise different, and
    every one of them is a sequence the generator returned for this
    request. *)
Theorem suggestions_are_distinct_generator_outputs
    (text : str) (k num_beams max_new_tokens : Z) :
  let raw :=
    _generate (_build_prompt text)
      (GenArgs num_beams max_new_tokens k true (95 # 100) (9 # 10)) in
  NoDup (correct_topk text k num_beams max_new_tokens)
  /\ Forall (fun cand => In cand raw)
            (correct_topk text k num_beams max_new_tokens).
Proof.
  intros raw. unfold GrammarGeneration.correct_topk. fold raw.
  pose proof (topk_invariant_run raw) as (_ & Hnd & Hin).
  destruct (fold_left topk_step raw (∅, [])) as [seen outs].
  cbn [fst snd] in *.
  destruct (slice_to_prefix k outs) as [n ->].
  split; [apply NoDup_firstn, Hnd|].
  apply Forall_forall. intros c Hc. apply list_elem_of_In in Hc.
  apply Hin. eapply In_firstn, Hc.
Qed.

(** X29.  For k not negative correct_topk returns at most k suggestions,
    however many sequences the generator returns. *)
Theorem at_most_k_suggestions (text : str) (k num_beams max_new_tokens : Z) :
  (0 <= k)%Z ->
  (Z.of_nat (length (correct_topk text k num_beams max_new_tokens)) <= k)%Z.
Proof.
  intros Hk. unfold GrammarGeneration.correct_topk.
  destruct (fold_left topk_step _ _) as [seen outs].
  unfold slice_to. apply Z.leb_le in Hk. rewrite Hk. apply Z.leb_le in Hk.
  rewrite length_firstn. lia.
Qed.

Lemma topk_fold_head (l : list str) :
  forall (st : gset str * list str) (c : str) (outs : list str),
    snd st = c :: outs ->
    exists outs', snd (fold_left topk_step l st) = c :: outs'.
Proof.
  induction l as [|x l IH]; intros st c outs H; [eauto|].
  cbn [fold_left]. unfold topk_step at 2.
  destruct (bool_decide (x ∈ fst st)); [eapply IH, H|].
  eapply IH. cbn [snd]. rewrite H. reflexivity.
Qed.

(** X30.  When at least one suggestion is asked for, the first sequence of
    the generator is the first suggestion. *)
Theorem best_sequence_is_first_suggestion
    (text : str) (k num_beams max_new_tokens : Z) (best : str) (others : list str) :
  (1 <= k)%Z ->
  _generate (_build_prompt text)
    (GenArgs num_beams max_new_tokens k true (95 # 100) (9 # 10))
  = best :: others ->
  exists rest, correct_topk text k num_beams max_new_tokens = best :: rest.
Proof.
  intros Hk Hraw. unfold GrammarGeneration.correct_topk. rewrite Hraw.
  cbn [fold_left]. unfold topk_step at 2. cbn [fst snd].
  rewrite bool_decide_eq_false_2 by apply not_elem_of_empty.
  destruct (topk_fold_head others (({[best]} ∪ ∅, [] ++ [best])) best [] eq_refl)
    as [outs' H].
  destruct (fold_left topk_step others _) as [seen outs]. cbn [snd] in H.
  subst outs. unfold slice_to.
  assert (E : (0 <=? k)%Z = true) by (apply Z.leb_le; lia). rewrite E.
  destruct (Z.to_nat k) as [|n] eqn:En; [lia|].
  rewrite firstn_cons. eauto.
Qed.

End Generation.

Section GenerationWitnesses.

Import GrammarGeneration GenerationSpec.

Lemma second_only_loads :
  init unit unit second_only second_only None
  = inl (Corrector unit unit
           (Some (str_of_string "prithivida/grammar_error_correcter_v1"))
           (Some tt) (Some tt)).
Proof. vm_compute. reflexivity. Qed.

Lemma loads_first_available_model_witness :
  exists before chosen after tk m,
    candidates_of unit unit (Corrector unit unit None None None)
    = before ++ chosen :: after
    /\ Forall (unavailable second_only second_only) before
    /\ second_only chosen = Some tk
    /\ second_only chosen = Some m
    /\ Corrector unit unit
         (Some (str_of_string "prithivida/grammar_error_correcter_v1"))
         (Some tt) (Some tt)
       = Corrector unit unit (Some chosen) (Some tk) (Some m).
Proof.
  exact (loads_first_available_model unit unit second_only second_only
           None _ second_only_loads).
Defined.

Lemma nothing_loads :
  init unit unit nothing nothing None = inr (RuntimeError PUBLIC_MODELS).
Proof. vm_compute. reflexivity. Qed.

Lemma load_error_lists_all_candidates_witness :
  Forall (unavailable nothing nothing)
         (candidates_of unit unit (Corrector unit unit None None None))
  /\ PUBLIC_MODELS
     = filter Py.truthy (candidates_of unit unit (Corrector unit unit None None None)).
Proof.
  exact (load_error_lists_all_candidates unit unit nothing nothing
           None PUBLIC_MODELS nothing_loads).
Defined.

Lemma named_model_has_no_fallback_witness :
  init unit unit second_only second_only (Some (str_of_string "my/model"))
  = inr (RuntimeError [str_of_string "my/model"]).
Proof.
  apply (named_model_has_no_fallback unit unit second_only second_only "my/model").
  vm_compute. reflexivity.
Defined.

Lemma at_most_k_suggestions_witness :
  (Z.of_nat (length (correct_topk repeating "he go home" 1 8 128)) <= 1)%Z.
Proof. apply (at_most_k_suggestions repeating "he go home" 1 8 128). lia. Defined.

Lemma best_sequence_is_first_suggestion_witness :
  exists rest,
    correct_topk repeating "he go home" 3 8 128
    = str_of_string "He goes home." :: rest.
Proof.
  apply (best_sequence_is_first_suggestion repeating "he go home" 3 8 128
           "He goes home."
           (map str_of_string ["He goes home."; "He went home."])).
  - lia.
  - reflexivity.
Defined.

End GenerationWitnesses.
